(** * Across bridge automation: a shallow embedding of the orchestration code

    The repository drives a third-party bridging SDK: it asks for a quote,
    checks it against thresholds, executes it, polls a status endpoint and
    appends the outcome to a JSON history file.  This development embeds

    - [tools/helper.js]  (token, decimals and chain lookups, route building,
                          the listings of chains, tokens and routes),
    - the main script    (history recorder, quoting, threshold check,
                          execution driver, status poller, orchestrator),
    - [tools/config.js]  (the shipped configuration, as data),

    and proves properties of them.  JavaScript objects used as maps are
    [gmap]s with string keys (a numeric key is its decimal rendering); where
    the code enumerates an object ([Object.keys], [Object.entries]) the
    object is the list of its property definitions, in source order.  JS
    Numbers that take part in arithmetic are IEEE-754 binary64 values
    ([spec_float] at precision 53), BigInts are [Z], and code that logs,
    sleeps, calls the SDK, the status endpoint or the file system runs in a
    state-and-exception monad over an explicit [World].

    The collaborators the repository does not contain (the bridging SDK,
    viem's unit conversion, axios, the file system, the runtime's number
    and date formatting) are the fields of an environment [Env].  The
    check of [PRIVATE_KEY] and the construction of the SDK client happen
    before [main] and are not part of the model; neither are the
    configuration fields that no script reads (the retry policy,
    [maxSlippage], an operation's [useBridged], the [onStart] notification). *)

From Stdlib Require Import ZArith NArith String Ascii List Bool Lia.
From Stdlib Require Import Floats.SpecFloat.
From stdpp Require Import base option list gmap strings pretty sorting.
Import ListNotations.

Set Warnings "-register-all".
Local Open Scope Z_scope.

(** ** JavaScript values *)

(** A thrown [Error].  The scripts read its [message]; [main] also prints
    its stack, which the environment renders. *)
Record Error : Type := mkError { message : string }.

(** How a call completes: normally with a value, or by throwing. *)
Inductive Completion (A : Type) : Type :=
| Normal (a : A)
| Throw (e : Error).
Arguments Normal {A} a.
Arguments Throw {A} e.

(** Truthiness of the values the scripts test with [if], [&&], [||], [?:]. *)
Definition truthy_string (s : string) : bool := negb (String.eqb s "").
Definition truthy_int (z : Z) : bool := negb (z =? 0).
Definition truthy_nat (n : nat) : bool := negb (Nat.eqb n 0).

(** [Number(x)] of a BigInt, and Number arithmetic and comparison. *)
Definition Number (z : Z) : spec_float := binary_normalize 53 1024 z 0 false.
Definition num_div (x y : spec_float) : spec_float := SFdiv 53 1024 x y.
Definition num_mul (x y : spec_float) : spec_float := SFmul 53 1024 x y.
Definition num_le (x y : spec_float) : bool := SFleb x y.
Definition num_ge (x y : spec_float) : bool := SFleb y x.

(** [String.prototype.toLowerCase], on the ASCII letters.  Every byte of a
    multi-byte UTF-8 character is above 127 and is left as it is; no such
    character lower-cases to one of the status words the poller looks for. *)
Definition lower_ascii (c : ascii) : ascii :=
  let n := nat_of_ascii c in
  if (Nat.leb 65 n && Nat.leb n 90)%bool then ascii_of_nat (n + 32) else c.

Fixpoint toLowerCase (s : string) : string :=
  match s with
  | EmptyString => EmptyString
  | String c rest => String (lower_ascii c) (toLowerCase rest)
  end.

(** JSON values, as [JSON.parse] yields them and [JSON.stringify] takes them. *)
Inductive json : Type :=
| JNull
| JBool (b : bool)
| JNum (z : Z)
| JStr (s : string)
| JArr (items : list json)
| JObj (fields : list (string * json)).

(** ** Configuration ([tools/config.js]) *)

(** An entry of [BRIDGE_OPERATIONS], with the fields the scripts read. *)
Record Operation : Type := {
  name : string;
  enabled : bool;
  tokenSymbol : string;
  originChainId : N;
  destinationChainId : N;
  (** the configured number, through [inputAmount.toString()] *)
  inputAmount : string;
  decimals : option nat;
  useNativeToken : option bool
}.

Record Chain : Type := {
  chainName : string;
  rpcUrl : string;
  explorerUrl : string;
  spokePool : string
}.

(** [THRESHOLDS]: a Number, and a whole number of seconds. *)
Record Thresholds : Type := {
  minOutputPercentage : spec_float;
  maxFillTimeSeconds : Z
}.

Record Notifications : Type := {
  onThresholdFailure : bool;
  onExecutionStart : bool;
  onExecutionComplete : bool;
  onError : bool
}.

Record Monitoring : Type := {
  statusPollingInterval : Z;
  maxPollingAttempts : nat;
  notifications : Notifications
}.

Record Options : Type := {
  autoExecute : bool;
  saveHistory : bool;
  historyFile : string;
  verboseLogging : bool;
  showQuoteDetails : bool
}.

Record Config : Type := {
  BRIDGE_OPERATIONS : list Operation;
  THRESHOLDS : Thresholds;
  MONITORING : Monitoring;
  TOKENS : gmap string (gmap string string);
  CHAINS : gmap string Chain;
  TOKEN_DECIMALS : gmap string nat;
  OPTIONS : Options
}.

(** ** What the collaborators exchange with the scripts *)

(** The route handed to the SDK's quote call. *)
Record Route : Type := {
  route_originChainId : N;
  route_destinationChainId : N;
  inputToken : string;
  outputToken : string;
  isNative : bool
}.

(** [quote.deposit]: the two amounts, in the token's smallest unit. *)
Record Deposit : Type := {
  deposit_inputAmount : Z;
  deposit_outputAmount : Z
}.

(** [quote.fees]: the [total] of each fee, when the fee object is there. *)
Record Fees : Type := {
  totalRelayFee : option Z;
  lpFee : option Z
}.

Record Quote : Type := {
  deposit : Deposit;
  estimatedFillTimeSec : Z;
  fees : option Fees
}.

(** The execution result object; an absent or [null] field is [None]. *)
Record Result : Type := {
  success : bool;
  depositId : option Z;
  originTxHash : option string;
  destinationTxHash : option string;
  error : option string
}.

(** [progress.fillTxTimestamp]: a BigInt of seconds, or a Number. *)
Inductive FillTimestamp : Type :=
| TsBigInt (seconds : Z)
| TsNumber (millis : Z).

(** The progress events the SDK hands to [onProgress], by step and status,
    each with the payload the callback reads. *)
Inductive Progress : Type :=
| ApprovePending
| ApproveSuccess (transactionHash : string)
| DepositPending
| DepositSuccess (id : Z) (transactionHash : string)
| FillPending
| FillSuccess (txReceipt : option string) (fillTxTimestamp : option FillTimestamp)
| OtherProgress.

(** What one GET on the status endpoint comes to: [axios.get] throws
    (network failure, non-2xx), or the body is such that
    [status.status.toLowerCase()] throws, or it carries a status string. *)
Inductive Response : Type :=
| RequestError (e : Error)
| Malformed (e : Error)
| Status (s : string).

(** The history file as the recorder meets it: absent, present but
    [readFileSync] throws, present but [JSON.parse] throws, or holding text
    that parses to a JSON value. *)
Inductive FileState : Type :=
| Missing
| Unreadable (e : Error)
| Unparsable (e : Error)
| Holds (j : json).

(** What a call of [fs.writeFileSync] that throws has done to the file.
    The error came before the file was opened, and the file is as it was;
    or the file was opened, which creates or truncates it, and it holds
    none or only part of the text, which [JSON.parse] rejects with
    [parseError]; or all the text was written before the error. *)
Inductive Aftermath : Type :=
| Untouched
| Truncated (parseError : Error)
| Complete.

(** ** The environment and the world *)

(** The collaborators, as functions.  The SDK, the status endpoint and the
    file system answer the n-th call of each kind; the renderers stand for
    the number and date formatting of the JS runtime. *)
Record Env : Type := {
  parseUnits : string -> nat -> Completion Z;
  formatUnits : Z -> nat -> Completion string;
  sdk_getQuote : nat -> Route -> Z -> Completion Quote;
  sdk_executeQuote : nat -> Deposit -> list Progress * option Error;
  axios_get : nat -> string -> Response;
  fs_writeFileSync : nat -> string -> option (Error * Aftermath);
  toLocaleTimeString : Z -> string;
  toISOString : Z -> string;
  dateToLocaleString : Z -> string;
  toFixed : spec_float -> nat -> string;
  numberToString : spec_float -> string;
  amountToLocaleString : string -> option (nat * nat) -> string;
  errorStack : Error -> string;
  accountAddress : string
}.

(** What the scripts change: the two output streams (newest line first),
    the history file, the clock (milliseconds; only sleeping moves it), and
    how many calls each collaborator has received. *)
Record World : Type := {
  console : list string;
  stderr : list string;
  disk : FileState;
  now : Z;
  quotes : nat;
  executions : nat;
  requests : nat;
  writes : nat
}.

Definition push_console (line : string) (w : World) : World :=
  {| console := line :: console w; stderr := stderr w; disk := disk w; now := now w;
     quotes := quotes w; executions := executions w; requests := requests w;
     writes := writes w |}.

Definition push_stderr (line : string) (w : World) : World :=
  {| console := console w; stderr := line :: stderr w; disk := disk w; now := now w;
     quotes := quotes w; executions := executions w; requests := requests w;
     writes := writes w |}.

Definition set_disk (d : FileState) (w : World) : World :=
  {| console := console w; stderr := stderr w; disk := d; now := now w;
     quotes := quotes w; executions := executions w; requests := requests w;
     writes := writes w |}.

Definition advance (ms : Z) (w : World) : World :=
  {| console := console w; stderr := stderr w; disk := disk w; now := now w + ms;
     quotes := quotes w; executions := executions w; requests := requests w;
     writes := writes w |}.

Definition count_quote (w : World) : World :=
  {| console := console w; stderr := stderr w; disk := disk w; now := now w;
     quotes := S (quotes w); executions := executions w; requests := requests w;
     writes := writes w |}.

Definition count_execution (w : World) : World :=
  {| console := console w; stderr := stderr w; disk := disk w; now := now w;
     quotes := quotes w; executions := S (executions w); requests := requests w;
     writes := writes w |}.

Definition count_request (w : World) : World :=
  {| console := console w; stderr := stderr w; disk := disk w; now := now w;
     quotes := quotes w; executions := executions w; requests := S (requests w);
     writes := writes w |}.

Definition count_write (w : World) : World :=
  {| console := console w; stderr := stderr w; disk := disk w; now := now w;
     quotes := quotes w; executions := executions w; requests := requests w;
     writes := S (writes w) |}.

(** ** The monad of the scripts: state and exceptions *)

Definition M (A : Type) : Type := World -> Completion A * World.

Definition ret {A : Type} (a : A) : M A := fun w => (Normal a, w).

Definition throw {A : Type} (e : Error) : M A := fun w => (Throw e, w).

Definition bind {A B : Type} (m : M A) (k : A -> M B) : M B :=
  fun w =>
    match m w with
    | (Normal a, w') => k a w'
    | (Throw e, w') => (Throw e, w')
    end.

(** [try { m } catch (error) { h error }] *)
Definition try_catch {A : Type} (m : M A) (h : Error -> M A) : M A :=
  fun w =>
    match m w with
    | (Normal a, w') => (Normal a, w')
    | (Throw e, w') => h e w'
    end.

(** A call without effects that may throw. *)
Definition lift {A : Type} (c : Completion A) : M A := fun w => (c, w).

Definition when (b : bool) (m : M unit) : M unit := if b then m else ret tt.

Declare Scope js_scope.
Delimit Scope js_scope with js.
Notation "x <- m ;; k" := (bind m (fun x => k))
  (at level 100, m at next level, right associativity) : js_scope.
Notation "m ;; k" := (bind m (fun _ => k))
  (at level 100, right associativity) : js_scope.
Local Open Scope js_scope.

Section Program.
Context (cfg : Config) (E : Env).

(** ** Lookup utilities ([tools/helper.js]) *)

(** [TOKENS[sym] && TOKENS[sym][key]], read for its truthiness and value. *)
Definition tokenEntry (sym key : string) : option string :=
  match TOKENS cfg !! sym with
  | Some chainMap =>
      match chainMap !! key with
      | Some addr => if truthy_string addr then Some addr else None
      | None => None
      end
  | None => None
  end.

Definition bridgedKey (chainId : N) : string := pretty chainId +:+ "-bridged".

Definition notSupported (tokenSymbol : string) (chainId : N) : Error :=
  mkError ("Token " +:+ tokenSymbol +:+ " not supported on chain " +:+ pretty chainId).

Definition getTokenAddress (tokenSymbol : string) (chainId : N) (useBridged : bool)
  : Completion string :=
  let standard :=
    match tokenEntry tokenSymbol (pretty chainId) with
    | Some addr => Normal addr
    | None => Throw (notSupported tokenSymbol chainId)
    end in
  if (useBridged && existsb (String.eqb tokenSymbol) ["USDC"%string])%bool then
    match tokenEntry tokenSymbol (bridgedKey chainId) with
    | Some addr => Normal addr
    | None => standard
    end
  else standard.

(** The [switch] of [getTokenDecimals]. *)
Definition defaultDecimals (tokenSymbol : string) : nat :=
  if String.eqb tokenSymbol "ETH" || String.eqb tokenSymbol "WETH" then 18%nat
  else if String.eqb tokenSymbol "USDC" || String.eqb tokenSymbol "USDC.e"
          || String.eqb tokenSymbol "USDT" then 6%nat
  else if String.eqb tokenSymbol "WBTC" then 8%nat
  else 18%nat.

Definition getTokenDecimals (tokenSymbol : string) : nat :=
  match TOKEN_DECIMALS cfg !! tokenSymbol with
  | Some d => if truthy_nat d then d else defaultDecimals tokenSymbol
  | None => defaultDecimals tokenSymbol
  end.

Definition getChainName (chainId : N) : string :=
  match CHAINS cfg !! pretty chainId with
  | Some c => chainName c
  | None => "Chain " +:+ pretty chainId
  end.

Definition formatTokenAmount (amount tokenSymbol : string) : string :=
  let decimals := getTokenDecimals tokenSymbol in
  let fractionDigits :=
    if Nat.eqb decimals 18 then Some (0%nat, 6%nat)
    else if Nat.eqb decimals 8 then Some (0%nat, 8%nat)
    else if Nat.eqb decimals 6 then Some (2%nat, 4%nat)
    else None in
  amountToLocaleString E amount fractionDigits +:+ " " +:+ tokenSymbol.

Definition describeBridgeOperation (operation : Operation) : string :=
  let useNative :=
    match useNativeToken operation with
    | Some b => b
    | None => String.eqb (tokenSymbol operation) "ETH"
    end in
  let tokenDisplay :=
    if String.eqb (tokenSymbol operation) "ETH" && useNative
    then "ETH (native)"%string else tokenSymbol operation in
  "Bridge " +:+ formatTokenAmount (inputAmount operation) (tokenSymbol operation)
  +:+ " from " +:+ getChainName (originChainId operation)
  +:+ " to " +:+ getChainName (destinationChainId operation)
  +:+ " using " +:+ tokenDisplay.

Definition createRouteObject (tokenSymbol : string) (originChainId destinationChainId : N)
  (useNativeToken : bool) : Completion Route :=
  match getTokenAddress tokenSymbol originChainId false with
  | Throw e => Throw e
  | Normal input =>
      match getTokenAddress tokenSymbol destinationChainId false with
      | Throw e => Throw e
      | Normal output =>
          Normal {| route_originChainId := originChainId;
                    route_destinationChainId := destinationChainId;
                    inputToken := input;
                    outputToken := output;
                    isNative := String.eqb tokenSymbol "ETH" && useNativeToken |}
      end
  end.

(** ** The runtime's effects *)

Definition logWithTime (msg : string) : M unit :=
  fun w =>
    (Normal tt, push_console ("[" +:+ toLocaleTimeString E (now w) +:+ "] " +:+ msg) w).

Definition console_error (msg : string) : M unit :=
  fun w => (Normal tt, push_stderr msg w).

(** [await new Promise(resolve => setTimeout(resolve, ms))] *)
Definition sleep (ms : Z) : M unit := fun w => (Normal tt, advance ms w).

(** [new Date().toISOString()] *)
Definition nowISO : M string := fun w => (Normal (toISOString E (now w)), w).

Definition existsSync : M bool :=
  fun w => (Normal match disk w with Missing => false | _ => true end, w).

(** [JSON.parse(fs.readFileSync(historyFile, "utf8"))] *)
Definition readAndParse : M json :=
  fun w =>
    match disk w with
    | Missing =>
        (Throw (mkError ("ENOENT: no such file or directory, open '"
                         +:+ historyFile (OPTIONS cfg) +:+ "'")), w)
    | Unreadable e => (Throw e, w)
    | Unparsable e => (Throw e, w)
    | Holds j => (Normal j, w)
    end.

(** The world after a call of [fs.writeFileSync] that threw. *)
Definition failedWrite (aftermath : Aftermath) (history : json) (w : World) : World :=
  match aftermath with
  | Untouched => count_write w
  | Truncated parseError => set_disk (Unparsable parseError) (count_write w)
  | Complete => set_disk (Holds history) (count_write w)
  end.

(** [fs.writeFileSync(historyFile, JSON.stringify(history, null, 2))]: the
    file then holds text that parses back to [history]; a write that
    throws leaves the file as the environment says. *)
Definition writeFileSync (history : json) : M unit :=
  fun w =>
    match fs_writeFileSync E (writes w) (historyFile (OPTIONS cfg)) with
    | None => (Normal tt, set_disk (Holds history) (count_write w))
    | Some (e, aftermath) => (Throw e, failedWrite aftermath history w)
    end.

(** [history.push(record)]: only an array has [push]. *)
Definition push (history record : json) : M json :=
  match history with
  | JArr items => ret (JArr (items ++ [record]))
  | JNull => throw (mkError "Cannot read properties of null (reading 'push')")
  | _ => throw (mkError "history.push is not a function")
  end.

Definition client_getQuote (route : Route) (amount : Z) : M Quote :=
  fun w => (sdk_getQuote E (quotes w) route amount, count_quote w).

Definition axiosGet (url : string) : M Response :=
  fun w => (Normal (axios_get E (requests w) url), count_request w).

(** ** The main script *)

(** [operation.decimals || getTokenDecimals(operation.tokenSymbol)] *)
Definition effectiveDecimals (operation : Operation) : nat :=
  match decimals operation with
  | Some d => if truthy_nat d then d else getTokenDecimals (tokenSymbol operation)
  | None => getTokenDecimals (tokenSymbol operation)
  end.

(** *** History recorder *)

Definition safeOperation (operation : Operation) : json :=
  JObj [("name", JStr (name operation));
        ("tokenSymbol", JStr (tokenSymbol operation));
        ("originChainId", JNum (Z.of_N (originChainId operation)));
        ("destinationChainId", JNum (Z.of_N (destinationChainId operation)));
        ("inputAmount", JStr (inputAmount operation))]%string.

(** [x || null] on an optional string *)
Definition or_null (o : option string) : json :=
  match o with
  | Some s => if truthy_string s then JStr s else JNull
  | None => JNull
  end.

Definition safeResult (result : Result) : list (string * json) :=
  [("success", JBool (success result));
   ("depositId",
    match depositId result with
    | Some id => if truthy_int id then JStr (pretty id) else JNull
    | None => JNull
    end);
   ("originTxHash", or_null (originTxHash result));
   ("destinationTxHash", or_null (destinationTxHash result));
   ("error", or_null (error result))]%string.

(** [fee?.total ? formatUnits(fee.total, decimals) : "0"] *)
Definition formatFee (total : option Z) (decimals : nat) : M string :=
  match total with
  | Some t => if truthy_int t then lift (formatUnits E t decimals) else ret "0"%string
  | None => ret "0"%string
  end.

(** The [outputAmount] and [fees] fields added when the quote has an output
    amount, with the fallback to the raw amount when formatting throws. *)
Definition outputFields (operation : Operation) (quote : option Quote)
  : M (list (string * json)) :=
  match quote with
  | None => ret []
  | Some q =>
      let out := deposit_outputAmount (deposit q) in
      if truthy_int out then
        try_catch
          (let decimals := effectiveDecimals operation in
           formatted <- lift (formatUnits E out decimals);;
           match fees q with
           | Some f =>
               relay <- formatFee (totalRelayFee f) decimals;;
               lp <- formatFee (lpFee f) decimals;;
               ret [("outputAmount", JStr formatted);
                    ("fees", JObj [("relayFee", JStr relay); ("lpFee", JStr lp)])]%string
           | None => ret [("outputAmount"%string, JStr formatted)]
           end)
          (fun error =>
             logWithTime ("Warning: Could not format output amount: " +:+ message error);;
             ret [("outputAmount"%string, JStr (pretty out))])
      else ret []
  end.

(** The [try] that reads the existing history, starting from [[]]. *)
Definition readHistory : M json :=
  try_catch
    (present <- existsSync;;
     if present then readAndParse else ret (JArr []))
    (fun error =>
       logWithTime ("Warning: Could not read history file: " +:+ message error);;
       ret (JArr [])).

Definition saveTransactionToHistory (operation : Operation) (result : Result)
  (quote : option Quote) : M unit :=
  if negb (saveHistory (OPTIONS cfg)) then ret tt
  else
    history <- readHistory;;
    extra <- outputFields operation quote;;
    timestamp <- nowISO;;
    history' <- push history
                  (JObj [("timestamp", JStr timestamp);
                         ("operation", safeOperation operation);
                         ("result", JObj (safeResult result ++ extra))]%string);;
    try_catch
      (writeFileSync history';;
       when (verboseLogging (OPTIONS cfg)) (logWithTime "Transaction saved to history file"))
      (fun error =>
         logWithTime ("Error: Could not save to history file: " +:+ message error)).

(** *** Quote acquisition *)

(** [quote.fees.<fee>.total], which throws when an object on the way is absent *)
Definition feeTotal (quote : Quote) (fee : Fees -> option Z) (feeName : string) : M Z :=
  match fees quote with
  | None =>
      throw (mkError ("Cannot read properties of undefined (reading '" +:+ feeName +:+ "')"))
  | Some f =>
      match fee f with
      | None => throw (mkError "Cannot read properties of undefined (reading 'total')")
      | Some total => ret total
      end
  end.

Definition logQuoteDetails (operation : Operation) (quote : Quote) : M unit :=
  let decimals := effectiveDecimals operation in
  let symbol := tokenSymbol operation in
  logWithTime "Quote details:";;
  input <- lift (formatUnits E (deposit_inputAmount (deposit quote)) decimals);;
  logWithTime ("- Input amount: " +:+ input +:+ " " +:+ symbol);;
  output <- lift (formatUnits E (deposit_outputAmount (deposit quote)) decimals);;
  logWithTime ("- Output amount: " +:+ output +:+ " " +:+ symbol);;
  logWithTime ("- Estimated fill time: " +:+ pretty (estimatedFillTimeSec quote)
               +:+ " seconds");;
  relayFee <- feeTotal quote totalRelayFee "totalRelayFee";;
  relay <- lift (formatUnits E relayFee decimals);;
  logWithTime ("- Total relay fee: " +:+ relay +:+ " " +:+ symbol);;
  lp <- feeTotal quote lpFee "lpFee";;
  lpText <- lift (formatUnits E lp decimals);;
  logWithTime ("- LP fee: " +:+ lpText +:+ " " +:+ symbol);;
  let totalFee := relayFee + lp in
  let feePercentage :=
    num_mul (num_div (Number totalFee) (Number (deposit_inputAmount (deposit quote))))
            (Number 100) in
  logWithTime ("- Total fee percentage: " +:+ toFixed E feePercentage 4 +:+ "%").

Definition getQuote (operation : Operation) : M Quote :=
  try_catch
    (let useNative := match useNativeToken operation with Some b => b | None => false end in
     let decimals := effectiveDecimals operation in
     parsedAmount <- lift (parseUnits E (inputAmount operation) decimals);;
     route <- lift (createRouteObject (tokenSymbol operation) (originChainId operation)
                      (destinationChainId operation) useNative);;
     when (verboseLogging (OPTIONS cfg))
       (logWithTime ("Getting quote for " +:+ describeBridgeOperation operation));;
     quote <- client_getQuote route parsedAmount;;
     when (showQuoteDetails (OPTIONS cfg)) (logQuoteDetails operation quote);;
     ret quote)
    (fun error =>
       logWithTime ("Error getting quote: " +:+ message error);;
       throw error).

(** *** Threshold evaluator *)

Definition quoteExceedsThresholds (quote : Quote) (operation : Operation) : M bool :=
  let decimals := effectiveDecimals operation in
  parsedInputAmount <- lift (parseUnits E (inputAmount operation) decimals);;
  let outputPercentage :=
    num_div (Number (deposit_outputAmount (deposit quote))) (Number parsedInputAmount) in
  let meetsOutputThreshold :=
    num_ge outputPercentage (minOutputPercentage (THRESHOLDS cfg)) in
  let meetsFillTimeThreshold :=
    estimatedFillTimeSec quote <=? maxFillTimeSeconds (THRESHOLDS cfg) in
  logWithTime "Threshold check:";;
  logWithTime ("- Output percentage: "
               +:+ toFixed E (num_mul outputPercentage (Number 100)) 4
               +:+ "% (minimum: "
               +:+ numberToString E (num_mul (minOutputPercentage (THRESHOLDS cfg)) (Number 100))
               +:+ "%)");;
  logWithTime ("- Fill time: " +:+ pretty (estimatedFillTimeSec quote)
               +:+ "s (maximum: " +:+ pretty (maxFillTimeSeconds (THRESHOLDS cfg)) +:+ "s)");;
  logWithTime ("- Meets all thresholds: "
               +:+ (if meetsOutputThreshold && meetsFillTimeThreshold
                    then "true" else "false"));;
  ret (meetsOutputThreshold && meetsFillTimeThreshold).

(** *** Execution driver *)

Definition with_deposit (id : Z) (txHash : string) (r : Result) : Result :=
  {| success := success r; depositId := Some id; originTxHash := Some txHash;
     destinationTxHash := destinationTxHash r; error := error r |}.

Definition with_success (r : Result) : Result :=
  {| success := true; depositId := depositId r; originTxHash := originTxHash r;
     destinationTxHash := destinationTxHash r; error := error r |}.

Definition with_destination (txHash : string) (r : Result) : Result :=
  {| success := success r; depositId := depositId r; originTxHash := originTxHash r;
     destinationTxHash := Some txHash; error := error r |}.

(** The fill timestamp, when it is truthy, rendered as a date. *)
Definition fillTimestampText (ts : option FillTimestamp) : option string :=
  match ts with
  | Some (TsBigInt seconds) =>
      if truthy_int seconds then Some (dateToLocaleString E (seconds * 1000)) else None
  | Some (TsNumber millis) =>
      if truthy_int millis then Some (dateToLocaleString E millis) else None
  | None => None
  end.

(** The [onProgress] callback: it logs, and it updates [result] in place. *)
Definition onProgress (operation : Operation) (result : Result) (progress : Progress)
  : M Result :=
  match progress with
  | ApprovePending => logWithTime "Approving token transfer...";; ret result
  | ApproveSuccess txHash =>
      logWithTime ("Token approval successful: " +:+ txHash);; ret result
  | DepositPending => logWithTime "Sending funds to Across...";; ret result
  | DepositSuccess id txHash =>
      logWithTime "Deposit successful:";;
      logWithTime ("- Transaction hash: " +:+ txHash);;
      logWithTime ("- Deposit ID: " +:+ pretty id);;
      logWithTime ("- Waiting for funds to be bridged to "
                   +:+ getChainName (destinationChainId operation) +:+ "...");;
      ret (with_deposit id txHash result)
  | FillPending =>
      logWithTime "Relayer processing your transfer on destination chain...";;
      ret result
  | FillSuccess txReceipt fillTxTimestamp =>
      logWithTime ("Bridge complete! Funds received on "
                   +:+ getChainName (destinationChainId operation));;
      match txReceipt with
      | Some txHash => logWithTime ("- Fill transaction hash: " +:+ txHash)
      | None => ret tt
      end;;
      match fillTimestampText fillTxTimestamp with
      | Some text => logWithTime ("- Fill timestamp: " +:+ text)
      | None => ret tt
      end;;
      ret match txReceipt with
          | Some txHash => with_destination txHash (with_success result)
          | None => with_success result
          end
  | OtherProgress => ret result
  end.

Fixpoint deliver (operation : Operation) (events : list Progress) (result : Result)
  : M Result :=
  match events with
  | [] => ret result
  | progress :: rest =>
      result' <- onProgress operation result progress;;
      deliver operation rest result'
  end.

(** [await client.executeQuote({walletClient, deposit, onProgress})]: the
    SDK reports its progress, then returns or throws. *)
Definition client_executeQuote (operation : Operation) (dep : Deposit) (result : Result)
  : M Result :=
  fun w =>
    let '(events, outcome) := sdk_executeQuote E (executions w) dep in
    match deliver operation events result (count_execution w) with
    | (Normal result', w') =>
        match outcome with
        | None => (Normal result', w')
        | Some e => (Throw e, w')
        end
    | (Throw e, w') => (Throw e, w')
    end.

(** [createWalletClient] reads [CHAINS[operation.originChainId].name]. *)
Definition createWalletClient (operation : Operation) : M unit :=
  match CHAINS cfg !! pretty (originChainId operation) with
  | Some _ => ret tt
  | None => throw (mkError "Cannot read properties of undefined (reading 'name')")
  end.

Definition initialResult : Result :=
  {| success := false; depositId := None; originTxHash := None;
     destinationTxHash := None; error := None |}.

(** [{ success: false, error: msg }] *)
Definition failure (msg : string) : Result :=
  {| success := false; depositId := None; originTxHash := None;
     destinationTxHash := None; error := Some msg |}.

Definition executeQuote (quote : Quote) (operation : Operation) : M Result :=
  try_catch
    (logWithTime ("Executing bridge transaction for " +:+ name operation +:+ "...");;
     createWalletClient operation;;
     client_executeQuote operation (deposit quote) initialResult)
    (fun error =>
       logWithTime ("Error executing quote: " +:+ message error);;
       ret (failure (message error))).

(** *** Status poller *)

Definition statusUrl (originChainId : N) (id : Z) : string :=
  "https://app.across.to/api/deposit/status?originChainId=" +:+ pretty originChainId
  +:+ "&depositId=" +:+ pretty id.

Definition waitText : string :=
  "Deposit still in progress. Waiting "
  +:+ numberToString E (num_div (Number (statusPollingInterval (MONITORING cfg)))
                                (Number 1000))
  +:+ " seconds for next check...".

(** One turn of the loop body: [Some b] when it executes [return b]. *)
Definition pollOnce (attempts : nat) (originChainId : N) (id : Z) : M (option bool) :=
  try_catch
    (response <- axiosGet (statusUrl originChainId id);;
     status <- match response with
               | RequestError e => throw e
               | Malformed e => throw e
               | Status s => ret s
               end;;
     let statusLower := toLowerCase status in
     logWithTime ("Deposit status (attempt " +:+ pretty attempts +:+ "): " +:+ statusLower);;
     if String.eqb statusLower "filled" || String.eqb statusLower "success" then
       logWithTime "Deposit successfully completed!";; ret (Some true)
     else if String.eqb statusLower "failed" then
       logWithTime "Deposit failed!";; ret (Some false)
     else if String.eqb statusLower "fill" || String.eqb statusLower "filled" then
       logWithTime ("Deposit successful! (Status: " +:+ status +:+ ")");; ret (Some true)
     else
       logWithTime waitText;;
       sleep (statusPollingInterval (MONITORING cfg));;
       ret None)
    (fun error =>
       logWithTime ("Error polling deposit status: " +:+ message error);;
       sleep (statusPollingInterval (MONITORING cfg));;
       ret None).

(** The [while] loop, with [remaining = maxPollingAttempts - attempts]. *)
Fixpoint pollLoop (remaining attempts : nat) (originChainId : N) (id : Z) : M bool :=
  match remaining with
  | O =>
      logWithTime
        "Exceeded maximum polling attempts. Please check the deposit status manually.";;
      ret false
  | S remaining' =>
      outcome <- pollOnce (S attempts) originChainId id;;
      match outcome with
      | Some b => ret b
      | None => pollLoop remaining' (S attempts) originChainId id
      end
  end.

Definition pollDepositStatus (originChainId : N) (id : Z) : M bool :=
  logWithTime ("Polling status for deposit ID: " +:+ pretty id);;
  pollLoop (maxPollingAttempts (MONITORING cfg)) 0 originChainId id.

(** *** Orchestrator *)

Definition rule : string := "----------------------------------------------------".

Definition newline : string := String (ascii_of_nat 10) EmptyString.

(** The [if (result.depositId && !result.success)] block. *)
Definition pollIfNeeded (operation : Operation) (result : Result) : M Result :=
  match depositId result with
  | Some id =>
      if truthy_int id && negb (success result) then
        statusResult <- pollDepositStatus (originChainId operation) id;;
        ret (if statusResult then with_success result else result)
      else ret result
  | None => ret result
  end.

(** The [try] block of [executeBridgeOperation]. *)
Definition executeBridgeOperation_try (operation : Operation) : M bool :=
  logWithTime (newline +:+ rule);;
  logWithTime ("STARTING BRIDGE OPERATION: " +:+ name operation);;
  logWithTime (describeBridgeOperation operation);;
  logWithTime rule;;
  quote <- getQuote operation;;
  accepted <- quoteExceedsThresholds quote operation;;
  if negb accepted then
    logWithTime "Quote does not meet thresholds. Operation cancelled.";;
    when (onThresholdFailure (notifications (MONITORING cfg)))
      (logWithTime ("Notification: Thresholds not met for operation "
                    +:+ name operation));;
    saveTransactionToHistory operation (failure "Quote did not meet thresholds")
      (Some quote);;
    ret false
  else if negb (autoExecute (OPTIONS cfg)) then
    logWithTime (newline +:+ "Quote meets thresholds and is ready to execute.");;
    logWithTime
      "Since auto-execute is disabled, please modify the config.js file to enable it.";;
    logWithTime "Set OPTIONS.autoExecute = true to automatically execute transactions.";;
    saveTransactionToHistory operation (failure "Auto-execute disabled") (Some quote);;
    ret false
  else
    when (onExecutionStart (notifications (MONITORING cfg)))
      (logWithTime ("Notification: Starting execution of operation "
                    +:+ name operation));;
    executed <- executeQuote quote operation;;
    result <- pollIfNeeded operation executed;;
    saveTransactionToHistory operation result (Some quote);;
    when (onExecutionComplete (notifications (MONITORING cfg)))
      (logWithTime ("Notification: Operation " +:+ name operation
                    +:+ " completed with status: "
                    +:+ (if success result then "Success" else "Failed")));;
    ret (success result).

(** Its [catch] block. *)
Definition executeBridgeOperation_catch (operation : Operation) (error : Error) : M bool :=
  logWithTime ("Error executing bridge operation: " +:+ message error);;
  when (onError (notifications (MONITORING cfg)))
    (logWithTime ("Notification: Error in operation " +:+ name operation
                  +:+ ": " +:+ message error));;
  saveTransactionToHistory operation (failure (message error)) None;;
  ret false.

Definition executeBridgeOperation (operation : Operation) : M bool :=
  try_catch (executeBridgeOperation_try operation) (executeBridgeOperation_catch operation).

(** [enabledOperations.forEach((op, index) => logWithTime(...))] *)
Fixpoint listOperations (index : nat) (operations : list Operation) : M unit :=
  match operations with
  | [] => ret tt
  | op :: rest =>
      logWithTime (pretty (index + 1)%nat +:+ ". " +:+ name op +:+ ": "
                   +:+ describeBridgeOperation op);;
      listOperations (S index) rest
  end.

(** [for (const operation of enabledOperations) await executeBridgeOperation(operation)] *)
Fixpoint runOperations (operations : list Operation) : M unit :=
  match operations with
  | [] => ret tt
  | operation :: rest =>
      executeBridgeOperation operation;;
      runOperations rest
  end.

(** How [main] leaves: it returns, or its handler calls [process.exit]. *)
Inductive Exit : Type :=
| Returned
| ProcessExit (code : Z).

Definition enabledOperations : list Operation :=
  List.filter enabled (BRIDGE_OPERATIONS cfg).

Definition mainBody : M unit :=
  logWithTime "Starting Across Bridge Automation";;
  logWithTime ("Using account: " +:+ accountAddress E);;
  if Nat.eqb (length enabledOperations) 0 then
    logWithTime
      "No enabled bridge operations found in config.js. Please enable at least one operation."
  else
    logWithTime ("Found " +:+ pretty (length enabledOperations) +:+ " enabled operations:");;
    listOperations 0 enabledOperations;;
    runOperations enabledOperations;;
    logWithTime "All operations completed. Exiting.".

Definition main (w : World) : Exit * World :=
  match mainBody w with
  | (Normal _, w') => (Returned, w')
  | (Throw error, w') =>
      let w1 := snd (logWithTime ("Fatal error: " +:+ message error) w') in
      let w2 := if truthy_string (errorStack E error)
                then snd (console_error (errorStack E error) w1) else w1 in
      (ProcessExit 1, w2)
  end.

End Program.

(** ** Object literals, their own keys, and [parseInt] *)

(** An object literal: its property definitions, in source order.  A key
    defined twice keeps its first place and its last value.  (A literal
    that defines [__proto__] sets the prototype of the object instead of a
    property; the configuration has no such key, and none is modelled.) *)
Definition Literal (V : Type) : Type := list (string * V).

(** [obj[key]] *)
Fixpoint get {V : Type} (obj : Literal V) (key : string) : option V :=
  match obj with
  | [] => None
  | (k, v) :: rest =>
      match get rest key with
      | Some v' => Some v'
      | None => if String.eqb k key then Some v else None
      end
  end.

(** The object as the map that the lookups of [Section Program] read. *)
Definition object {V : Type} (obj : Literal V) : gmap string V :=
  list_to_map (reverse obj).

(** The value of a string of decimal digits. *)
Fixpoint decimalValue (s : string) (acc : N) : option N :=
  match s with
  | EmptyString => Some acc
  | String c rest =>
      let n := N_of_ascii c in
      if ((48 <=? n) && (n <=? 57))%N then decimalValue rest (acc * 10 + (n - 48))%N
      else None
  end.

(** An array index: the canonical decimal form of an integer below 2^32 - 1. *)
Definition arrayIndex (key : string) : option N :=
  match decimalValue key 0 with
  | Some n => if (String.eqb (pretty n) key && (n <? 4294967295)%N)%bool then Some n else None
  | None => None
  end.

(** The keys of a list, each at its first place. *)
Definition firstOccurrences (keys : list string) : list string :=
  reverse (remove_dups (reverse keys)).

(** [Object.keys(obj)]: the array indices in ascending order, then the
    other keys in the order of their definition. *)
Definition ownKeys {V : Type} (obj : Literal V) : list string :=
  let keys := firstOccurrences (fst <$> obj) in
  (pretty <$> merge_sort N.le (omap arrayIndex keys))
  ++ filter (fun key => arrayIndex key = None) keys.

(** [Object.entries(obj)] *)
Definition entries {V : Type} (obj : Literal V) : list (string * V) :=
  omap (fun key => pair key <$> get obj key) (ownKeys obj).

(** The white space that [parseInt] skips: TAB, LF, VT, FF, CR, SP, and in
    UTF-8 the no-break space, the byte order mark, the line and paragraph
    separators and the space separators. *)
Definition isAsciiSpace (c : ascii) : bool :=
  let n := nat_of_ascii c in
  (Nat.leb 9 n && Nat.leb n 13) || Nat.eqb n 32.

Definition isSpace2 (c1 c2 : ascii) : bool :=
  Nat.eqb (nat_of_ascii c1) 194 && Nat.eqb (nat_of_ascii c2) 160.

Definition isSpace3 (c1 c2 c3 : ascii) : bool :=
  let '(a, b, c) := (nat_of_ascii c1, nat_of_ascii c2, nat_of_ascii c3) in
  (Nat.eqb a 225 && Nat.eqb b 154 && Nat.eqb c 128)
  || (Nat.eqb a 226 && Nat.eqb b 128
      && ((Nat.leb 128 c && Nat.leb c 138) || Nat.eqb c 168 || Nat.eqb c 169
          || Nat.eqb c 175))
  || (Nat.eqb a 226 && Nat.eqb b 129 && Nat.eqb c 159)
  || (Nat.eqb a 227 && Nat.eqb b 128 && Nat.eqb c 128)
  || (Nat.eqb a 239 && Nat.eqb b 187 && Nat.eqb c 191).

Fixpoint trimStart (s : string) : string :=
  match s with
  | EmptyString => s
  | String c1 r1 =>
      if isAsciiSpace c1 then trimStart r1
      else
        match r1 with
        | EmptyString => s
        | String c2 r2 =>
            if isSpace2 c1 c2 then trimStart r2
            else
              match r2 with
              | EmptyString => s
              | String c3 r3 => if isSpace3 c1 c2 c3 then trimStart r3 else s
              end
        end
  end.

(** The value of a digit in the given radix. *)
Definition digitOf (radix : N) (c : ascii) : option N :=
  let n := N_of_ascii c in
  let value :=
    if ((48 <=? n) && (n <=? 57))%N then Some (n - 48)%N
    else if ((97 <=? n) && (n <=? 122))%N then Some (n - 87)%N
    else if ((65 <=? n) && (n <=? 90))%N then Some (n - 55)%N
    else None in
  match value with
  | Some d => if (d <? radix)%N then Some d else None
  | None => None
  end.

(** The integer that the longest prefix of digits denotes; [acc] is [None]
    until a digit has been read. *)
Fixpoint scanDigits (radix : N) (s : string) (acc : option N) : option N :=
  match s with
  | EmptyString => acc
  | String c rest =>
      match digitOf radix c with
      | Some d =>
          scanDigits radix rest
            (Some match acc with Some a => (a * radix + d)%N | None => d end)
      | None => acc
      end
  end.

(** [parseInt(string)], no radix given: white space, a sign, [0x] or [0X]
    for radix 16, then the longest prefix of digits; [NaN] when there is
    no digit.  (For more than 20 significant decimal digits a runtime may
    round the digits beyond the 20th to 0; this is the exact value.) *)
Definition parseInt (s : string) : spec_float :=
  let s1 := trimStart s in
  let '(negative, s2) :=
    match s1 with
    | String "-" rest => (true, rest)
    | String "+" rest => (false, rest)
    | _ => (false, s1)
    end in
  let '(radix, s3) :=
    match s2 with
    | String "0" (String "x" rest) | String "0" (String "X" rest) => (16%N, rest)
    | _ => (10%N, s2)
    end in
  match scanDigits radix s3 None with
  | None => S754_nan
  | Some 0%N => S754_zero negative
  | Some n => Number (if negative then - Z.of_N n else Z.of_N n)
  end.

(** [x !== y] on Numbers *)
Definition num_neq (x y : spec_float) : bool := negb (SFeqb x y).

(** [key.includes(c)] for a one-character [c] *)
Fixpoint includes (c : ascii) (key : string) : bool :=
  match key with
  | EmptyString => false
  | String c' rest => Ascii.eqb c' c || includes c rest
  end.

(** ** The rest of [tools/helper.js] *)

(** The registry as [tools/config.js] writes it. *)
Record Registry : Type := {
  TOKENS_literal : Literal (Literal string);
  CHAINS_literal : Literal Chain
}.

(** A configuration whose [TOKENS] and [CHAINS] are those of the registry. *)
Definition with_registry (reg : Registry) (cfg : Config) : Config :=
  {| BRIDGE_OPERATIONS := BRIDGE_OPERATIONS cfg; THRESHOLDS := THRESHOLDS cfg;
     MONITORING := MONITORING cfg;
     TOKENS := object (map (fun '(sym, chainMap) => (sym, object chainMap))
                          (TOKENS_literal reg));
     CHAINS := object (CHAINS_literal reg);
     TOKEN_DECIMALS := TOKEN_DECIMALS cfg; OPTIONS := OPTIONS cfg |}.

Module Available.
(** A route that [findAvailableRoutes] lists. *)
Record Route : Type := {
  originChainId : spec_float;
  destinationChainId : spec_float;
  tokenSymbol : string
}.
End Available.

Section Helper.
Context (reg : Registry).

Definition getSupportedChains : list spec_float :=
  parseInt <$> ownKeys (CHAINS_literal reg).

(** [chainMap[chainId]], read for its truthiness *)
Definition listed (chainMap : Literal string) (chainId : N) : bool :=
  match get chainMap (pretty chainId) with
  | Some addr => truthy_string addr
  | None => false
  end.

Definition getSupportedTokensForChain (chainId : N) : list string :=
  fst <$> filter (fun entry => listed (snd entry) chainId = true)
            (entries (TOKENS_literal reg)).

Definition isBridgeSupportedForToken (originChainId destinationChainId : N)
  (tokenSymbol : string) : bool :=
  match get (TOKENS_literal reg) tokenSymbol with
  | None => false
  | Some chainMap =>
      if negb (listed chainMap originChainId) || negb (listed chainMap destinationChainId)
      then false else true
  end.

Definition findAvailableRoutes (tokenSymbol : string) : list Available.Route :=
  match get (TOKENS_literal reg) tokenSymbol with
  | None => []
  | Some chainMap =>
      let supportedChains :=
        parseInt <$> filter (fun key => includes "-" key = false) (ownKeys chainMap) in
      flat_map
        (fun originChain =>
           flat_map
             (fun destinationChain =>
                if num_neq originChain destinationChain then
                  [ {| Available.originChainId := originChain;
                       Available.destinationChainId := destinationChain;
                       Available.tokenSymbol := tokenSymbol |} ]
                else [])
             supportedChains)
        supportedChains
  end.

End Helper.

(** ** The shipped configuration ([tools/config.js]) *)

Local Open Scope string_scope.

Definition shipped_operations : list Operation :=
  [ {| name := "ETH Arbitrum to Optimism"; enabled := true; tokenSymbol := "ETH";
       originChainId := 10; destinationChainId := 42161; inputAmount := "0.001";
       decimals := Some 18%nat; useNativeToken := Some true |};
    {| name := "USDC Ethereum to Polygon"; enabled := false; tokenSymbol := "USDC";
       originChainId := 1; destinationChainId := 137; inputAmount := "10";
       decimals := Some 6%nat; useNativeToken := None |};
    {| name := "ETH Base to Ethereum"; enabled := false; tokenSymbol := "ETH";
       originChainId := 8453; destinationChainId := 1; inputAmount := "0.005";
       decimals := Some 18%nat; useNativeToken := Some true |} ].

(** The Number that the literal [0.995] denotes: the binary64 nearest to it. *)
Definition num_0_995 : spec_float := S754_finite false 8962163258467287 (-53).

Definition shipped_thresholds : Thresholds :=
  {| minOutputPercentage := num_0_995; maxFillTimeSeconds := 60 |}.

Definition shipped_monitoring : Monitoring :=
  {| statusPollingInterval := 10000;
     maxPollingAttempts := 30;
     notifications := {| onThresholdFailure := true; onExecutionStart := true;
                         onExecutionComplete := true; onError := true |} |}.

Definition shipped_eth : gmap string string :=
  list_to_map
    [ ("1", "0xC02aaA39b223FE8D0A0e5C4F27eAD9083C756Cc2");
      ("10", "0x4200000000000000000000000000000000000006");
      ("42161", "0x82aF49447D8a07e3bd95BD0d56f35241523fBab1");
      ("8453", "0x4200000000000000000000000000000000000006");
      ("137", "0x7ceB23fD6bC0adD59E62ac25578270cFf1b9f619");
      ("324", "0x5AEa5775959fBC2557Cc8789bC1bf90A239D9a91");
      ("59144", "0xe5D7C2a44FfDDf6b295A15c148167daaAf5Cf34f");
      ("81457", "0x4300000000000000000000000000000000000004");
      ("534352", "0x5300000000000000000000000000000000000004");
      ("34443", "0x4200000000000000000000000000000000000006");
      ("7777777", "0x4200000000000000000000000000000000000006") ].

Definition shipped_usdc : gmap string string :=
  list_to_map
    [ ("1", "0xA0b86991c6218b36c1d19D4a2e9Eb0cE3606eB48");
      ("10", "0x0b2C639c533813f4Aa9D7837CAf62653d097Ff85");
      ("10-bridged", "0x7F5c764cBc14f9669B88837ca1490cCa17c31607");
      ("42161", "0xaf88d065e77c8cC2239327C5EDb3A432268e5831");
      ("42161-bridged", "0xFF970A61A04b1cA14834A43f5dE4533eBDDB5CC8");
      ("8453", "0x833589fCD6eDb6E08f4c7C32D4f71b54bdA02913");
      ("8453-bridged", "0xd9aAEc86B65D86f6A7B5B1b0c42FFA531710b6CA");
      ("137", "0x3c499c542cEF5E3811e1192ce70d8cC03d5c3359");
      ("137-bridged", "0x2791Bca1f2de4661ED88A30C99A7a9449Aa84174");
      ("324", "0x3355df6D4c9C3035724Fd0e3914dE96A5a83aaf4");
      ("34443", "0xd988097fb8612cc24eeC14542bC03424c656005f");
      ("534352", "0x06eFdBFf2a14a7c8E15944D1F4A48F9F95F663A4") ].

Definition shipped_usdt : gmap string string :=
  list_to_map
    [ ("1", "0xdAC17F958D2ee523a2206206994597C13D831ec7");
      ("10", "0x94b008aA00579c1307B0EF2c499aD98a8ce58e58");
      ("137", "0xc2132D05D31c914a87C6611C10748AEb04B58e8F");
      ("42161", "0xFd086bC7CD5C481DCC9C85ebE478A1C0b69FCbb9") ].

Definition shipped_wbtc : gmap string string :=
  list_to_map
    [ ("1", "0x2260FAC5E5542a773Aa44fBCfeDf7C193bc2C599");
      ("10", "0x68f180fcCe6836688e9084f035309E29Bf0A2095");
      ("42161", "0x2f2a2543B76A4166549F7aaB2e75Bef0aefC5B0f");
      ("137", "0x1BFD67037B42Cf73acF2047067bd4F2C47D9BfD6") ].

Definition shipped_tokens : gmap string (gmap string string) :=
  list_to_map [ ("ETH", shipped_eth); ("USDC", shipped_usdc);
                ("USDT", shipped_usdt); ("WBTC", shipped_wbtc) ].

Definition shipped_chains : gmap string Chain :=
  list_to_map
    [ ("1", {| chainName := "Ethereum"; rpcUrl := "https://mainnet.gateway.tenderly.co";
               explorerUrl := "https://etherscan.io";
               spokePool := "0x5c7BCd6E7De5423a257D81B442095A1a6ced35C5" |});
      ("10", {| chainName := "Optimism"; rpcUrl := "https://mainnet.optimism.io";
                explorerUrl := "https://optimistic.etherscan.io";
                spokePool := "0x6f26Bf09B1C792e3228e5467807a900A503c0281" |});
      ("42161", {| chainName := "Arbitrum"; rpcUrl := "https://arb1.arbitrum.io/rpc";
                   explorerUrl := "https://arbiscan.io";
                   spokePool := "0xe35e9842fceaCA96570B734083f4a58e8F7C5f2A" |});
      ("137", {| chainName := "Polygon"; rpcUrl := "https://rpc.ankr.com/polygon";
                 explorerUrl := "https://polygonscan.com";
                 spokePool := "0x9295ee1d8C5b022Be115A2AD3c30C72E34e7F096" |});
      ("8453", {| chainName := "Base"; rpcUrl := "https://mainnet.base.org";
                  explorerUrl := "https://basescan.org";
                  spokePool := "0x09aea4b2242abC8bb4BB78D537A67a245A7bEC64" |});
      ("324", {| chainName := "zkSync"; rpcUrl := "https://mainnet.era.zksync.io";
                 explorerUrl := "https://explorer.zksync.io";
                 spokePool := "0xE0B015E54d54fc84a6cB9B666099c46adE9335FF" |});
      ("534352", {| chainName := "Scroll"; rpcUrl := "https://rpc.scroll.io";
                    explorerUrl := "https://scrollscan.com";
                    spokePool := "0x3baD7AD0728f9917d1Bf08af5782dCbD516cDd96" |});
      ("34443", {| chainName := "Mode"; rpcUrl := "https://mainnet.mode.network";
                   explorerUrl := "https://explorer.mode.network";
                   spokePool := "0x3baD7AD0728f9917d1Bf08af5782dCbD516cDd96" |}) ].

Definition shipped_token_decimals : gmap string nat :=
  list_to_map [ ("ETH", 18%nat); ("WETH", 18%nat); ("USDC", 6%nat); ("USDC.e", 6%nat);
                ("USDT", 6%nat); ("WBTC", 8%nat); ("DAI", 18%nat) ].

Definition shipped_options : Options :=
  {| autoExecute := true; saveHistory := true; historyFile := "transaction_history.json";
     verboseLogging := true; showQuoteDetails := true |}.

Definition shipped_config : Config :=
  {| BRIDGE_OPERATIONS := shipped_operations;
     THRESHOLDS := shipped_thresholds;
     MONITORING := shipped_monitoring;
     TOKENS := shipped_tokens;
     CHAINS := shipped_chains;
     TOKEN_DECIMALS := shipped_token_decimals;
     OPTIONS := shipped_options |}.

(** Edited copies of a configuration. *)
Definition with_tokens (tokens : gmap string (gmap string string)) (cfg : Config) : Config :=
  {| BRIDGE_OPERATIONS := BRIDGE_OPERATIONS cfg; THRESHOLDS := THRESHOLDS cfg;
     MONITORING := MONITORING cfg; TOKENS := tokens; CHAINS := CHAINS cfg;
     TOKEN_DECIMALS := TOKEN_DECIMALS cfg; OPTIONS := OPTIONS cfg |}.

Definition with_operations (operations : list Operation) (cfg : Config) : Config :=
  {| BRIDGE_OPERATIONS := operations; THRESHOLDS := THRESHOLDS cfg;
     MONITORING := MONITORING cfg; TOKENS := TOKENS cfg; CHAINS := CHAINS cfg;
     TOKEN_DECIMALS := TOKEN_DECIMALS cfg; OPTIONS := OPTIONS cfg |}.

Definition with_options (options : Options) (cfg : Config) : Config :=
  {| BRIDGE_OPERATIONS := BRIDGE_OPERATIONS cfg; THRESHOLDS := THRESHOLDS cfg;
     MONITORING := MONITORING cfg; TOKENS := TOKENS cfg; CHAINS := CHAINS cfg;
     TOKEN_DECIMALS := TOKEN_DECIMALS cfg; OPTIONS := options |}.

Definition with_minOutputPercentage (m : spec_float) (cfg : Config) : Config :=
  {| BRIDGE_OPERATIONS := BRIDGE_OPERATIONS cfg;
     THRESHOLDS := {| minOutputPercentage := m;
                      maxFillTimeSeconds := maxFillTimeSeconds (THRESHOLDS cfg) |};
     MONITORING := MONITORING cfg; TOKENS := TOKENS cfg; CHAINS := CHAINS cfg;
     TOKEN_DECIMALS := TOKEN_DECIMALS cfg; OPTIONS := OPTIONS cfg |}.

Definition with_maxPollingAttempts (n : nat) (cfg : Config) : Config :=
  {| BRIDGE_OPERATIONS := BRIDGE_OPERATIONS cfg; THRESHOLDS := THRESHOLDS cfg;
     MONITORING := {| statusPollingInterval := statusPollingInterval (MONITORING cfg);
                      maxPollingAttempts := n;
                      notifications := notifications (MONITORING cfg) |};
     TOKENS := TOKENS cfg; CHAINS := CHAINS cfg;
     TOKEN_DECIMALS := TOKEN_DECIMALS cfg; OPTIONS := OPTIONS cfg |}.

(** ** Sample collaborators and worlds, for the worked examples *)

Definition digitValue (c : ascii) : option Z :=
  let n := nat_of_ascii c in
  if (Nat.leb 48 n && Nat.leb n 57)%bool then Some (Z.of_nat n - 48) else None.

Fixpoint digitsValue (s : string) (acc : Z) : option Z :=
  match s with
  | EmptyString => Some acc
  | String c rest =>
      match digitValue c with
      | Some d => digitsValue rest (acc * 10 + d)
      | None => None
      end
  end.

Fixpoint splitAtDot (s : string) : string * string :=
  match s with
  | EmptyString => (EmptyString, EmptyString)
  | String c rest =>
      if Ascii.eqb c "."%char then (EmptyString, rest)
      else let '(whole, fraction) := splitAtDot rest in (String c whole, fraction)
  end.

(** A stand-in for viem's [parseUnits] on unsigned decimals whose fraction
    has at most [decimals] digits (beyond that viem rounds; this one throws). *)
Definition sample_parseUnits (value : string) (decimals : nat) : Completion Z :=
  let '(whole, fraction) := splitAtDot value in
  match digitsValue whole 0, digitsValue fraction 0 with
  | Some i, Some f =>
      if Nat.leb (String.length fraction) decimals then
        Normal (i * 10 ^ Z.of_nat decimals
                + f * 10 ^ Z.of_nat (decimals - String.length fraction))
      else Throw (mkError ("Too many decimals in " +:+ value))
  | _, _ => Throw (mkError ("Number " +:+ value +:+ " is not a valid decimal number."))
  end.

Definition sample_formatUnits (value : Z) (decimals : nat) : Completion string :=
  Normal (pretty value +:+ "e-" +:+ pretty decimals).

(** An environment with the given SDK, endpoint and file-system behaviour;
    its renderers print integers and leave Numbers as a placeholder. *)
Definition sample_env
  (quote : nat -> Route -> Z -> Completion Quote)
  (execute : nat -> Deposit -> list Progress * option Error)
  (get : nat -> string -> Response)
  (write : nat -> string -> option (Error * Aftermath)) : Env :=
  {| parseUnits := sample_parseUnits;
     formatUnits := sample_formatUnits;
     sdk_getQuote := quote;
     sdk_executeQuote := execute;
     axios_get := get;
     fs_writeFileSync := write;
     toLocaleTimeString := fun ms => pretty ms;
     toISOString := fun ms => pretty ms;
     dateToLocaleString := fun ms => pretty ms;
     toFixed := fun _ _ => "<number>";
     numberToString := fun _ => "<number>";
     amountToLocaleString := fun amount _ => amount;
     errorStack := fun e => "Error: " +:+ message e;
     accountAddress := "0x0000000000000000000000000000000000000001" |}.

(** The SDK quotes 99.5% of the input, 45 seconds, with both fees. *)
Definition quote_995 (n : nat) (route : Route) (amount : Z) : Completion Quote :=
  Normal {| deposit := {| deposit_inputAmount := amount;
                          deposit_outputAmount := amount * 995 / 1000 |};
            estimatedFillTimeSec := 45;
            fees := Some {| totalRelayFee := Some (amount * 4 / 1000);
                            lpFee := Some (amount / 1000) |} |}.

Definition quote_unavailable (n : nat) (route : Route) (amount : Z) : Completion Quote :=
  Throw (mkError "Quote service unavailable").

(** The SDK reports a deposit and its fill. *)
Definition execute_filled (n : nat) (dep : Deposit) : list Progress * option Error :=
  ([DepositPending; DepositSuccess 42 "0x5678"; FillPending;
    FillSuccess (Some "0x9abc") None], None).

(** The SDK reports the deposit with the given id, and returns before any fill. *)
Definition execute_deposited (id : Z) (n : nat) (dep : Deposit)
  : list Progress * option Error :=
  ([DepositPending; DepositSuccess id "0x5678"; FillPending], None).

(** The SDK reports a deposit, then throws. *)
Definition execute_reverts (n : nat) (dep : Deposit) : list Progress * option Error :=
  ([DepositPending; DepositSuccess 42 "0x5678"], Some (mkError "execution reverted")).

Definition always_pending (n : nat) (url : string) : Response := Status "pending".

(** The endpoint answers the requests with the statuses of the list, in
    order, and is unreachable afterwards. *)
Definition answers (statuses : list string) (n : nat) (url : string) : Response :=
  match statuses !! n with
  | Some s => Status s
  | None => RequestError (mkError "Network Error")
  end.

Definition write_succeeds (n : nat) (path : string) : option (Error * Aftermath) := None.

(** The file cannot be opened for writing. *)
Definition write_denied (n : nat) (path : string) : option (Error * Aftermath) :=
  Some (mkError ("EACCES: permission denied, open '" +:+ path +:+ "'"), Untouched).

(** The disk is full: the file is opened, and truncated, and nothing is
    written to it. *)
Definition write_disk_full (n : nat) (path : string) : option (Error * Aftermath) :=
  Some (mkError "ENOSPC: no space left on device, write",
        Truncated (mkError "Unexpected end of JSON input")).

Definition blank_world (d : FileState) : World :=
  {| console := []; stderr := []; disk := d; now := 0;
     quotes := 0; executions := 0; requests := 0; writes := 0 |}.

(** The registry of [tools/config.js], as it is written there. *)
Definition shipped_registry : Registry :=
  {| TOKENS_literal :=
       [ ("ETH",
          [ ("1", "0xC02aaA39b223FE8D0A0e5C4F27eAD9083C756Cc2");
            ("10", "0x4200000000000000000000000000000000000006");
            ("42161", "0x82aF49447D8a07e3bd95BD0d56f35241523fBab1");
            ("8453", "0x4200000000000000000000000000000000000006");
            ("137", "0x7ceB23fD6bC0adD59E62ac25578270cFf1b9f619");
            ("324", "0x5AEa5775959fBC2557Cc8789bC1bf90A239D9a91");
            ("59144", "0xe5D7C2a44FfDDf6b295A15c148167daaAf5Cf34f");
            ("81457", "0x4300000000000000000000000000000000000004");
            ("534352", "0x5300000000000000000000000000000000000004");
            ("34443", "0x4200000000000000000000000000000000000006");
            ("7777777", "0x4200000000000000000000000000000000000006") ]);
         ("USDC",
          [ ("1", "0xA0b86991c6218b36c1d19D4a2e9Eb0cE3606eB48");
            ("10", "0x0b2C639c533813f4Aa9D7837CAf62653d097Ff85");
            ("10-bridged", "0x7F5c764cBc14f9669B88837ca1490cCa17c31607");
            ("42161", "0xaf88d065e77c8cC2239327C5EDb3A432268e5831");
            ("42161-bridged", "0xFF970A61A04b1cA14834A43f5dE4533eBDDB5CC8");
            ("8453", "0x833589fCD6eDb6E08f4c7C32D4f71b54bdA02913");
            ("8453-bridged", "0xd9aAEc86B65D86f6A7B5B1b0c42FFA531710b6CA");
            ("137", "0x3c499c542cEF5E3811e1192ce70d8cC03d5c3359");
            ("137-bridged", "0x2791Bca1f2de4661ED88A30C99A7a9449Aa84174");
            ("324", "0x3355df6D4c9C3035724Fd0e3914dE96A5a83aaf4");
            ("34443", "0xd988097fb8612cc24eeC14542bC03424c656005f");
            ("534352", "0x06eFdBFf2a14a7c8E15944D1F4A48F9F95F663A4") ]);
         ("USDT",
          [ ("1", "0xdAC17F958D2ee523a2206206994597C13D831ec7");
            ("10", "0x94b008aA00579c1307B0EF2c499aD98a8ce58e58");
            ("137", "0xc2132D05D31c914a87C6611C10748AEb04B58e8F");
            ("42161", "0xFd086bC7CD5C481DCC9C85ebE478A1C0b69FCbb9") ]);
         ("WBTC",
          [ ("1", "0x2260FAC5E5542a773Aa44fBCfeDf7C193bc2C599");
            ("10", "0x68f180fcCe6836688e9084f035309E29Bf0A2095");
            ("42161", "0x2f2a2543B76A4166549F7aaB2e75Bef0aefC5B0f");
            ("137", "0x1BFD67037B42Cf73acF2047067bd4F2C47D9BfD6") ]) ];
     CHAINS_literal :=
       [ ("1", {| chainName := "Ethereum"; rpcUrl := "https://mainnet.gateway.tenderly.co";
                  explorerUrl := "https://etherscan.io";
                  spokePool := "0x5c7BCd6E7De5423a257D81B442095A1a6ced35C5" |});
         ("10", {| chainName := "Optimism"; rpcUrl := "https://mainnet.optimism.io";
                   explorerUrl := "https://optimistic.etherscan.io";
                   spokePool := "0x6f26Bf09B1C792e3228e5467807a900A503c0281" |});
         ("42161", {| chainName := "Arbitrum"; rpcUrl := "https://arb1.arbitrum.io/rpc";
                      explorerUrl := "https://arbiscan.io";
                      spokePool := "0xe35e9842fceaCA96570B734083f4a58e8F7C5f2A" |});
         ("137", {| chainName := "Polygon"; rpcUrl := "https://rpc.ankr.com/polygon";
                    explorerUrl := "https://polygonscan.com";
                    spokePool := "0x9295ee1d8C5b022Be115A2AD3c30C72E34e7F096" |});
         ("8453", {| chainName := "Base"; rpcUrl := "https://mainnet.base.org";
                     explorerUrl := "https://basescan.org";
                     spokePool := "0x09aea4b2242abC8bb4BB78D537A67a245A7bEC64" |});
         ("324", {| chainName := "zkSync"; rpcUrl := "https://mainnet.era.zksync.io";
                    explorerUrl := "https://explorer.zksync.io";
                    spokePool := "0xE0B015E54d54fc84a6cB9B666099c46adE9335FF" |});
         ("534352", {| chainName := "Scroll"; rpcUrl := "https://rpc.scroll.io";
                       explorerUrl := "https://scrollscan.com";
                       spokePool := "0x3baD7AD0728f9917d1Bf08af5782dCbD516cDd96" |});
         ("34443", {| chainName := "Mode"; rpcUrl := "https://mainnet.mode.network";
                      explorerUrl := "https://explorer.mode.network";
                      spokePool := "0x3baD7AD0728f9917d1Bf08af5782dCbD516cDd96" |}) ] |}.

(** * Specification vocabulary *)

Local Open Scope Z_scope.

(** ** Invariants of scripts *)

(** The world update [f] keeps [I]. *)
Definition stable (I : World -> Prop) (f : World -> World) : Prop :=
  forall w, I w -> I (f w).

(** [m] keeps the invariant [I], however it completes. *)
Definition preserves {A : Type} (I : World -> Prop) (m : M A) : Prop :=
  forall w, I w -> I (snd (m w)).

(** [m], started where [I] holds, completes normally. *)
Definition returns {A : Type} (I : World -> Prop) (m : M A) : Prop :=
  forall w, I w -> exists a, fst (m w) = Normal a.

(** From [P], [m] ends in [Q a] when it returns [a] and in [X] when it throws. *)
Definition triple {A : Type} (P : World -> Prop) (m : M A) (Q : A -> World -> Prop)
  (X : World -> Prop) : Prop :=
  forall w, P w ->
    match m w with
    | (Normal a, w') => Q a w'
    | (Throw _, w') => X w'
    end.

(** ** Vocabulary of the specification *)

(** The resolution rule as the specification words it: the bridged entry
    whenever it is requested and present, else the plain entry, and a
    failure exactly when neither entry exists. *)
Definition resolveTokenAddress_as_specified
  (cfg : Config) (sym : string) (chain : N) (flag : bool) : Prop :=
  let bridged := tokenEntry cfg sym (bridgedKey chain) in
  let plain := tokenEntry cfg sym (pretty chain) in
  let r := getTokenAddress cfg sym chain flag in
  (forall a, flag = true -> bridged = Some a -> r = Normal a)
  /\ (forall a, flag = false \/ bridged = None -> plain = Some a -> r = Normal a)
  /\ ((exists e, r = Throw e) <-> bridged = None /\ plain = None).

(** The verdict on a quote whose request amount parsed to [parsed]. *)
Definition verdict (cfg : Config) (quote : Quote) (parsed : Z) : bool :=
  num_ge (num_div (Number (deposit_outputAmount (deposit quote))) (Number parsed))
         (minOutputPercentage (THRESHOLDS cfg))
  && (estimatedFillTimeSec quote <=? maxFillTimeSeconds (THRESHOLDS cfg)).

(** What a response settles: [Some true] for a status that lower-cases to
    filled, success or fill, [Some false] for failed, and nothing for any
    other status, a request error or a malformed body. *)
Definition settles (r : Response) : option bool :=
  match r with
  | Status s =>
      let l := toLowerCase s in
      if String.eqb l "filled" || String.eqb l "success" || String.eqb l "fill"
      then Some true
      else if String.eqb l "failed" then Some false else None
  | RequestError _ | Malformed _ => None
  end.

(** [msg] was logged, under some time stamp. *)
Definition logged (msg : string) (w : World) : Prop :=
  exists stamp, In ("[" +:+ stamp +:+ "] " +:+ msg) (console w).

(** The record that the recorder appends. *)
Definition historyRecord (timestamp : string) (operation : Operation) (result : Result)
  (extra : list (string * json)) : json :=
  JObj [("timestamp", JStr timestamp);
        ("operation", safeOperation operation);
        ("result", JObj (safeResult result ++ extra))].

(** The history file does not hold a JSON value other than an array. *)
Definition appendable (d : FileState) : Prop :=
  match d with
  | Holds (JArr _) | Missing | Unreadable _ | Unparsable _ => True
  | Holds _ => False
  end.

(** The world seen from [w0]: same file, same count of writes, same clock,
    and a console that has kept every line. *)
Definition onward (w0 w : World) : Prop :=
  disk w = disk w0 /\ writes w = writes w0 /\ now w = now w0
  /\ incl (console w0) (console w).

(** The recorder cannot raise: history saving is off, or the history file
    does not hold a JSON value other than an array. *)
Definition recorder_safe (cfg : Config) (w : World) : Prop :=
  saveHistory (OPTIONS cfg) = false \/ appendable (disk w).

(** The operations run one after the other, each from the world the
    previous one left, whatever it returned. *)
Definition run_all (cfg : Config) (E : Env) (operations : list Operation) (w : World)
  : World :=
  fold_left (fun w' operation => snd (executeBridgeOperation cfg E operation w'))
            operations w.

(** What [main] logs before it runs the operations. *)
Definition announced (cfg : Config) (E : Env) (w : World) : World :=
  snd ((logWithTime E "Starting Across Bridge Automation";;
        logWithTime E ("Using account: " +:+ accountAddress E);;
        logWithTime E ("Found " +:+ pretty (length (enabledOperations cfg))
                       +:+ " enabled operations:");;
        listOperations cfg E 0 (enabledOperations cfg))%js w).

(** The world once an operation has logged its heading. *)
Definition started (cfg : Config) (E : Env) (operation : Operation) (w : World) : World :=
  snd ((logWithTime E (newline +:+ rule);;
        logWithTime E ("STARTING BRIDGE OPERATION: " +:+ name operation);;
        logWithTime E (describeBridgeOperation cfg E operation);;
        logWithTime E rule)%js w).

(** The world once the handler has logged the error it caught. *)
Definition reported (cfg : Config) (E : Env) (operation : Operation) (e : Error)
  (w : World) : World :=
  snd ((logWithTime E ("Error executing bridge operation: " +:+ message e);;
        when (onError (notifications (MONITORING cfg)))
          (logWithTime E ("Notification: Error in operation " +:+ name operation
                          +:+ ": " +:+ message e)))%js w).

(** ** More example data *)

(** A registry in which a token other than USDC lists a bridged variant. *)
Definition registry_with_bridged_usdt : gmap string (gmap string string) :=
  list_to_map
    [ ("USDT", list_to_map
         [ ("10", "0x94b008aA00579c1307B0EF2c499aD98a8ce58e58");
           ("10-bridged", "0x00000000000000000000000000000000000b71d9") ]) ].

(** The quote of the worked example: 0.0995e18 out, 45 seconds. *)
Definition quote_of_example : Quote :=
  {| deposit := {| deposit_inputAmount := 10 ^ 17; deposit_outputAmount := 995 * 10 ^ 14 |};
     estimatedFillTimeSec := 45;
     fees := None |}.

(** The operation of the worked example: 0.1 ETH, 18 decimals. *)
Definition operation_of_example : Operation :=
  {| name := "ETH Arbitrum to Optimism"; enabled := true; tokenSymbol := "ETH";
     originChainId := 42161; destinationChainId := 10; inputAmount := "0.1";
     decimals := Some 18%nat; useNativeToken := Some true |}.

(** The one operation that the shipped configuration enables. *)
Definition first_operation : Operation :=
  {| name := "ETH Arbitrum to Optimism"; enabled := true; tokenSymbol := "ETH";
     originChainId := 10; destinationChainId := 42161; inputAmount := "0.001";
     decimals := Some 18%nat; useNativeToken := Some true |}.

(** A quiet copy of the shipped options: history on, no verbose logging. *)
Definition quiet_options : Options :=
  {| autoExecute := true; saveHistory := true; historyFile := "transaction_history.json";
     verboseLogging := false; showQuoteDetails := false |}.

(** The shipped options with history saving off. *)
Definition history_off_options : Options :=
  {| autoExecute := true; saveHistory := false; historyFile := "transaction_history.json";
     verboseLogging := true; showQuoteDetails := true |}.

(** The first request to the status endpoint fails; the second says filled. *)
Definition unreachable_then_filled (n : nat) (url : string) : Response :=
  match n with
  | O => RequestError (mkError "Network Error")
  | S _ => Status "filled"
  end.

(** ** What a run spends *)

(** From [w] to [w'] the scripts asked the SDK for [q] quotes and [e]
    executions, sent [r] status requests, called [writeFileSync] [k] times
    and slept [s] polling intervals. *)
Definition spent (cfg : Config) (q e r k s : nat) (w w' : World) : Prop :=
  quotes w' = (quotes w + q)%nat
  /\ executions w' = (executions w + e)%nat
  /\ requests w' = (requests w + r)%nat
  /\ writes w' = (writes w + k)%nat
  /\ now w' = now w + Z.of_nat s * statusPollingInterval (MONITORING cfg).

(** What [count] operations may spend between them: a quote each; an
    execution only for a quote obtained; status requests only after an
    execution, [maxPollingAttempts] at most for each; a sleep only after a
    request; and a write of the history file each. *)
Definition orderly (cfg : Config) (count : nat) (w w' : World) : Prop :=
  exists q e r k s,
    spent cfg q e r k s w w'
    /\ (q <= count)%nat /\ (e <= q)%nat
    /\ (r <= maxPollingAttempts (MONITORING cfg) * e)%nat
    /\ (k <= count)%nat /\ (s <= r)%nat.

(** What an operation whose [try] block throws has spent by then: as
    [orderly], and no write. *)
Definition interrupted (cfg : Config) (w w' : World) : Prop :=
  exists q e r s,
    spent cfg q e r 0 s w w'
    /\ (q <= 1)%nat /\ (e <= q)%nat
    /\ (r <= maxPollingAttempts (MONITORING cfg) * e)%nat /\ (s <= r)%nat.

(** Nothing was executed from [w] to [w']. *)
Definition unexecuted (w w' : World) : Prop := executions w' = executions w.

(** ** What the progress events leave in a result *)

(** The deposits that the events report, as (id, transaction hash). *)
Definition depositsOf (events : list Progress) : list (Z * string) :=
  omap (fun p => match p with DepositSuccess id tx => Some (id, tx) | _ => None end) events.

(** The receipts of the fills that the events report with a receipt. *)
Definition receiptsOf (events : list Progress) : list string :=
  omap (fun p => match p with FillSuccess (Some tx) _ => Some tx | _ => None end) events.

Definition isFill (p : Progress) : bool :=
  match p with FillSuccess _ _ => true | _ => false end.

(** The result that the events add up to: successful when a fill was
    reported, with the last deposit reported and the last fill receipt. *)
Definition reportOf (events : list Progress) : Result :=
  {| success := existsb isFill events;
     depositId := fst <$> last (depositsOf events);
     originTxHash := snd <$> last (depositsOf events);
     destinationTxHash := last (receiptsOf events);
     error := None |}.

(** An operation on ETH that does not say [useNativeToken]. *)
Definition eth_by_default : Operation :=
  {| name := "ETH Optimism to Base"; enabled := true; tokenSymbol := "ETH";
     originChainId := 10; destinationChainId := 8453; inputAmount := "0.01";
     decimals := None; useNativeToken := None |}.

(** An operation from a chain that the shipped registry lists for ETH in
    [TOKENS] but that has no entry in [CHAINS]. *)
Definition eth_from_linea : Operation :=
  {| name := "ETH Linea to Ethereum"; enabled := true; tokenSymbol := "ETH";
     originChainId := 59144; destinationChainId := 1; inputAmount := "0.01";
     decimals := Some 18%nat; useNativeToken := Some true |}.

(** An operation on a token that the shipped registry does not list on
    its destination chain. *)
Definition usdt_to_base : Operation :=
  {| name := "USDT Ethereum to Base"; enabled := true; tokenSymbol := "USDT";
     originChainId := 1; destinationChainId := 8453; inputAmount := "25";
     decimals := None; useNativeToken := None |}.

(** The error that [history.push] throws on JSON other than an array. *)
Definition pushError (j : json) : Error :=
  match j with
  | JNull => mkError "Cannot read properties of null (reading 'push')"
  | _ => mkError "history.push is not a function"
  end.

Definition isArray (j : json) : bool :=
  match j with JArr _ => true | _ => false end.

(** The history file holds [j], and [written] writes have been attempted. *)
Definition holding (j : json) (written : nat) (w : World) : Prop :=
  disk w = Holds j /\ writes w = written.

(** ** The registry's keys *)

(** A decimal digit. *)
Definition isDigit (c : ascii) : bool :=
  ((48 <=? N_of_ascii c) && (N_of_ascii c <=? 57))%N.

(** The keys of a token's chain map are in order: each key without a
    hyphen is the decimal rendering of a chain id below 2^53, and its
    address is not empty. *)
Definition chainMap_in_order (chainMap : Literal string) : Prop :=
  Forall (fun entry : string * string =>
            includes "-" (fst entry) = false ->
            exists n : N, (n < 2 ^ 53)%N /\ fst entry = pretty n /\ snd entry <> "")
    chainMap.

(** * Properties *)

(** ** The definitions at work *)

Example toLowerCase_mixed : toLowerCase "FiLLed-42" = "filled-42".
Proof. reflexivity. Qed.

Example settles_examples :
  settles (Status "FILLED") = Some true
  /\ settles (Status "Fill") = Some true
  /\ settles (Status "success") = Some true
  /\ settles (Status "Failed") = Some false
  /\ settles (Status "pending") = None
  /\ settles (Malformed (mkError "status.status is undefined")) = None.
Proof. repeat split. Qed.

(** [995 / 1000] as Numbers is the Number that the literal [0.995] denotes,
    and [Number] rounds to nearest, ties to even. *)
Example number_examples :
  num_div (Number 995) (Number 1000) = num_0_995
  /\ Number (2 ^ 53 + 1) = Number (2 ^ 53)
  /\ num_ge (num_div (Number 0) (Number 0)) (Number 0) = false.
Proof. repeat split; vm_compute; reflexivity. Qed.

Example getTokenAddress_shipped :
  getTokenAddress shipped_config "USDC" 10 false
  = Normal "0x0b2C639c533813f4Aa9D7837CAf62653d097Ff85"
  /\ getTokenAddress shipped_config "USDC" 10 true
     = Normal "0x7F5c764cBc14f9669B88837ca1490cCa17c31607"
  /\ getTokenAddress shipped_config "USDC" 324 true
     = Normal "0x3355df6D4c9C3035724Fd0e3914dE96A5a83aaf4"
  /\ getTokenAddress shipped_config "WBTC" 8453 false
     = Throw (mkError "Token WBTC not supported on chain 8453").
Proof. repeat split; vm_compute; reflexivity. Qed.

Example sample_parseUnits_examples :
  sample_parseUnits "0.1" 18 = Normal (10 ^ 17)
  /\ sample_parseUnits "0.001" 18 = Normal (10 ^ 15)
  /\ sample_parseUnits "10" 6 = Normal 10000000.
Proof. repeat split; vm_compute; reflexivity. Qed.

(** ** Token address resolution *)

Lemma existsb_usdc (sym : string) :
  existsb (String.eqb sym) ["USDC"] = String.eqb sym "USDC".
Proof. simpl. apply orb_false_r. Qed.

(** C1, as stated, fails: with the bridged flag set, a bridged entry listed
    for USDT is passed over and the plain entry is returned, because the
    bridged lookup is reserved to the symbol USDC. *)
Lemma getTokenAddress_ignores_bridged_usdt :
  ~ resolveTokenAddress_as_specified
      (with_tokens registry_with_bridged_usdt shipped_config) "USDT" 10 true.
Proof.
  intros [Hbridged _].
  specialize (Hbridged "0x00000000000000000000000000000000000b71d9" eq_refl eq_refl).
  vm_compute in Hbridged. discriminate Hbridged.
Qed.

(** C1, amended: the bridged entry is returned when the flag is set, the
    symbol is USDC and the entry exists; in every other case the plain
    entry is returned when it exists; and the call throws, with the
    not-supported message, exactly when the plain entry is absent and the
    bridged entry was not returned. *)
Theorem getTokenAddress_resolution (cfg : Config) (sym : string) (chain : N) (flag : bool) :
  let bridged := tokenEntry cfg sym (bridgedKey chain) in
  let plain := tokenEntry cfg sym (pretty chain) in
  let r := getTokenAddress cfg sym chain flag in
  (forall a, flag = true -> sym = "USDC" -> bridged = Some a -> r = Normal a)
  /\ (forall a, flag = false \/ sym <> "USDC" \/ bridged = None ->
                plain = Some a -> r = Normal a)
  /\ (r = Throw (notSupported sym chain) <->
      plain = None /\ (flag = false \/ sym <> "USDC" \/ bridged = None))
  /\ (forall e, r = Throw e -> e = notSupported sym chain).
Proof.
  cbv zeta. unfold getTokenAddress. rewrite existsb_usdc.
  destruct (String.eqb_spec sym "USDC") as [Hsym | Hsym];
    destruct flag; simpl;
    destruct (tokenEntry cfg sym (bridgedKey chain)) as [b |] eqn:Hb;
    destruct (tokenEntry cfg sym (pretty chain)) as [p |] eqn:Hp;
    repeat split; intros; try congruence; try tauto;
    repeat match goal with
           | H : _ /\ _ |- _ => destruct H
           | H : _ \/ _ |- _ => destruct H
           end; try congruence; try tauto; auto.
Qed.

Lemma getTokenAddress_resolution_witness :
  getTokenAddress shipped_config "USDC" 10 true
  = Normal "0x7F5c764cBc14f9669B88837ca1490cCa17c31607".
Proof.
  apply (proj1 (getTokenAddress_resolution shipped_config "USDC" 10 true));
    [reflexivity | reflexivity | vm_compute; reflexivity].
Defined.

(** ** Reasoning about the monad *)

Section MonadRules.
Context {A B : Type} (I : World -> Prop).

Lemma preserves_ret (a : A) : preserves I (ret a).
Proof. intros w H. exact H. Qed.

Lemma preserves_throw (e : Error) : preserves I (@throw A e).
Proof. intros w H. exact H. Qed.

Lemma preserves_lift (c : Completion A) : preserves I (lift c).
Proof. intros w H. exact H. Qed.

Lemma preserves_bind (m : M A) (k : A -> M B) :
  preserves I m -> (forall a, preserves I (k a)) -> preserves I (bind m k).
Proof.
  intros Hm Hk w H. unfold bind. specialize (Hm w H).
  destruct (m w) as [[a | e] w']; simpl in *; [apply Hk |]; assumption.
Qed.

Lemma preserves_try_catch (m : M A) (h : Error -> M A) :
  preserves I m -> (forall e, preserves I (h e)) -> preserves I (try_catch m h).
Proof.
  intros Hm Hh w H. unfold try_catch. specialize (Hm w H).
  destruct (m w) as [[a | e] w']; simpl in *; [| apply Hh]; assumption.
Qed.

Lemma returns_ret (a : A) : returns I (ret a).
Proof. intros w _. exists a. reflexivity. Qed.

Lemma returns_bind (m : M A) (k : A -> M B) :
  preserves I m -> returns I m -> (forall a, returns I (k a)) -> returns I (bind m k).
Proof.
  intros Hp Hm Hk w H. unfold bind.
  specialize (Hp w H). destruct (Hm w H) as [a Ha].
  destruct (m w) as [[a' | e] w']; simpl in *; [apply Hk; assumption | discriminate].
Qed.

Lemma returns_try_catch (m : M A) (h : Error -> M A) :
  preserves I m -> (forall e, returns I (h e)) -> returns I (try_catch m h).
Proof.
  intros Hp Hh w H. unfold try_catch. specialize (Hp w H).
  destruct (m w) as [[a | e] w']; simpl in *; [exists a; reflexivity | apply Hh; assumption].
Qed.

End MonadRules.

Lemma preserves_when (I : World -> Prop) (b : bool) (m : M unit) :
  preserves I m -> preserves I (when b m).
Proof. destruct b; simpl; [trivial | intros _; apply preserves_ret]. Qed.

Lemma returns_when (I : World -> Prop) (b : bool) (m : M unit) :
  returns I m -> returns I (when b m).
Proof. destruct b; simpl; [trivial | intros _; apply returns_ret]. Qed.

Create HintDb frame.

#[export] Hint Resolve preserves_ret preserves_throw preserves_lift preserves_when
  returns_ret returns_when : frame.

(** Splits a goal about a script along its binds, handlers and branches,
    and closes the leaves from the hint database. *)
Ltac frame_step :=
  lazymatch goal with
  | |- preserves _ (bind _ _) => apply preserves_bind; [| intro]
  | |- preserves _ (try_catch _ _) => apply preserves_try_catch; [| intro]
  | |- returns _ (bind _ _) => apply returns_bind; [| | intro]
  | |- returns _ (try_catch _ _) => apply returns_try_catch; [| intro]
  | |- preserves _ (if ?b then _ else _) => destruct b
  | |- preserves _ (match ?x with _ => _ end) => destruct x
  | |- returns _ (if ?b then _ else _) => destruct b
  | |- returns _ (match ?x with _ => _ end) => destruct x
  | |- _ => solve [eauto with frame]
  end.

Ltac frame := cbv zeta; repeat frame_step.

(** ** What each script can change *)

Section Frames.
Context (cfg : Config) (E : Env) (I : World -> Prop).
Hypothesis I_console : forall line, stable I (push_console line).

Lemma preserves_logWithTime (msg : string) : preserves I (logWithTime E msg).
Proof. intros w H. apply I_console, H. Qed.

Lemma returns_logWithTime (msg : string) : returns I (logWithTime E msg).
Proof. intros w _. exists tt. reflexivity. Qed.

Hint Resolve preserves_logWithTime returns_logWithTime : frame.

Lemma preserves_quoteExceedsThresholds (quote : Quote) (operation : Operation) :
  preserves I (quoteExceedsThresholds cfg E quote operation).
Proof. unfold quoteExceedsThresholds. frame. Qed.

Lemma preserves_formatFee (total : option Z) (d : nat) : preserves I (formatFee E total d).
Proof. unfold formatFee. frame. Qed.

Lemma returns_nowISO : returns I (nowISO E).
Proof. intros w _. eexists. reflexivity. Qed.

Lemma preserves_nowISO : preserves I (nowISO E).
Proof. intros w H. exact H. Qed.

Hint Resolve preserves_formatFee returns_nowISO preserves_nowISO : frame.

Lemma preserves_outputFields (operation : Operation) (quote : option Quote) :
  preserves I (outputFields cfg E operation quote).
Proof. unfold outputFields. frame. Qed.

Lemma returns_outputFields (operation : Operation) (quote : option Quote) :
  returns I (outputFields cfg E operation quote).
Proof. unfold outputFields. frame. Qed.

Lemma preserves_existsSync : preserves I existsSync.
Proof. intros w H. exact H. Qed.

Lemma returns_existsSync : returns I existsSync.
Proof. intros w _. eexists. reflexivity. Qed.

Lemma preserves_readAndParse : preserves I (readAndParse cfg).
Proof. intros w H. unfold readAndParse. destruct (disk w); exact H. Qed.

Hint Resolve preserves_existsSync returns_existsSync preserves_readAndParse : frame.

Lemma preserves_readHistory : preserves I (readHistory cfg E).
Proof. unfold readHistory. frame. Qed.

Lemma returns_readHistory : returns I (readHistory cfg E).
Proof. unfold readHistory. frame. Qed.

Lemma preserves_onProgress (operation : Operation) (result : Result) (p : Progress) :
  preserves I (onProgress cfg E operation result p).
Proof.
  unfold onProgress. frame.
Qed.

Lemma preserves_deliver (operation : Operation) (events : list Progress) (result : Result) :
  preserves I (deliver cfg E operation events result).
Proof.
  revert result. induction events as [| p rest IH]; intros result; simpl.
  - apply preserves_ret.
  - apply preserves_bind; [apply preserves_onProgress | intros r; apply IH].
Qed.

Lemma preserves_createWalletClient (operation : Operation) :
  preserves I (createWalletClient cfg operation).
Proof. unfold createWalletClient. frame. Qed.

Hint Resolve preserves_createWalletClient : frame.

Section Quoting.
Hypothesis I_quote : stable I count_quote.

Lemma preserves_client_getQuote (route : Route) (amount : Z) :
  preserves I (client_getQuote E route amount).
Proof. intros w H. apply I_quote, H. Qed.

Lemma preserves_logQuoteDetails (operation : Operation) (quote : Quote) :
  preserves I (logQuoteDetails cfg E operation quote).
Proof. unfold logQuoteDetails, feeTotal. frame. Qed.

Hint Resolve preserves_client_getQuote preserves_logQuoteDetails : frame.

Lemma preserves_getQuote (operation : Operation) : preserves I (getQuote cfg E operation).
Proof. unfold getQuote. frame. Qed.

End Quoting.

Section Executing.
Hypothesis I_execution : stable I count_execution.

Lemma preserves_client_executeQuote (operation : Operation) (dep : Deposit) (r : Result) :
  preserves I (client_executeQuote cfg E operation dep r).
Proof.
  intros w H. unfold client_executeQuote.
  destruct (sdk_executeQuote E (executions w) dep) as [events outcome].
  pose proof (preserves_deliver operation events r (count_execution w)
                (I_execution w H)) as Hd.
  destruct (deliver cfg E operation events r (count_execution w)) as [[r' | e] w'];
    simpl in *; [destruct outcome |]; exact Hd.
Qed.

Hint Resolve preserves_client_executeQuote : frame.

Lemma preserves_executeQuote (quote : Quote) (operation : Operation) :
  preserves I (executeQuote cfg E quote operation).
Proof. unfold executeQuote. frame. Qed.

Lemma returns_executeQuote (quote : Quote) (operation : Operation) :
  returns I (executeQuote cfg E quote operation).
Proof. unfold executeQuote. frame. Qed.

End Executing.

Section Polling.
Hypothesis I_clock : forall ms, stable I (advance ms).
Hypothesis I_request : stable I count_request.

Lemma preserves_sleep (ms : Z) : preserves I (sleep ms).
Proof. intros w H. apply I_clock, H. Qed.

Lemma returns_sleep (ms : Z) : returns I (sleep ms).
Proof. intros w _. exists tt. reflexivity. Qed.

Lemma preserves_axiosGet (url : string) : preserves I (axiosGet E url).
Proof. intros w H. apply I_request, H. Qed.

Hint Resolve preserves_sleep returns_sleep preserves_axiosGet : frame.

Lemma preserves_pollOnce (attempts : nat) (origin : N) (id : Z) :
  preserves I (pollOnce cfg E attempts origin id).
Proof. unfold pollOnce. frame. Qed.

Lemma returns_pollOnce (attempts : nat) (origin : N) (id : Z) :
  returns I (pollOnce cfg E attempts origin id).
Proof. unfold pollOnce. frame. Qed.

Lemma preserves_pollLoop (remaining attempts : nat) (origin : N) (id : Z) :
  preserves I (pollLoop cfg E remaining attempts origin id).
Proof.
  revert attempts. induction remaining as [| n IH]; intros attempts; simpl.
  - frame.
  - apply preserves_bind; [apply preserves_pollOnce | intros [b |]];
      [apply preserves_ret | apply IH].
Qed.

Lemma returns_pollLoop (remaining attempts : nat) (origin : N) (id : Z) :
  returns I (pollLoop cfg E remaining attempts origin id).
Proof.
  revert attempts. induction remaining as [| n IH]; intros attempts; simpl.
  - frame.
  - apply returns_bind; [apply preserves_pollOnce | apply returns_pollOnce | intros [b |]];
      [apply returns_ret | apply IH].
Qed.

Lemma preserves_pollDepositStatus (origin : N) (id : Z) :
  preserves I (pollDepositStatus cfg E origin id).
Proof.
  unfold pollDepositStatus.
  apply preserves_bind; [apply preserves_logWithTime | intros _; apply preserves_pollLoop].
Qed.

Lemma returns_pollDepositStatus (origin : N) (id : Z) :
  returns I (pollDepositStatus cfg E origin id).
Proof.
  unfold pollDepositStatus.
  apply returns_bind;
    [apply preserves_logWithTime | apply returns_logWithTime | intros _; apply returns_pollLoop].
Qed.

End Polling.

End Frames.

Section RecorderFrame.
Context (cfg : Config) (E : Env) (I : World -> Prop).
Hypothesis I_console : forall line, stable I (push_console line).
Hypothesis I_disk : forall d, stable I (set_disk d).
Hypothesis I_write : stable I count_write.

Lemma preserves_writeFileSync (history : json) : preserves I (writeFileSync cfg E history).
Proof.
  intros w H. unfold writeFileSync.
  destruct (fs_writeFileSync E (writes w) (historyFile (OPTIONS cfg)))
    as [[e [| parseError |]] |]; simpl.
  - apply I_write, H.
  - apply I_disk, I_write, H.
  - apply I_disk, I_write, H.
  - apply I_disk, I_write, H.
Qed.

Lemma preserves_push (history record : json) : preserves I (push history record).
Proof. intros w H. destruct history; exact H. Qed.

Lemma preserves_saveTransactionToHistory (operation : Operation) (result : Result)
  (quote : option Quote) :
  preserves I (saveTransactionToHistory cfg E operation result quote).
Proof.
  unfold saveTransactionToHistory.
  pose proof (preserves_logWithTime E I I_console).
  pose proof (preserves_readHistory cfg E I I_console).
  pose proof (preserves_outputFields cfg E I I_console).
  pose proof (preserves_nowISO E I).
  pose proof preserves_writeFileSync. pose proof preserves_push.
  frame.
Qed.

End RecorderFrame.

Section OrchestratorFrame.
Context (cfg : Config) (E : Env) (I : World -> Prop).
Hypothesis I_console : forall line, stable I (push_console line).
Hypothesis I_quote : stable I count_quote.
Hypothesis I_execution : stable I count_execution.
Hypothesis I_poll : forall origin id, preserves I (pollDepositStatus cfg E origin id).
Hypothesis I_save : forall operation result quote,
  preserves I (saveTransactionToHistory cfg E operation result quote).

Lemma preserves_pollIfNeeded (operation : Operation) (result : Result) :
  preserves I (pollIfNeeded cfg E operation result).
Proof. unfold pollIfNeeded. frame. Qed.

Lemma preserves_executeBridgeOperation_try (operation : Operation) :
  preserves I (executeBridgeOperation_try cfg E operation).
Proof.
  unfold executeBridgeOperation_try.
  pose proof (preserves_logWithTime E I I_console).
  pose proof (preserves_getQuote cfg E I I_console I_quote).
  pose proof (preserves_quoteExceedsThresholds cfg E I I_console).
  pose proof (preserves_executeQuote cfg E I I_console I_execution).
  pose proof preserves_pollIfNeeded.
  frame.
Qed.

Lemma preserves_executeBridgeOperation_catch (operation : Operation) (e : Error) :
  preserves I (executeBridgeOperation_catch cfg E operation e).
Proof.
  unfold executeBridgeOperation_catch.
  pose proof (preserves_logWithTime E I I_console).
  frame.
Qed.

Lemma preserves_executeBridgeOperation (operation : Operation) :
  preserves I (executeBridgeOperation cfg E operation).
Proof.
  apply preserves_try_catch;
    [apply preserves_executeBridgeOperation_try
    | apply preserves_executeBridgeOperation_catch].
Qed.

(** An operation whose recorder returns, returns: whatever its steps throw
    is turned into [false] by the handler. *)
Lemma returns_executeBridgeOperation (operation : Operation) :
  (forall result quote,
     returns I (saveTransactionToHistory cfg E operation result quote)) ->
  returns I (executeBridgeOperation cfg E operation).
Proof.
  intros Hsave. apply returns_try_catch.
  - apply preserves_executeBridgeOperation_try.
  - intros e. unfold executeBridgeOperation_catch.
    pose proof (preserves_logWithTime E I I_console).
    pose proof (returns_logWithTime E I).
    frame.
Qed.

Lemma preserves_runOperations (operations : list Operation) :
  preserves I (runOperations cfg E operations).
Proof.
  induction operations as [| op rest IH]; simpl.
  - apply preserves_ret.
  - apply preserves_bind; [apply preserves_executeBridgeOperation | intros _; exact IH].
Qed.

Lemma returns_runOperations (operations : list Operation) :
  (forall operation result quote,
     returns I (saveTransactionToHistory cfg E operation result quote)) ->
  returns I (runOperations cfg E operations).
Proof.
  intros Hsave. induction operations as [| op rest IH]; simpl.
  - apply returns_ret.
  - apply returns_bind;
      [apply preserves_executeBridgeOperation
      | apply returns_executeBridgeOperation, Hsave
      | intros _; exact IH].
Qed.

Lemma preserves_listOperations (index : nat) (operations : list Operation) :
  preserves I (listOperations cfg E index operations).
Proof.
  revert index. induction operations as [| op rest IH]; intros index; simpl.
  - apply preserves_ret.
  - apply preserves_bind; [apply preserves_logWithTime, I_console | intros _; apply IH].
Qed.

Lemma returns_listOperations (index : nat) (operations : list Operation) :
  returns I (listOperations cfg E index operations).
Proof.
  revert index. induction operations as [| op rest IH]; intros index; simpl.
  - apply returns_ret.
  - apply returns_bind;
      [apply preserves_logWithTime, I_console | apply returns_logWithTime | intros _; apply IH].
Qed.

Lemma preserves_mainBody : preserves I (mainBody cfg E).
Proof.
  unfold mainBody.
  pose proof (preserves_logWithTime E I I_console).
  pose proof preserves_listOperations. pose proof preserves_runOperations.
  frame.
Qed.

Lemma returns_mainBody :
  (forall operation result quote,
     returns I (saveTransactionToHistory cfg E operation result quote)) ->
  returns I (mainBody cfg E).
Proof.
  intros Hsave. unfold mainBody.
  pose proof (preserves_logWithTime E I I_console).
  pose proof (returns_logWithTime E I).
  pose proof preserves_listOperations. pose proof preserves_runOperations.
  pose proof returns_listOperations.
  pose proof (fun ops => returns_runOperations ops Hsave).
  frame.
Qed.

End OrchestratorFrame.

(** ** Threshold evaluation *)

Lemma quoteExceedsThresholds_result (cfg : Config) (E : Env) (quote : Quote)
  (operation : Operation) (w : World) :
  fst (quoteExceedsThresholds cfg E quote operation w)
  = match parseUnits E (inputAmount operation) (effectiveDecimals cfg operation) with
    | Normal parsed => Normal (verdict cfg quote parsed)
    | Throw e => Throw e
    end.
Proof.
  unfold quoteExceedsThresholds, bind, lift.
  destruct (parseUnits E (inputAmount operation) (effectiveDecimals cfg operation));
    reflexivity.
Qed.



(** Order on Numbers: [<=] is transitive (a NaN is below and above nothing). *)
Lemma num_le_trans (a b c : spec_float) :
  num_le a b = true -> num_le b c = true -> num_le a c = true.
Proof.
  unfold num_le, SFleb, SFcompare.
  destruct a as [sa | sa | | sa ma ea], b as [sb | sb | | sb mb eb],
    c as [sc | sc | | sc mc ec];
    try discriminate; try reflexivity;
    repeat match goal with s : bool |- _ => destruct s end;
    try discriminate; try reflexivity;
    change (Pos.compare_cont Eq ?x ?y) with (Pos.compare x y);
    destruct (Z.compare_spec ea eb), (Z.compare_spec eb ec), (Z.compare_spec ea ec);
    try lia; simpl; try discriminate; try reflexivity; subst;
    destruct (Pos.compare_spec ma mb), (Pos.compare_spec mb mc), (Pos.compare_spec ma mc);
    simpl; try discriminate; try reflexivity; lia.
Qed.

(** C5: with the quote, the operation and the fill-time threshold fixed, a
    quote accepted at a minimum output percentage [m] is accepted at every
    [m' <= m]; raising the minimum never turns a reject into an accept. *)
Theorem quoteExceedsThresholds_monotone (cfg : Config) (E : Env) (quote : Quote)
  (operation : Operation) (w : World) (m m' : spec_float) :
  num_le m' m = true ->
  fst (quoteExceedsThresholds (with_minOutputPercentage m cfg) E quote operation w)
  = Normal true ->
  fst (quoteExceedsThresholds (with_minOutputPercentage m' cfg) E quote operation w)
  = Normal true.
Proof.
  intros Hle. rewrite !quoteExceedsThresholds_result.
  change (effectiveDecimals (with_minOutputPercentage m cfg) operation)
    with (effectiveDecimals cfg operation).
  change (effectiveDecimals (with_minOutputPercentage m' cfg) operation)
    with (effectiveDecimals cfg operation).
  destruct (parseUnits E _ _) as [parsed | e]; [| discriminate].
  unfold verdict, num_ge. simpl. intros H. injection H as H.
  apply andb_true_iff in H as [Hout Hfill]. rewrite Hfill.
  pose proof (num_le_trans _ _ _ Hle Hout) as Ht. unfold num_le in Ht.
  rewrite Ht. reflexivity.
Qed.

Lemma quoteExceedsThresholds_monotone_witness :
  fst (quoteExceedsThresholds (with_minOutputPercentage (Number 0) shipped_config)
         (sample_env quote_995 execute_filled always_pending write_succeeds)
         quote_of_example operation_of_example (blank_world Missing))
  = Normal true.
Proof.
  apply (quoteExceedsThresholds_monotone shipped_config
           (sample_env quote_995 execute_filled always_pending write_succeeds)
           quote_of_example operation_of_example (blank_world Missing)
           num_0_995 (Number 0));
    vm_compute; reflexivity.
Defined.

(** ** Status polling *)

Lemma pollOnce_spec (cfg : Config) (E : Env) (attempts : nat) (origin : N) (id : Z)
  (w : World) :
  let r := axios_get E (requests w) (statusUrl origin id) in
  let after := snd (pollOnce cfg E attempts origin id w) in
  fst (pollOnce cfg E attempts origin id w) = Normal (settles r)
  /\ requests after = S (requests w)
  /\ now after = now w + match settles r with
                         | None => statusPollingInterval (MONITORING cfg)
                         | Some _ => 0
                         end.
Proof.
  cbv zeta. unfold pollOnce, try_catch, bind, axiosGet, settles.
  destruct (axios_get E (requests w) (statusUrl origin id)) as [e | e | s]; simpl;
    try (repeat split; lia).
  destruct (String.eqb_spec (toLowerCase s) "filled") as [H1 | H1];
    destruct (String.eqb_spec (toLowerCase s) "success") as [H2 | H2];
    destruct (String.eqb_spec (toLowerCase s) "failed") as [H3 | H3];
    destruct (String.eqb_spec (toLowerCase s) "fill") as [H4 | H4];
    simpl; try congruence; repeat split; lia.
Qed.

Lemma pollLoop_S (cfg : Config) (E : Env) (origin : N) (id : Z) (n attempts : nat)
  (w : World) :
  pollLoop cfg E (S n) attempts origin id w
  = match pollOnce cfg E (S attempts) origin id w with
    | (Normal (Some b), w1) => (Normal b, w1)
    | (Normal None, w1) => pollLoop cfg E n (S attempts) origin id w1
    | (Throw e, w1) => (Throw e, w1)
    end.
Proof.
  simpl. unfold bind.
  destruct (pollOnce cfg E (S attempts) origin id w) as [[[b |] | e] w1]; reflexivity.
Qed.

Lemma pollLoop_spec (cfg : Config) (E : Env) (origin : N) (id : Z) (remaining : nat) :
  forall (attempts : nat) (w : World),
    let response j := axios_get E (requests w + j) (statusUrl origin id) in
    let after := snd (pollLoop cfg E remaining attempts origin id w) in
    (forall k b,
        (k < remaining)%nat ->
        (forall j, (j < k)%nat -> settles (response j) = None) ->
        settles (response k) = Some b ->
        fst (pollLoop cfg E remaining attempts origin id w) = Normal b
        /\ requests after = (requests w + S k)%nat
        /\ now after = now w + Z.of_nat k * statusPollingInterval (MONITORING cfg))
    /\ ((forall j, (j < remaining)%nat -> settles (response j) = None) ->
        fst (pollLoop cfg E remaining attempts origin id w) = Normal false
        /\ requests after = (requests w + remaining)%nat
        /\ now after = now w + Z.of_nat remaining * statusPollingInterval (MONITORING cfg)).
Proof.
  induction remaining as [| n IH]; intros attempts w; cbv zeta.
  - split; [intros k b Hk; lia |].
    intros _. simpl. unfold bind, logWithTime, ret. simpl.
    repeat split; lia.
  - destruct (pollOnce_spec cfg E (S attempts) origin id w) as (Hfst & Hreq & Hnow).
    cbv zeta in Hfst, Hreq, Hnow.
    rewrite !pollLoop_S.
    destruct (pollOnce cfg E (S attempts) origin id w) as [c w1] eqn:Hone.
    simpl in Hfst, Hreq, Hnow. subst c.
    specialize (IH (S attempts) w1). cbv zeta in IH. destruct IH as [IHhit IHmiss].
    rewrite Hreq in IHhit, IHmiss.
    split.
    + intros k b Hk Hbefore Hat. destruct k as [| k].
      * rewrite Nat.add_0_r in Hat. rewrite Hat in *. simpl.
        repeat split; lia.
      * pose proof (Hbefore 0%nat ltac:(lia)) as H0. rewrite Nat.add_0_r in H0.
        rewrite H0 in *.
        destruct (IHhit k b ltac:(lia)) as (Hr & Hq & Ht).
        { intros j Hj. specialize (Hbefore (S j) ltac:(lia)).
          replace (S (requests w) + j)%nat with (requests w + S j)%nat by lia.
          exact Hbefore. }
        { replace (S (requests w) + k)%nat with (requests w + S k)%nat by lia.
          exact Hat. }
        repeat split; [exact Hr | lia | lia].
    + intros Hnone.
      pose proof (Hnone 0%nat ltac:(lia)) as H0. rewrite Nat.add_0_r in H0.
      rewrite H0 in *.
      destruct IHmiss as (Hr & Hq & Ht).
      { intros j Hj. specialize (Hnone (S j) ltac:(lia)).
        replace (S (requests w) + j)%nat with (requests w + S j)%nat by lia.
        exact Hnone. }
      repeat split; [exact Hr | lia | lia].
Qed.

(** C2: the poller never raises.  If the first settling response comes at
    request [k < maxPollingAttempts], it returns what that response settles
    (true for filled, success or fill; false for failed) after exactly
    [k + 1] requests and [k] sleeps: every other status, request error or
    malformed body before it cost one attempt and one sleep.  If none of
    the first [maxPollingAttempts] responses settles, it returns false
    after exactly that many requests.  In particular pending, pending,
    filled returns true after exactly 3 requests. *)
Theorem pollDepositStatus_spec (cfg : Config) (E : Env) (origin : N) (id : Z) (w : World) :
  let budget := maxPollingAttempts (MONITORING cfg) in
  let interval := statusPollingInterval (MONITORING cfg) in
  let response j := axios_get E (requests w + j) (statusUrl origin id) in
  let outcome := fst (pollDepositStatus cfg E origin id w) in
  let after := snd (pollDepositStatus cfg E origin id w) in
  (exists b, outcome = Normal b)
  /\ (forall k b,
        (k < budget)%nat ->
        (forall j, (j < k)%nat -> settles (response j) = None) ->
        settles (response k) = Some b ->
        outcome = Normal b
        /\ requests after = (requests w + S k)%nat
        /\ now after = now w + Z.of_nat k * interval)
  /\ ((forall j, (j < budget)%nat -> settles (response j) = None) ->
      outcome = Normal false
      /\ requests after = (requests w + budget)%nat
      /\ now after = now w + Z.of_nat budget * interval)
  /\ ((3 <= budget)%nat ->
      response 0%nat = Status "pending" ->
      response 1%nat = Status "pending" ->
      response 2%nat = Status "filled" ->
      outcome = Normal true /\ requests after = (requests w + 3)%nat).
Proof.
  cbv zeta.
  pose proof (pollLoop_spec cfg E origin id (maxPollingAttempts (MONITORING cfg)) 0
                (snd (logWithTime E ("Polling status for deposit ID: " +:+ pretty id) w)))
    as Hloop.
  cbv zeta in Hloop.
  change (pollDepositStatus cfg E origin id w)
    with (pollLoop cfg E (maxPollingAttempts (MONITORING cfg)) 0 origin id
            (snd (logWithTime E ("Polling status for deposit ID: " +:+ pretty id) w))).
  change (requests (snd (logWithTime E ("Polling status for deposit ID: " +:+ pretty id) w)))
    with (requests w) in Hloop.
  change (now (snd (logWithTime E ("Polling status for deposit ID: " +:+ pretty id) w)))
    with (now w) in Hloop.
  destruct Hloop as [Hhit Hmiss].
  assert (Hsettled : forall k b,
             (k < maxPollingAttempts (MONITORING cfg))%nat ->
             (forall j, (j < k)%nat ->
                settles (axios_get E (requests w + j) (statusUrl origin id)) = None) ->
             settles (axios_get E (requests w + k) (statusUrl origin id)) = Some b ->
             _) by exact Hhit.
  split; [| split; [exact Hhit | split; [exact Hmiss |]]].
  - apply (returns_pollDepositStatus cfg E (fun _ => True));
      unfold stable; intros; exact I.
  - intros Hbudget H0 H1 H2.
    destruct (Hsettled 2%nat true ltac:(lia)) as (Hr & Hq & _).
    + intros j Hj. destruct j as [| [| j]]; [rewrite H0 | rewrite H1 | lia]; reflexivity.
    + rewrite H2. reflexivity.
    + split; assumption.
Qed.

Lemma pollDepositStatus_spec_witness :
  fst (pollDepositStatus (with_maxPollingAttempts 3 shipped_config)
         (sample_env quote_995 execute_filled (answers ["pending"; "pending"; "filled"])
            write_succeeds)
         42161 7 (blank_world Missing)) = Normal true
  /\ requests (snd (pollDepositStatus (with_maxPollingAttempts 3 shipped_config)
         (sample_env quote_995 execute_filled (answers ["pending"; "pending"; "filled"])
            write_succeeds)
         42161 7 (blank_world Missing))) = 3%nat.
Proof.
  apply (proj2 (proj2 (proj2 (pollDepositStatus_spec
           (with_maxPollingAttempts 3 shipped_config)
           (sample_env quote_995 execute_filled (answers ["pending"; "pending"; "filled"])
              write_succeeds)
           42161 7 (blank_world Missing)))));
    [simpl; lia | reflexivity | reflexivity | reflexivity].
Defined.

(** ** History recording *)

(** What reading the history comes to, for each state of the file. *)
Lemma readHistory_spec (cfg : Config) (E : Env) (w : World) :
  readHistory cfg E w
  = match disk w with
    | Missing => (Normal (JArr []), w)
    | Unreadable e | Unparsable e =>
        (Normal (JArr []),
         snd (logWithTime E ("Warning: Could not read history file: " +:+ message e) w))
    | Holds j => (Normal j, w)
    end.
Proof.
  unfold readHistory, try_catch, bind, existsSync, readAndParse.
  destruct (disk w) eqn:Hdisk; simpl; rewrite ?Hdisk; reflexivity.
Qed.

Lemma onward_refl (w : World) : onward w w.
Proof. repeat split. apply incl_refl. Qed.

Lemma onward_console (w0 : World) (line : string) : stable (onward w0) (push_console line).
Proof.
  intros w (Hd & Hw & Hn & Hc). repeat split; try assumption.
  simpl. apply incl_tl, Hc.
Qed.

Lemma outputFields_spec (cfg : Config) (E : Env) (operation : Operation)
  (quote : option Quote) (w : World) :
  exists extra w', outputFields cfg E operation quote w = (Normal extra, w') /\ onward w w'.
Proof.
  pose proof (returns_outputFields cfg E (onward w) (onward_console w) operation quote w
                (onward_refl w)) as [extra Hextra].
  pose proof (preserves_outputFields cfg E (onward w) (onward_console w) operation quote w
                (onward_refl w)) as Hon.
  destruct (outputFields cfg E operation quote w) as [c w'] eqn:Hout. simpl in *.
  subst c. exists extra, w'. split; [reflexivity | exact Hon].
Qed.

(** The recorder, step by step, when history is being saved. *)
Lemma saveTransactionToHistory_steps (cfg : Config) (E : Env) (operation : Operation)
  (result : Result) (quote : option Quote) (w : World) :
  saveHistory (OPTIONS cfg) = true ->
  exists history w1 extra w2,
    readHistory cfg E w = (Normal history, w1)
    /\ outputFields cfg E operation quote w1 = (Normal extra, w2)
    /\ onward w1 w2
    /\ saveTransactionToHistory cfg E operation result quote w
       = match push history
                 (historyRecord (toISOString E (now w2)) operation result extra) w2 with
         | (Throw e, w3) => (Throw e, w3)
         | (Normal history', w3) =>
             match fs_writeFileSync E (writes w3) (historyFile (OPTIONS cfg)) with
             | None =>
                 when (verboseLogging (OPTIONS cfg))
                   (logWithTime E "Transaction saved to history file")
                   (set_disk (Holds history') (count_write w3))
             | Some (e, aftermath) =>
                 logWithTime E ("Error: Could not save to history file: " +:+ message e)
                   (failedWrite aftermath history' w3)
             end
         end.
Proof.
  intros Hsave.
  destruct (readHistory cfg E w) as [c w1] eqn:Hread.
  assert (Hc : exists history, c = Normal history).
  { rewrite readHistory_spec in Hread. destruct (disk w); inversion Hread; eauto. }
  destruct Hc as [history ->].
  destruct (outputFields_spec cfg E operation quote w1) as (extra & w2 & Hout & Hon).
  exists history, w1, extra, w2.
  split; [reflexivity | split; [exact Hout | split; [exact Hon |]]].
  unfold saveTransactionToHistory. rewrite Hsave. change (negb true) with false. cbv beta iota.
  unfold bind at 1. rewrite Hread.
  unfold bind at 1. rewrite Hout.
  unfold bind at 1. unfold nowISO at 1.
  unfold bind at 1. unfold historyRecord.
  destruct (push history _ w2) as [[history' | e] w3]; [| reflexivity].
  unfold try_catch, bind, writeFileSync.
  destruct (fs_writeFileSync E (writes w3) (historyFile (OPTIONS cfg)))
    as [[e aftermath] |]; [reflexivity |].
  destruct (verboseLogging (OPTIONS cfg)); reflexivity.
Qed.

(** When the file can be appended to, the recorder reads a list (the empty
    one unless the file holds an array), and its outcome hangs on the write
    alone. *)
Lemma saveTransactionToHistory_appendable (cfg : Config) (E : Env) (operation : Operation)
  (result : Result) (quote : option Quote) (w : World) :
  saveHistory (OPTIONS cfg) = true ->
  appendable (disk w) ->
  exists items w1 extra w2,
    readHistory cfg E w = (Normal (JArr items), w1)
    /\ onward w w1 /\ onward w1 w2
    /\ saveTransactionToHistory cfg E operation result quote w
       = match fs_writeFileSync E (writes w) (historyFile (OPTIONS cfg)) with
         | None =>
             when (verboseLogging (OPTIONS cfg))
               (logWithTime E "Transaction saved to history file")
               (set_disk
                  (Holds (JArr (items ++ [historyRecord (toISOString E (now w2))
                                            operation result extra])))
                  (count_write w2))
         | Some (e, aftermath) =>
             logWithTime E ("Error: Could not save to history file: " +:+ message e)
               (failedWrite aftermath
                  (JArr (items ++ [historyRecord (toISOString E (now w2))
                                     operation result extra]))
                  w2)
         end.
Proof.
  intros Hsave Happ.
  destruct (saveTransactionToHistory_steps cfg E operation result quote w Hsave)
    as (history & w1 & extra & w2 & Hread & Hout & Hon & Heq).
  assert (H1 : (exists items, history = JArr items) /\ onward w w1).
  { rewrite readHistory_spec in Hread.
    destruct (disk w) as [| e | e | j] eqn:Hdisk; inversion Hread; subst.
    - split; [eauto | apply onward_refl].
    - split; [eauto |]. apply onward_console, onward_refl.
    - split; [eauto |]. apply onward_console, onward_refl.
    - split; [| apply onward_refl].
      destruct history; simpl in Happ; try contradiction. eauto. }
  destruct H1 as [[items ->] Hon1].
  exists items, w1, extra, w2.
  split; [exact Hread | split; [exact Hon1 | split; [exact Hon |]]].
  rewrite Heq. simpl push. unfold ret.
  destruct Hon as (_ & Hw2 & _). destruct Hon1 as (_ & Hw1 & _).
  rewrite Hw2, Hw1. reflexivity.
Qed.

(** A line of the console is still there after more lines. *)
Lemma logged_onward (msg : string) (w0 w : World) :
  onward w0 w -> logged msg w0 -> logged msg w.
Proof. intros (_ & _ & _ & Hc) [stamp H]. exists stamp. apply Hc, H. Qed.

Lemma logged_logWithTime (E : Env) (msg : string) (w : World) :
  logged msg (snd (logWithTime E msg w)).
Proof. exists (toLocaleTimeString E (now w)). left. reflexivity. Qed.

Lemma logged_push (msg line : string) (w : World) :
  logged msg w -> logged msg (push_console line w).
Proof. intros [stamp H]. exists stamp. right. exact H. Qed.

(** C6, as stated, fails: with no history file the recorder starts from the
    empty list and writes a one-element array, but it logs nothing at all,
    so no warning. *)
Lemma saveTransactionToHistory_missing_file_is_silent :
  let after :=
    snd (saveTransactionToHistory (with_options quiet_options shipped_config)
           (sample_env quote_995 execute_filled always_pending write_succeeds)
           operation_of_example (failure "Quote did not meet thresholds") None
           (blank_world Missing)) in
  console after = []
  /\ exists record, disk after = Holds (JArr [record]).
Proof. cbv zeta. split; [reflexivity | eexists; reflexivity]. Qed.

(** C6, amended: with history saving on and a history file that is missing,
    unreadable, unparsable or holds an array, the recorder never raises.
    A missing file is read as the empty list without a word; an unreadable
    or unparsable file is read as the empty list and the warning is logged.
    When the write succeeds the file then holds the list read with one
    record appended (one element from no file, two from a file of one);
    when the write throws, the error is logged and the recorder still
    returns normally. *)
Theorem saveTransactionToHistory_best_effort (cfg : Config) (E : Env)
  (operation : Operation) (result : Result) (quote : option Quote) (w : World) :
  saveHistory (OPTIONS cfg) = true ->
  appendable (disk w) ->
  let outcome := saveTransactionToHistory cfg E operation result quote w in
  let after := snd outcome in
  let write := fs_writeFileSync E (writes w) (historyFile (OPTIONS cfg)) in
  fst outcome = Normal tt
  /\ (disk w = Missing -> readHistory cfg E w = (Normal (JArr []), w))
  /\ (forall e, disk w = Unreadable e \/ disk w = Unparsable e ->
        logged ("Warning: Could not read history file: " +:+ message e) after)
  /\ (write = None ->
      exists timestamp extra,
        disk after
        = Holds (JArr (match disk w with Holds (JArr items) => items | _ => [] end
                       ++ [historyRecord timestamp operation result extra])))
  /\ (forall e aftermath, write = Some (e, aftermath) ->
        logged ("Error: Could not save to history file: " +:+ message e) after).
Proof.
  intros Hsave Happ. cbv zeta.
  destruct (saveTransactionToHistory_appendable cfg E operation result quote w Hsave Happ)
    as (items & w1 & extra & w2 & Hread & Hon1 & Hon2 & Heq).
  rewrite Heq. clear Heq.
  assert (Hitems : items = match disk w with Holds (JArr l) => l | _ => [] end).
  { rewrite readHistory_spec in Hread.
    destruct (disk w) as [| e | e | j]; inversion Hread; subst; reflexivity. }
  assert (Hwarn : forall e, disk w = Unreadable e \/ disk w = Unparsable e ->
            logged ("Warning: Could not read history file: " +:+ message e) w2).
  { intros e He. apply (logged_onward _ w1 w2 Hon2).
    rewrite readHistory_spec in Hread.
    destruct He as [He | He]; rewrite He in Hread; inversion Hread;
      exists (toLocaleTimeString E (now w)); left; reflexivity. }
  split; [| split; [| split; [| split]]].
  - destruct (fs_writeFileSync E (writes w) (historyFile (OPTIONS cfg)))
      as [[e aftermath] |]; [| destruct (verboseLogging (OPTIONS cfg))]; reflexivity.
  - intros Hmissing. rewrite readHistory_spec, Hmissing. reflexivity.
  - intros e He. specialize (Hwarn e He).
    destruct (fs_writeFileSync E (writes w) (historyFile (OPTIONS cfg)))
      as [[e' [| parseError |]] |]; [| | | destruct (verboseLogging (OPTIONS cfg))];
      simpl; repeat apply logged_push; exact Hwarn.
  - intros Hwrite. rewrite Hwrite. exists (toISOString E (now w2)), extra.
    rewrite <- Hitems. destruct (verboseLogging (OPTIONS cfg)); reflexivity.
  - intros e aftermath Hwrite. rewrite Hwrite. apply logged_logWithTime.
Qed.

Lemma saveTransactionToHistory_best_effort_witness :
  exists timestamp extra,
    disk (snd (saveTransactionToHistory shipped_config
                 (sample_env quote_995 execute_filled always_pending write_succeeds)
                 operation_of_example (failure "Auto-execute disabled") None
                 (blank_world (Holds (JArr [JNull])))))
    = Holds (JArr ([JNull] ++ [historyRecord timestamp operation_of_example
                                 (failure "Auto-execute disabled") extra])).
Proof.
  apply (saveTransactionToHistory_best_effort shipped_config
           (sample_env quote_995 execute_filled always_pending write_succeeds)
           operation_of_example (failure "Auto-execute disabled") None
           (blank_world (Holds (JArr [JNull]))));
    [reflexivity | exact I | reflexivity].
Defined.

(** A denied write: the recorder logs the error and returns, and the file
    still holds what it held. *)
Example saveTransactionToHistory_write_denied :
  saveTransactionToHistory shipped_config
    (sample_env quote_995 execute_filled always_pending write_denied)
    operation_of_example (failure "Auto-execute disabled") None
    (blank_world (Holds (JArr [JNull])))
  = (Normal tt,
     {| console := ["[0] Error: Could not save to history file: "
                    +:+ "EACCES: permission denied, open 'transaction_history.json'"];
        stderr := []; disk := Holds (JArr [JNull]); now := 0;
        quotes := 0; executions := 0; requests := 0; writes := 1 |}).
Proof. vm_compute. reflexivity. Qed.

(** A write that fails once the file is open: the recorder logs the error
    and returns, and the file, truncated, no longer holds the history. *)
Example saveTransactionToHistory_disk_full :
  let outcome :=
    saveTransactionToHistory shipped_config
      (sample_env quote_995 execute_filled always_pending write_disk_full)
      operation_of_example (failure "Auto-execute disabled") None
      (blank_world (Holds (JArr [JNull]))) in
  fst outcome = Normal tt
  /\ console (snd outcome)
     = ["[0] Error: Could not save to history file: "
        +:+ "ENOSPC: no space left on device, write"]
  /\ disk (snd outcome) = Unparsable (mkError "Unexpected end of JSON input").
Proof. cbv zeta. repeat split; vm_compute; reflexivity. Qed.

(** An invariant that reads only fields an update leaves alone is stable
    under that update, by computation. *)
Ltac stable_by_computation :=
  unfold stable; intros; simpl;
  match goal with H : _ |- _ => exact H end.

Lemma saveTransactionToHistory_off (cfg : Config) (E : Env) (operation : Operation)
  (result : Result) (quote : option Quote) (w : World) :
  saveHistory (OPTIONS cfg) = false ->
  saveTransactionToHistory cfg E operation result quote w = (Normal tt, w).
Proof. intros Hoff. unfold saveTransactionToHistory. rewrite Hoff. reflexivity. Qed.

(** With history saving off, a run keeps any invariant that logging,
    sleeping and the calls to the SDK and the endpoint keep. *)
Lemma preserves_main_without_history (cfg : Config) (E : Env) (I : World -> Prop) :
  saveHistory (OPTIONS cfg) = false ->
  (forall line, stable I (push_console line)) ->
  (forall line, stable I (push_stderr line)) ->
  (forall ms, stable I (advance ms)) ->
  stable I count_quote -> stable I count_execution -> stable I count_request ->
  forall w, I w -> I (snd (main cfg E w)).
Proof.
  intros Hoff Hconsole Hstderr Hclock Hquote Hexec Hreq w Hw.
  assert (Hbody : preserves I (mainBody cfg E)).
  { apply preserves_mainBody; try assumption.
    - intros origin id. apply preserves_pollDepositStatus; assumption.
    - intros operation result quote w' Hw'.
      rewrite saveTransactionToHistory_off by assumption. exact Hw'. }
  specialize (Hbody w Hw). unfold main.
  destruct (mainBody cfg E w) as [[[] | e] w']; simpl in *; [exact Hbody |].
  destruct (truthy_string (errorStack E e)); simpl.
  - apply Hstderr, Hconsole, Hbody.
  - apply Hconsole, Hbody.
Qed.

(** C9: with the saveHistory option off, the recorder returns at once and
    leaves the world exactly as it was, for every operation, result and
    quote; and over a whole run, in which the orchestrator calls it for
    every operation, the history file is unchanged and nothing is written. *)
Theorem saveTransactionToHistory_disabled (cfg : Config) (E : Env) :
  saveHistory (OPTIONS cfg) = false ->
  (forall operation result quote w,
     saveTransactionToHistory cfg E operation result quote w = (Normal tt, w))
  /\ (forall w, disk (snd (main cfg E w)) = disk w
                /\ writes (snd (main cfg E w)) = writes w).
Proof.
  intros Hoff. split.
  - intros. apply saveTransactionToHistory_off, Hoff.
  - intros w.
    apply (preserves_main_without_history cfg E
             (fun w' => disk w' = disk w /\ writes w' = writes w) Hoff);
      try stable_by_computation.
    split; reflexivity.
Qed.

Lemma saveTransactionToHistory_disabled_witness :
  disk (snd (main (with_options history_off_options shipped_config)
               (sample_env quote_995 execute_filled always_pending write_succeeds)
               (blank_world (Holds (JArr [JNull])))))
  = Holds (JArr [JNull]).
Proof.
  apply (proj2 (saveTransactionToHistory_disabled
                  (with_options history_off_options shipped_config)
                  (sample_env quote_995 execute_filled always_pending write_succeeds)
                  eq_refl)).
Defined.

(** ** Execution *)

Lemma onProgress_normal (cfg : Config) (E : Env) (operation : Operation) (result : Result)
  (p : Progress) (w : World) :
  exists result', fst (onProgress cfg E operation result p w) = Normal result'.
Proof.
  destruct p as [| tx | | id tx | | [tx |] ts |]; simpl;
    try destruct (fillTimestampText E ts); eexists; reflexivity.
Qed.

Lemma deliver_normal (cfg : Config) (E : Env) (operation : Operation)
  (events : list Progress) :
  forall (result : Result) (w : World),
    exists result', fst (deliver cfg E operation events result w) = Normal result'.
Proof.
  induction events as [| p rest IH]; intros result w; simpl.
  - eexists. reflexivity.
  - unfold bind.
    destruct (onProgress_normal cfg E operation result p w) as [r1 H1].
    destruct (onProgress cfg E operation result p w) as [c w1]. simpl in H1. subst c.
    apply IH.
Qed.

(** The external call throws [e] exactly when the SDK's outcome is [e]. *)
Lemma client_executeQuote_throws (cfg : Config) (E : Env) (operation : Operation)
  (dep : Deposit) (result : Result) (w : World) (e : Error) :
  snd (sdk_executeQuote E (executions w) dep) = Some e ->
  fst (client_executeQuote cfg E operation dep result w) = Throw e.
Proof.
  intros Hout. unfold client_executeQuote.
  destruct (sdk_executeQuote E (executions w) dep) as [events outcome].
  simpl in Hout. subst outcome.
  destruct (deliver_normal cfg E operation events result (count_execution w)) as [r' Hr].
  destruct (deliver cfg E operation events result (count_execution w)) as [c w'].
  simpl in Hr. subst c. reflexivity.
Qed.

(** What [executeQuote] returns when the external call is reached and throws. *)
Lemma executeQuote_failure (cfg : Config) (E : Env) (quote : Quote)
  (operation : Operation) (w : World) (e : Error) :
  is_Some (CHAINS cfg !! pretty (originChainId operation)) ->
  snd (sdk_executeQuote E (executions w) (deposit quote)) = Some e ->
  fst (executeQuote cfg E quote operation w) = Normal (failure (message e)).
Proof.
  intros [chain Hchain] Hout.
  unfold executeQuote, try_catch, bind, createWalletClient. rewrite Hchain.
  simpl.
  pose proof (client_executeQuote_throws cfg E operation (deposit quote) initialResult
                (snd (logWithTime E ("Executing bridge transaction for "
                                     +:+ name operation +:+ "...") w)) e Hout) as Hthrow.
  simpl in Hthrow.
  destruct (client_executeQuote cfg E operation (deposit quote) initialResult _)
    as [c w'].
  simpl in Hthrow. subst c. reflexivity.
Qed.

(** C7: [executeQuote] always completes normally; and when the external
    execution call is reached and raises, what it returns is the result
    with [success = false] and [error] the exception's message. *)
Theorem executeQuote_catches (cfg : Config) (E : Env) (quote : Quote)
  (operation : Operation) (w : World) :
  (exists result, fst (executeQuote cfg E quote operation w) = Normal result)
  /\ (forall e,
        is_Some (CHAINS cfg !! pretty (originChainId operation)) ->
        snd (sdk_executeQuote E (executions w) (deposit quote)) = Some e ->
        exists result,
          fst (executeQuote cfg E quote operation w) = Normal result
          /\ success result = false /\ error result = Some (message e)).
Proof.
  split.
  - apply (returns_executeQuote cfg E (fun _ => True)); unfold stable; intros; exact I.
  - intros e Hchain Hout. exists (failure (message e)).
    split; [apply executeQuote_failure; assumption | split; reflexivity].
Qed.

Lemma executeQuote_catches_witness :
  exists result,
    fst (executeQuote shipped_config
           (sample_env quote_995 execute_reverts always_pending write_succeeds)
           quote_of_example first_operation (blank_world Missing)) = Normal result
    /\ success result = false /\ error result = Some "execution reverted".
Proof.
  apply (proj2 (executeQuote_catches shipped_config
                  (sample_env quote_995 execute_reverts always_pending write_succeeds)
                  quote_of_example first_operation (blank_world Missing))
           (mkError "execution reverted"));
    [vm_compute; eauto | reflexivity].
Defined.

(** ** Hoare triples, for invariants that change along a script *)

Lemma triple_bind {A B : Type} (P : World -> Prop) (Q : A -> World -> Prop)
  (R : B -> World -> Prop) (X : World -> Prop) (m : M A) (k : A -> M B) :
  triple P m Q X -> (forall a, triple (Q a) (k a) R X) -> triple P (bind m k) R X.
Proof.
  intros Hm Hk w Hw. unfold bind. specialize (Hm w Hw).
  destruct (m w) as [[a | e] w']; [apply Hk, Hm | exact Hm].
Qed.

Lemma triple_preserves {A : Type} (I J : World -> Prop) (m : M A) :
  preserves I m -> (forall w, I w -> J w) -> triple I m (fun _ => I) J.
Proof.
  intros Hm HIJ w Hw. specialize (Hm w Hw).
  destruct (m w) as [[a | e] w']; simpl in Hm; auto.
Qed.

Lemma triple_weaken {A : Type} (P P' : World -> Prop) (Q Q' : A -> World -> Prop)
  (X X' : World -> Prop) (m : M A) :
  triple P' m Q' X' ->
  (forall w, P w -> P' w) -> (forall a w, Q' a w -> Q a w) -> (forall w, X' w -> X w) ->
  triple P m Q X.
Proof.
  intros Hm HP HQ HX w Hw. specialize (Hm w (HP w Hw)).
  destruct (m w) as [[a | e] w']; auto.
Qed.

Lemma triple_try_catch {A : Type} (P : World -> Prop) (Q : A -> World -> Prop)
  (X Y : World -> Prop) (m : M A) (h : Error -> M A) :
  triple P m Q Y -> (forall e, triple Y (h e) Q X) -> triple P (try_catch m h) Q X.
Proof.
  intros Hm Hh w Hw. unfold try_catch. specialize (Hm w Hw).
  destruct (m w) as [[a | e] w']; [exact Hm | apply Hh, Hm].
Qed.

(** ** Execution exceptions and polling *)

(** Whenever the SDK's execution call can only throw, [executeQuote]
    returns a bare failure: the one built in its handler. *)
Lemma executeQuote_bare_failure (cfg : Config) (E : Env) (quote : Quote)
  (operation : Operation) (w : World) :
  (forall dep, exists e, snd (sdk_executeQuote E (executions w) dep) = Some e) ->
  exists msg, fst (executeQuote cfg E quote operation w) = Normal (failure msg).
Proof.
  intros Hraise.
  destruct (CHAINS cfg !! pretty (originChainId operation)) as [chain |] eqn:Hchain.
  - destruct (Hraise (deposit quote)) as [e He]. exists (message e).
    apply executeQuote_failure; [rewrite Hchain; eauto | exact He].
  - eexists. unfold executeQuote, try_catch, bind, createWalletClient.
    rewrite Hchain. reflexivity.
Qed.

Lemma pollIfNeeded_failure (cfg : Config) (E : Env) (operation : Operation) (msg : string)
  (w : World) :
  pollIfNeeded cfg E operation (failure msg) w = (Normal (failure msg), w).
Proof. reflexivity. Qed.

Lemma triple_frame {A : Type} (J R : World -> Prop) (m : M A) :
  preserves R m -> (forall w, J w -> R w) -> triple J m (fun _ => R) R.
Proof.
  intros Hm HJR w Hw. specialize (Hm w (HJR w Hw)).
  destruct (m w) as [[a | e] w']; exact Hm.
Qed.

(** C10: when the external execution call raises, [executeQuote] returns
    the bare failure result, which has no deposit id, so the polling block
    leaves it and the world as they are; and an operation whose execution
    call can only raise sends no request to the status endpoint. *)
Theorem execution_exception_skips_polling (cfg : Config) (E : Env)
  (operation : Operation) (w : World) :
  (forall dep, exists e, snd (sdk_executeQuote E (executions w) dep) = Some e) ->
  (forall quote e w',
      executions w' = executions w ->
      is_Some (CHAINS cfg !! pretty (originChainId operation)) ->
      snd (sdk_executeQuote E (executions w) (deposit quote)) = Some e ->
      fst (executeQuote cfg E quote operation w') = Normal (failure (message e)))
  /\ (forall msg,
        depositId (failure msg) = None
        /\ forall w', pollIfNeeded cfg E operation (failure msg) w'
                      = (Normal (failure msg), w'))
  /\ requests (snd (executeBridgeOperation cfg E operation w)) = requests w.
Proof.
  intros Hraise. split; [| split].
  - intros quote e w' Hexec Hchain Hout. apply executeQuote_failure; [exact Hchain |].
    rewrite Hexec. exact Hout.
  - intros msg. split; [reflexivity | intros w'; reflexivity].
  - set (R := fun w' : World => requests w' = requests w).
    set (J := fun w' : World => requests w' = requests w /\ executions w' = executions w).
    assert (HJR : forall w', J w' -> R w') by (intros w' [H _]; exact H).
    assert (Hlog : forall msg, preserves J (logWithTime E msg))
      by (intros; apply preserves_logWithTime; stable_by_computation).
    assert (HlogR : forall msg, preserves R (logWithTime E msg))
      by (intros; apply preserves_logWithTime; stable_by_computation).
    assert (Hsave : forall result quote,
               preserves R (saveTransactionToHistory cfg E operation result quote))
      by (intros; apply preserves_saveTransactionToHistory; stable_by_computation).
    assert (Htry : triple J (executeBridgeOperation_try cfg E operation) (fun _ => R) R).
    { unfold executeBridgeOperation_try.
      do 4 (apply triple_bind with (Q := fun _ => J);
            [apply triple_preserves; [apply Hlog | exact HJR] | intros _]).
      apply triple_bind with (Q := fun _ => J);
        [apply triple_preserves; [| exact HJR] | intros quote].
      { apply preserves_getQuote; stable_by_computation. }
      apply triple_bind with (Q := fun _ => J);
        [apply triple_preserves; [| exact HJR] | intros accepted].
      { apply preserves_quoteExceedsThresholds; stable_by_computation. }
      destruct accepted; simpl negb; cbv iota.
      - destruct (autoExecute (OPTIONS cfg)); simpl negb; cbv iota.
        + apply triple_bind with (Q := fun _ => J);
            [apply triple_preserves; [apply preserves_when, Hlog | exact HJR] | intros _].
          apply triple_bind
            with (Q := fun r w' => (exists msg, r = failure msg) /\ R w').
          * intros w' [Hreq Hexec].
            assert (Hraise' : forall dep,
                       exists e, snd (sdk_executeQuote E (executions w') dep) = Some e)
              by (rewrite Hexec; exact Hraise).
            destruct (executeQuote_bare_failure cfg E quote operation w' Hraise')
              as [msg Hmsg].
            pose proof (preserves_executeQuote cfg E R ltac:(stable_by_computation)
                          ltac:(stable_by_computation) quote operation w' Hreq) as HR.
            destruct (executeQuote cfg E quote operation w') as [c w''].
            simpl in Hmsg, HR. subst c. split; [eauto | exact HR].
          * intros r w' [[msg ->] HR].
            assert (Hrest : preserves R
                      (result <- pollIfNeeded cfg E operation (failure msg);;
                       saveTransactionToHistory cfg E operation result (Some quote);;
                       when (onExecutionComplete (notifications (MONITORING cfg)))
                         (logWithTime E
                            ("Notification: Operation " +:+ name operation
                             +:+ " completed with status: "
                             +:+ (if success result then "Success" else "Failed")));;
                       ret (success result))%js).
            { apply preserves_bind; [intros w1 H1; exact H1 | intros result].
              frame. }
            specialize (Hrest w' HR).
            match goal with
            | |- match ?m w' with _ => _ end =>
                destruct (m w') as [[a | e] w'']; exact Hrest
            end.
        + apply triple_frame; [| exact HJR]. frame.
      - apply triple_frame; [| exact HJR]. frame. }
    assert (Hcatch : forall e,
               triple R (executeBridgeOperation_catch cfg E operation e) (fun _ => R) R).
    { intros e. apply triple_frame; [| auto].
      unfold executeBridgeOperation_catch. frame. }
    pose proof (triple_try_catch J (fun _ => R) R R _ _ Htry Hcatch w
                  (conj eq_refl eq_refl)) as Hall.
    unfold executeBridgeOperation.
    destruct (try_catch _ _ w) as [[b | e] w']; exact Hall.
Qed.

Lemma execution_exception_skips_polling_witness :
  requests (snd (executeBridgeOperation shipped_config
                   (sample_env quote_995 execute_reverts always_pending write_succeeds)
                   first_operation (blank_world Missing))) = 0%nat.
Proof.
  apply (execution_exception_skips_polling shipped_config
           (sample_env quote_995 execute_reverts always_pending write_succeeds)
           first_operation (blank_world Missing)).
  intros dep. eexists. reflexivity.
Defined.

(** ** Isolation of operations *)

Lemma returns_save_safe (cfg : Config) (E : Env) (operation : Operation)
  (result : Result) (quote : option Quote) :
  returns (recorder_safe cfg) (saveTransactionToHistory cfg E operation result quote).
Proof.
  intros w Hsafe. exists tt.
  destruct (saveHistory (OPTIONS cfg)) eqn:Hsave.
  - destruct Hsafe as [Hoff | Happ]; [congruence |].
    destruct (saveTransactionToHistory_appendable cfg E operation result quote w Hsave Happ)
      as (items & w1 & extra & w2 & _ & _ & _ & Heq).
    rewrite Heq.
    destruct (fs_writeFileSync E (writes w) (historyFile (OPTIONS cfg)))
      as [[e aftermath] |]; [| destruct (verboseLogging (OPTIONS cfg))]; reflexivity.
  - rewrite saveTransactionToHistory_off by assumption. reflexivity.
Qed.

Lemma preserves_save_safe (cfg : Config) (E : Env) (operation : Operation)
  (result : Result) (quote : option Quote) :
  preserves (recorder_safe cfg) (saveTransactionToHistory cfg E operation result quote).
Proof.
  intros w Hsafe.
  destruct (saveHistory (OPTIONS cfg)) eqn:Hsave.
  - destruct Hsafe as [Hoff | Happ]; [congruence |]. right.
    destruct (saveTransactionToHistory_appendable cfg E operation result quote w Hsave Happ)
      as (items & w1 & extra & w2 & _ & (Hd1 & _) & (Hd2 & _) & Heq).
    rewrite Heq.
    destruct (fs_writeFileSync E (writes w) (historyFile (OPTIONS cfg)))
      as [[e [| parseError |]] |].
    + simpl. rewrite Hd2, Hd1. exact Happ.
    + exact I.
    + exact I.
    + destruct (verboseLogging (OPTIONS cfg)); exact I.
  - left. exact Hsave.
Qed.

Lemma preserves_poll_safe (cfg : Config) (E : Env) (origin : N) (id : Z) :
  preserves (recorder_safe cfg) (pollDepositStatus cfg E origin id).
Proof. apply preserves_pollDepositStatus; stable_by_computation. Qed.

(** Under [recorder_safe] an operation returns, and keeps [recorder_safe]. *)
Lemma executeBridgeOperation_safe (cfg : Config) (E : Env) (operation : Operation)
  (w : World) :
  recorder_safe cfg w ->
  (exists b, fst (executeBridgeOperation cfg E operation w) = Normal b)
  /\ recorder_safe cfg (snd (executeBridgeOperation cfg E operation w)).
Proof.
  intros Hsafe. split.
  - apply (returns_executeBridgeOperation cfg E (recorder_safe cfg));
      try stable_by_computation; try exact Hsafe.
    + apply preserves_poll_safe.
    + intros. apply preserves_save_safe.
    + intros. apply returns_save_safe.
  - apply (preserves_executeBridgeOperation cfg E (recorder_safe cfg));
      try stable_by_computation; try exact Hsafe.
    + apply preserves_poll_safe.
    + intros. apply preserves_save_safe.
Qed.

Lemma runOperations_run_all (cfg : Config) (E : Env) (operations : list Operation) :
  forall w, recorder_safe cfg w ->
    runOperations cfg E operations w = (Normal tt, run_all cfg E operations w)
    /\ recorder_safe cfg (run_all cfg E operations w).
Proof.
  induction operations as [| op rest IH]; intros w Hsafe.
  - split; [reflexivity | exact Hsafe].
  - destruct (executeBridgeOperation_safe cfg E op w Hsafe) as [[b Hb] Hsafe'].
    simpl. unfold bind.
    destruct (executeBridgeOperation cfg E op w) as [c w'] eqn:Hop.
    simpl in Hb, Hsafe'. subst c. apply IH, Hsafe'.
Qed.

Lemma listOperations_normal (cfg : Config) (E : Env) (operations : list Operation) :
  forall index w, fst (listOperations cfg E index operations w) = Normal tt.
Proof.
  induction operations as [| op rest IH]; intros index w; simpl; [reflexivity |].
  unfold bind, logWithTime. apply IH.
Qed.

Lemma announced_safe (cfg : Config) (E : Env) (w : World) :
  recorder_safe cfg w -> recorder_safe cfg (announced cfg E w).
Proof.
  intros Hsafe. unfold announced.
  pose proof (preserves_logWithTime E (recorder_safe cfg)
                ltac:(stable_by_computation)) as Hlog.
  pose proof (preserves_listOperations cfg E (recorder_safe cfg)
                ltac:(stable_by_computation)) as Hlist.
  assert (H : preserves (recorder_safe cfg)
                (logWithTime E "Starting Across Bridge Automation";;
                 logWithTime E ("Using account: " +:+ accountAddress E);;
                 logWithTime E ("Found " +:+ pretty (length (enabledOperations cfg))
                                +:+ " enabled operations:");;
                 listOperations cfg E 0 (enabledOperations cfg))%js) by frame.
  apply H, Hsafe.
Qed.

Lemma mainBody_run_all (cfg : Config) (E : Env) (w : World) :
  recorder_safe cfg w ->
  enabledOperations cfg <> [] ->
  mainBody cfg E w
  = (Normal tt,
     snd (logWithTime E "All operations completed. Exiting."
            (run_all cfg E (enabledOperations cfg) (announced cfg E w)))).
Proof.
  intros Hsafe Hsome.
  pose proof (announced_safe cfg E w Hsafe) as Hsafe0.
  pose proof (runOperations_run_all cfg E (enabledOperations cfg)) as Hrun.
  unfold mainBody, announced in *.
  destruct (enabledOperations cfg) as [| op rest] eqn:Hops; [congruence |].
  change (Nat.eqb (length (op :: rest)) 0) with false. cbv iota.
  pose proof (listOperations_normal cfg E (op :: rest) 0) as Hlist.
  remember (listOperations cfg E 0 (op :: rest)) as listing eqn:Hlisting.
  remember (runOperations cfg E (op :: rest)) as running eqn:Hrunning.
  cbv beta iota delta [bind logWithTime snd] in Hsafe0 |- *.
  match goal with
  | |- context [listing ?w0] =>
      specialize (Hlist w0); destruct (listing w0) as [c w1]
  end.
  simpl in Hlist. subst c.
  destruct (Hrun w1 Hsafe0) as [Hrun1 _]. rewrite Hrun1. reflexivity.
Qed.

Lemma logged_stable_console (msg line : string) :
  stable (logged msg) (push_console line).
Proof. intros w H. apply logged_push, H. Qed.

(** Closes a conjunction of closed equations by evaluating each side. *)
Ltac by_evaluation :=
  repeat match goal with |- _ /\ _ => split end; vm_compute; reflexivity.

(** A status request that fails is caught and logged inside the poller,
    and the poll is retried: here the second request says filled, and the
    operation is recorded as a success. *)
Example polling_error_is_retried :
  let run :=
    main shipped_config
      (sample_env quote_995 (execute_deposited 7) unreachable_then_filled write_succeeds)
      (blank_world Missing) in
  fst run = Returned
  /\ existsb (String.eqb "[0] Error polling deposit status: Network Error")
       (console (snd run)) = true
  /\ disk (snd run)
     = Holds (JArr [historyRecord "10000" first_operation
                      {| success := true; depositId := Some 7;
                         originTxHash := Some "0x5678"; destinationTxHash := None;
                         error := None |}
                      [("outputAmount", JStr "995000000000000e-18");
                       ("fees", JObj [("relayFee", JStr "4000000000000e-18");
                                      ("lpFee", JStr "1000000000000e-18")])]]).
Proof. cbv zeta. by_evaluation. Qed.

(** X6: while the recorder cannot raise (history saving is off, or the
    history file is missing, unreadable, unparsable or holds an array), every
    operation returns and leaves the recorder so.  The execution driver
    returns whatever the execution call throws, and a failed polling
    request is logged and retried inside the poller, so neither reaches the
    operation's handler; the threshold evaluation throws nothing once
    quoting has returned.  An error thrown by quoting leaves the
    operation's [try] block; whatever error leaves it is caught by the
    handler, which logs it, hands the recorder a failed result carrying the
    message and no quote, and returns false.  So [main] returns, having run
    every enabled operation in order, each from the world the previous one
    left. *)
Theorem operations_isolated (cfg : Config) (E : Env) (w : World) :
  recorder_safe cfg w ->
  (forall operation,
      (exists b, fst (executeBridgeOperation cfg E operation w) = Normal b)
      /\ recorder_safe cfg (snd (executeBridgeOperation cfg E operation w)))
  /\ (forall quote operation w',
        exists result, fst (executeQuote cfg E quote operation w') = Normal result)
  /\ (forall attempts origin id w' e,
        axios_get E (requests w') (statusUrl origin id) = RequestError e ->
        fst (pollOnce cfg E attempts origin id w') = Normal None
        /\ logged ("Error polling deposit status: " +:+ message e)
             (snd (pollOnce cfg E attempts origin id w')))
  /\ (forall operation e w',
        getQuote cfg E operation (started cfg E operation w) = (Throw e, w') ->
        executeBridgeOperation_try cfg E operation w = (Throw e, w'))
  /\ (forall operation quote w' w'',
        fst (getQuote cfg E operation w') = Normal quote ->
        exists accepted,
          fst (quoteExceedsThresholds cfg E quote operation w'') = Normal accepted)
  /\ (forall operation quote e w1 w2,
        getQuote cfg E operation (started cfg E operation w) = (Normal quote, w1) ->
        quoteExceedsThresholds cfg E quote operation w1 = (Normal true, w2) ->
        autoExecute (OPTIONS cfg) = true ->
        is_Some (CHAINS cfg !! pretty (originChainId operation)) ->
        snd (sdk_executeQuote E (executions w2) (deposit quote)) = Some e ->
        executeBridgeOperation_try cfg E operation w
        = (saveTransactionToHistory cfg E operation (failure (message e)) (Some quote);;
           when (onExecutionComplete (notifications (MONITORING cfg)))
             (logWithTime E ("Notification: Operation " +:+ name operation
                             +:+ " completed with status: Failed"));;
           ret false)%js
            (snd (executeQuote cfg E quote operation
                    (snd (when (onExecutionStart (notifications (MONITORING cfg)))
                            (logWithTime E
                               ("Notification: Starting execution of operation "
                                +:+ name operation)) w2)))))
  /\ (forall operation e w',
        executeBridgeOperation_try cfg E operation w = (Throw e, w') ->
        fst (executeBridgeOperation cfg E operation w) = Normal false
        /\ logged ("Error executing bridge operation: " +:+ message e)
             (snd (executeBridgeOperation cfg E operation w))
        /\ snd (executeBridgeOperation cfg E operation w)
           = snd (saveTransactionToHistory cfg E operation (failure (message e)) None
                    (reported cfg E operation e w')))
  /\ fst (main cfg E w) = Returned
  /\ (enabledOperations cfg <> [] ->
      snd (main cfg E w)
      = snd (logWithTime E "All operations completed. Exiting."
               (run_all cfg E (enabledOperations cfg) (announced cfg E w)))).
Proof.
  intros Hsafe.
  split; [| split; [| split; [| split; [| split; [| split; [| split; [| split]]]]]]].
  - intros operation. apply executeBridgeOperation_safe, Hsafe.
  - intros quote operation w'.
    apply (returns_executeQuote cfg E (fun _ => True)); unfold stable; intros; exact I.
  - intros attempts origin id w' e Hget.
    unfold pollOnce, try_catch, bind, axiosGet. rewrite Hget. simpl.
    split; [reflexivity |].
    exists (toLocaleTimeString E (now w')). left. reflexivity.
  - intros operation e w' Hquote.
    unfold executeBridgeOperation_try, started in *.
    cbv beta iota delta [bind logWithTime snd] in Hquote |- *.
    rewrite Hquote. reflexivity.
  - intros operation quote w' w'' Hquote.
    rewrite quoteExceedsThresholds_result.
    unfold getQuote, try_catch in Hquote. cbv zeta in Hquote.
    unfold bind at 1, lift at 1 in Hquote.
    destruct (parseUnits E (inputAmount operation) (effectiveDecimals cfg operation))
      as [parsed | e]; [eauto | discriminate Hquote].
  - intros operation quote e w1 w2 Hquote Hcheck Hauto Hchain Hout.
    unfold executeBridgeOperation_try, started in *.
    cbv beta iota delta [bind logWithTime snd] in Hquote |- *.
    rewrite Hquote, Hcheck, Hauto. change (negb true) with false. cbv beta iota.
    assert (Hfail : forall w3, executions w3 = executions w2 ->
               fst (executeQuote cfg E quote operation w3) = Normal (failure (message e))).
    { intros w3 H3. apply executeQuote_failure; [exact Hchain | rewrite H3; exact Hout]. }
    destruct (onExecutionStart (notifications (MONITORING cfg)));
      cbv beta iota delta [when ret logWithTime snd];
      match goal with
      | |- context [executeQuote cfg E quote operation ?w3] =>
          specialize (Hfail w3 eq_refl);
          destruct (executeQuote cfg E quote operation w3) as [c w4]
      end;
      simpl in Hfail; subst c; reflexivity.
  - intros operation e w' Htry.
    assert (Hsafe' : recorder_safe cfg w').
    { pose proof (preserves_executeBridgeOperation_try cfg E (recorder_safe cfg)
                    ltac:(stable_by_computation) ltac:(stable_by_computation)
                    ltac:(stable_by_computation) (preserves_poll_safe cfg E)
                    (preserves_save_safe cfg E) operation w Hsafe) as H.
      rewrite Htry in H. exact H. }
    assert (Hsafe2 : recorder_safe cfg (reported cfg E operation e w')).
    { unfold reported. destruct (onError (notifications (MONITORING cfg))); exact Hsafe'. }
    assert (Hlogged : logged ("Error executing bridge operation: " +:+ message e)
                        (reported cfg E operation e w')).
    { unfold reported.
      destruct (onError (notifications (MONITORING cfg)));
        [apply logged_push |]; apply logged_logWithTime. }
    destruct (returns_save_safe cfg E operation (failure (message e)) None _ Hsafe2)
      as [[] Hret].
    pose proof (preserves_saveTransactionToHistory cfg E
                  (logged ("Error executing bridge operation: " +:+ message e))
                  (logged_stable_console _) ltac:(stable_by_computation)
                  ltac:(stable_by_computation) operation (failure (message e)) None
                  _ Hlogged) as Hkeeps.
    unfold executeBridgeOperation, try_catch. rewrite Htry.
    unfold executeBridgeOperation_catch, reported in *.
    destruct (onError (notifications (MONITORING cfg)));
      cbv beta iota delta [bind logWithTime snd when ret] in Hret, Hkeeps |- *;
      match goal with
      | |- context [saveTransactionToHistory cfg E operation ?r None ?w0] =>
          destruct (saveTransactionToHistory cfg E operation r None w0) as [c w3]
      end;
      simpl in Hret; subst c; repeat split; exact Hkeeps.
  - assert (Hret : returns (recorder_safe cfg) (mainBody cfg E)).
    { apply returns_mainBody; try stable_by_computation.
      - apply preserves_poll_safe.
      - intros. apply preserves_save_safe.
      - intros. apply returns_save_safe. }
    destruct (Hret w Hsafe) as [[] Hbody]. unfold main.
    destruct (mainBody cfg E w) as [c w']. simpl in Hbody. subst c. reflexivity.
  - intros Hsome. unfold main. rewrite (mainBody_run_all cfg E w Hsafe Hsome). reflexivity.
Qed.

Lemma operations_isolated_witness :
  fst (main (with_operations [first_operation; operation_of_example] shipped_config)
         (sample_env quote_unavailable execute_filled always_pending write_succeeds)
         (blank_world Missing)) = Returned.
Proof.
  apply (operations_isolated
           (with_operations [first_operation; operation_of_example] shipped_config)
           (sample_env quote_unavailable execute_filled always_pending write_succeeds)
           (blank_world Missing)).
  right. exact I.
Defined.

(** ** The polling guard *)

(** X1: the guard polls for a result that is not yet successful and whose
    deposit id is not 0, and then upgrades the result exactly when the poll
    says so; a result that is successful or has no deposit id is left as it
    is, with no request sent. *)
Lemma pollIfNeeded_guard (cfg : Config) (E : Env) (operation : Operation)
  (result : Result) (w : World) :
  (forall id,
      depositId result = Some id -> id <> 0 -> success result = false ->
      pollIfNeeded cfg E operation result w
      = match pollDepositStatus cfg E (originChainId operation) id w with
        | (Normal true, w') => (Normal (with_success result), w')
        | (Normal false, w') => (Normal result, w')
        | (Throw e, w') => (Throw e, w')
        end)
  /\ (success result = true \/ depositId result = None ->
      pollIfNeeded cfg E operation result w = (Normal result, w)).
Proof.
  unfold pollIfNeeded. split.
  - intros id Hid Hnz Hs. rewrite Hid, Hs. unfold truthy_int.
    destruct (Z.eqb_spec id 0) as [| _]; [contradiction |]. simpl. unfold bind.
    destruct (pollDepositStatus cfg E (originChainId operation) id w) as [[[|] | e] w'];
      reflexivity.
  - intros [Hs | Hnone]; [rewrite Hs | rewrite Hnone; reflexivity].
    destruct (depositId result) as [id |]; [| reflexivity].
    rewrite andb_false_r. reflexivity.
Qed.

Lemma pollIfNeeded_guard_witness :
  pollIfNeeded shipped_config
    (sample_env quote_995 (execute_deposited 7) (answers ["filled"]) write_succeeds)
    first_operation
    {| success := true; depositId := Some 7; originTxHash := Some "0x5678";
       destinationTxHash := None; error := None |}
    (blank_world Missing)
  = (Normal {| success := true; depositId := Some 7; originTxHash := Some "0x5678";
               destinationTxHash := None; error := None |},
     blank_world Missing).
Proof.
  apply (proj2 (pollIfNeeded_guard shipped_config
                  (sample_env quote_995 (execute_deposited 7) (answers ["filled"])
                     write_succeeds)
                  first_operation
                  {| success := true; depositId := Some 7; originTxHash := Some "0x5678";
                     destinationTxHash := None; error := None |}
                  (blank_world Missing))).
  left. reflexivity.
Defined.

(** C8, where the code departs from it: a captured deposit id of 0 is
    falsy, so the guard passes it over.  The deposit is captured and not
    yet successful, the endpoint would answer filled, yet no request is
    sent and the operation ends as failed.  With any other id, here 7, the
    same run polls once and succeeds. *)
Lemma deposit_zero_is_never_polled :
  fst (executeQuote shipped_config
         (sample_env quote_995 (execute_deposited 0) (answers ["filled"]) write_succeeds)
         quote_of_example first_operation (blank_world Missing))
  = Normal {| success := false; depositId := Some 0; originTxHash := Some "0x5678";
              destinationTxHash := None; error := None |}
  /\ executeBridgeOperation shipped_config
       (sample_env quote_995 (execute_deposited 0) (answers ["filled"]) write_succeeds)
       first_operation (blank_world Missing)
     = (Normal false,
        snd (executeBridgeOperation shipped_config
               (sample_env quote_995 (execute_deposited 0) (answers ["filled"])
                  write_succeeds)
               first_operation (blank_world Missing)))
  /\ requests (snd (executeBridgeOperation shipped_config
                      (sample_env quote_995 (execute_deposited 0) (answers ["filled"])
                         write_succeeds)
                      first_operation (blank_world Missing))) = 0%nat
  /\ fst (executeBridgeOperation shipped_config
            (sample_env quote_995 (execute_deposited 7) (answers ["filled"]) write_succeeds)
            first_operation (blank_world Missing)) = Normal true
  /\ requests (snd (executeBridgeOperation shipped_config
                      (sample_env quote_995 (execute_deposited 7) (answers ["filled"])
                         write_succeeds)
                      first_operation (blank_world Missing))) = 1%nat.
Proof. by_evaluation. Qed.

(** ** A history file that holds JSON other than an array *)

(** X2: with the history file holding [{}], the first operation bridges and
    is confirmed filled, but [history.push] throws in the recorder; the handler
    catches that, calls the recorder again, which throws again, and the
    error leaves [executeBridgeOperation]: [main] exits with code 1 and the
    second enabled operation is never quoted. *)
Lemma history_object_ends_the_run :
  let run :=
    main (with_operations [first_operation; operation_of_example] shipped_config)
      (sample_env quote_995 execute_filled always_pending write_succeeds)
      (blank_world (Holds (JObj []))) in
  fst run = ProcessExit 1
  /\ existsb (String.eqb "[0] Bridge complete! Funds received on Arbitrum")
       (console (snd run)) = true
  /\ existsb (String.eqb "[0] Fatal error: history.push is not a function")
       (console (snd run)) = true
  /\ quotes (snd run) = 1%nat
  /\ disk (snd run) = Holds (JObj []).
Proof. cbv zeta. by_evaluation. Qed.

(** The same run over a history file that holds an array completes, and
    quotes both operations. *)
Lemma history_array_lets_the_run_complete :
  let run :=
    main (with_operations [first_operation; operation_of_example] shipped_config)
      (sample_env quote_995 execute_filled always_pending write_succeeds)
      (blank_world (Holds (JArr []))) in
  fst run = Returned /\ quotes (snd run) = 2%nat.
Proof. cbv zeta. by_evaluation. Qed.

(** ** The shipped registry *)

Lemma string_length_app (s t : string) :
  String.length (s +:+ t) = (String.length s + String.length t)%nat.
Proof. induction s as [| c s IH]; simpl; [reflexivity | rewrite IH; reflexivity]. Qed.

Lemma string_app_prefix (s t : string) : substring 0 (String.length s) (s +:+ t) = s.
Proof.
  induction s as [| c s IH]; simpl.
  - destruct t; reflexivity.
  - rewrite IH. reflexivity.
Qed.

(** The chain id rendering that a bridged-variant key carries. *)
Lemma bridgedKey_chain (chain : N) (key : string) :
  bridgedKey chain = key ->
  String.length key = (String.length (pretty chain) + 8)%nat
  /\ pretty chain = substring 0 (String.length key - 8) key.
Proof.
  intros <-. unfold bridgedKey. rewrite string_length_app. simpl String.length.
  split; [reflexivity |].
  replace (String.length (pretty chain) + 8 - 8)%nat with (String.length (pretty chain))
    by lia.
  symmetry. apply string_app_prefix.
Qed.

(** In the shipped registry only USDC lists bridged variants, and every
    chain with a bridged USDC also lists the plain one. *)
Lemma shipped_bridged_entries (sym : string) (chain : N) (a : string) :
  tokenEntry shipped_config sym (bridgedKey chain) = Some a ->
  sym = "USDC" /\ exists p, tokenEntry shipped_config "USDC" (pretty chain) = Some p.
Proof.
  unfold tokenEntry at 1. simpl TOKENS. unfold shipped_tokens.
  destruct (list_to_map _ !! sym) as [m |] eqn:Hm; [| discriminate].
  apply elem_of_list_to_map_2 in Hm.
  destruct (m !! bridgedKey chain) as [addr |] eqn:Ha; [| discriminate]. intros _.
  repeat (apply elem_of_cons in Hm as [Hm | Hm]);
    try (apply elem_of_nil in Hm; contradiction);
    injection Hm as -> ->;
    unfold shipped_eth, shipped_usdc, shipped_usdt, shipped_wbtc in Ha;
    apply elem_of_list_to_map_2 in Ha;
    repeat (apply elem_of_cons in Ha as [Ha | Ha]);
    try (apply elem_of_nil in Ha; contradiction);
    injection Ha as Hkey _;
    apply bridgedKey_chain in Hkey as [Hlen Hchain];
    simpl in Hlen; try lia.
  all: split; [reflexivity |].
  all: rewrite Hchain; vm_compute; eauto.
Qed.

(** X3: over the shipped registry the resolution rule of the specification
    and the code agree, for every symbol, chain id and flag. *)
Lemma shipped_registry_resolves_as_specified (sym : string) (chain : N) (flag : bool) :
  resolveTokenAddress_as_specified shipped_config sym chain flag.
Proof.
  pose proof (shipped_bridged_entries sym chain) as Hshipped.
  unfold resolveTokenAddress_as_specified, getTokenAddress. rewrite existsb_usdc.
  destruct (tokenEntry shipped_config sym (bridgedKey chain)) as [b |] eqn:Hb.
  - destruct (Hshipped b eq_refl) as [-> [p Hp]]. rewrite Hp.
    destruct flag; simpl; repeat split; intros;
      repeat match goal with
             | H : _ \/ _ |- _ => destruct H
             | H : _ /\ _ |- _ => destruct H
             | H : exists _, _ |- _ => destruct H
             end; congruence.
  - destruct (tokenEntry shipped_config sym (pretty chain)) as [p |] eqn:Hp;
      destruct flag, (String.eqb sym "USDC"); simpl; repeat split; intros;
      repeat match goal with
             | H : _ \/ _ |- _ => destruct H
             | H : _ /\ _ |- _ => destruct H
             | H : exists _, _ |- _ => destruct H
             end; try congruence; eauto.
Qed.

(** X4: the same quote against a fill-time threshold of 30 seconds is
    rejected, although its output percentage passes. *)
Lemma quoteExceedsThresholds_rejects_slow_fill :
  fst (quoteExceedsThresholds
         {| BRIDGE_OPERATIONS := shipped_operations;
            THRESHOLDS := {| minOutputPercentage := num_0_995; maxFillTimeSeconds := 30 |};
            MONITORING := shipped_monitoring; TOKENS := shipped_tokens;
            CHAINS := shipped_chains; TOKEN_DECIMALS := shipped_token_decimals;
            OPTIONS := shipped_options |}
         (sample_env quote_995 execute_filled always_pending write_succeeds)
         quote_of_example operation_of_example (blank_world Missing))
  = Normal false.
Proof. vm_compute. reflexivity. Qed.

(** X5: the comparison is one of Numbers.  For an input of 1 at 18 decimals
    the output 994999999999999995 becomes, as a Number, 995000000000000000,
    and the quote is accepted at the threshold 0.995, although in exact
    arithmetic output / input is below the value of that threshold. *)
Lemma quoteExceedsThresholds_rounds_before_comparing :
  fst (quoteExceedsThresholds shipped_config
         (sample_env quote_995 execute_filled always_pending write_succeeds)
         {| deposit := {| deposit_inputAmount := 10 ^ 18;
                          deposit_outputAmount := 994999999999999995 |};
            estimatedFillTimeSec := 45;
            fees := None |}
         {| name := "ETH Arbitrum to Optimism"; enabled := true; tokenSymbol := "ETH";
            originChainId := 42161; destinationChainId := 10; inputAmount := "1";
            decimals := Some 18%nat; useNativeToken := Some true |}
         (blank_world Missing))
  = Normal true
  /\ Number 994999999999999995 = Number 995000000000000000
  /\ minOutputPercentage (THRESHOLDS shipped_config)
     = S754_finite false 8962163258467287 (-53)
  /\ 994999999999999995 * 2 ^ 53 < 8962163258467287 * 10 ^ 18.
Proof. by_evaluation. Qed.

(** ** What a run spends *)

Section Spending.
Context (cfg : Config) (E : Env) (w0 : World).

Lemma spent_refl : spent cfg 0 0 0 0 0 w0 w0.
Proof. unfold spent. repeat split; lia. Qed.

Lemma spent_console (q e r k s : nat) (line : string) :
  stable (spent cfg q e r k s w0) (push_console line).
Proof. intros w H. exact H. Qed.

Lemma spent_disk (q e r k s : nat) (d : FileState) :
  stable (spent cfg q e r k s w0) (set_disk d).
Proof. intros w H. exact H. Qed.

Lemma spent_quote (q e r k s : nat) (w : World) :
  spent cfg q e r k s w0 w -> spent cfg (S q) e r k s w0 (count_quote w).
Proof. unfold spent. simpl. intros (? & ? & ? & ? & ?). repeat split; lia. Qed.

Lemma spent_execution (q e r k s : nat) (w : World) :
  spent cfg q e r k s w0 w -> spent cfg q (S e) r k s w0 (count_execution w).
Proof. unfold spent. simpl. intros (? & ? & ? & ? & ?). repeat split; lia. Qed.

Lemma spent_write (q e r k s : nat) (w : World) :
  spent cfg q e r k s w0 w -> spent cfg q e r (S k) s w0 (count_write w).
Proof. unfold spent. simpl. intros (? & ? & ? & ? & ?). repeat split; lia. Qed.

(** The logging steps and the pure ones keep what was spent. *)
Lemma spent_logWithTime (q e r k s : nat) (msg : string) :
  preserves (spent cfg q e r k s w0) (logWithTime E msg).
Proof. apply preserves_logWithTime, spent_console. Qed.

(** Quoting: one quote when it returns, one at most when it throws. *)
Lemma getQuote_spends (operation : Operation) :
  triple (spent cfg 0 0 0 0 0 w0) (getQuote cfg E operation)
    (fun _ => spent cfg 1 0 0 0 0 w0)
    (fun w => spent cfg 0 0 0 0 0 w0 w \/ spent cfg 1 0 0 0 0 w0 w).
Proof.
  assert (Hlog : forall q msg, preserves (spent cfg q 0 0 0 0 w0) (logWithTime E msg))
    by (intros; apply spent_logWithTime).
  unfold getQuote. cbv zeta.
  apply triple_try_catch
    with (Y := fun w => spent cfg 0 0 0 0 0 w0 w \/ spent cfg 1 0 0 0 0 w0 w).
  - apply triple_bind with (Q := fun _ => spent cfg 0 0 0 0 0 w0);
      [apply triple_preserves; [apply preserves_lift | auto] | intros parsedAmount].
    apply triple_bind with (Q := fun _ => spent cfg 0 0 0 0 0 w0);
      [apply triple_preserves; [apply preserves_lift | auto] | intros route].
    apply triple_bind with (Q := fun _ => spent cfg 0 0 0 0 0 w0);
      [apply triple_preserves; [apply preserves_when, Hlog | auto] | intros _].
    apply triple_bind with (Q := fun _ => spent cfg 1 0 0 0 0 w0).
    + intros w H. unfold client_getQuote.
      destruct (sdk_getQuote E (quotes w) route parsedAmount);
        [| right]; apply spent_quote, H.
    + intros quote. apply triple_preserves; [| auto].
      apply preserves_bind; [| intros; apply preserves_ret].
      apply preserves_when, preserves_logQuoteDetails, spent_console.
  - intros error.
    apply triple_bind with (Q := fun _ w => spent cfg 0 0 0 0 0 w0 w \/ spent cfg 1 0 0 0 0 w0 w).
    + intros w [H | H]; [left | right]; exact H.
    + intros _ w H. exact H.
Qed.

(** The recorder: one write at most when it returns, none when it throws. *)
Lemma saveTransactionToHistory_spends (q e r s : nat) (operation : Operation)
  (result : Result) (quote : option Quote) :
  triple (spent cfg q e r 0 s w0) (saveTransactionToHistory cfg E operation result quote)
    (fun _ w => spent cfg q e r 0 s w0 w \/ spent cfg q e r 1 s w0 w)
    (spent cfg q e r 0 s w0).
Proof.
  intros w H.
  destruct (saveHistory (OPTIONS cfg)) eqn:Hsave.
  - destruct (saveTransactionToHistory_steps cfg E operation result quote w Hsave)
      as (history & w1 & extra & w2 & Hread & Hout & Hon & Heq).
    rewrite Heq.
    assert (H1 : spent cfg q e r 0 s w0 w1).
    { pose proof (preserves_readHistory cfg E _ (spent_console q e r 0 s) w H) as Hp.
      rewrite Hread in Hp. exact Hp. }
    assert (H2 : spent cfg q e r 0 s w0 w2).
    { pose proof (preserves_outputFields cfg E _ (spent_console q e r 0 s)
                    operation quote w1 H1) as Hp.
      rewrite Hout in Hp. exact Hp. }
    destruct history; try exact H2.
    cbv beta iota delta [push ret].
    destruct (fs_writeFileSync E (writes w2) (historyFile (OPTIONS cfg)))
      as [[e' [| parseError |]] |]; [| | | destruct (verboseLogging (OPTIONS cfg))];
      right; apply spent_write, H2.
  - rewrite saveTransactionToHistory_off by assumption. left. exact H.
Qed.

End Spending.

Lemma spent_trans (cfg : Config) (q e r k s q' e' r' k' s' : nat) (w0 w1 w2 : World) :
  spent cfg q e r k s w0 w1 -> spent cfg q' e' r' k' s' w1 w2 ->
  spent cfg (q + q') (e + e') (r + r') (k + k') (s + s') w0 w2.
Proof.
  unfold spent. intros (? & ? & ? & ? & ?) (? & ? & ? & ? & ?).
  repeat split; lia.
Qed.

(** The counters a poll leaves alone. *)
Definition poll_frame (w0 w : World) : Prop :=
  quotes w = quotes w0 /\ executions w = executions w0 /\ writes w = writes w0.

Lemma pollOnce_spends (cfg : Config) (E : Env) (attempts : nat) (origin : N) (id : Z)
  (w : World) :
  exists outcome s,
    fst (pollOnce cfg E attempts origin id w) = Normal outcome
    /\ spent cfg 0 0 1 0 s w (snd (pollOnce cfg E attempts origin id w))
    /\ (s <= 1)%nat.
Proof.
  destruct (pollOnce_spec cfg E attempts origin id w) as (Hfst & Hreq & Hnow).
  cbv zeta in Hfst, Hreq, Hnow.
  assert (Hframe : poll_frame w (snd (pollOnce cfg E attempts origin id w))).
  { apply (preserves_pollOnce cfg E (poll_frame w)); try stable_by_computation.
    repeat split. }
  destruct Hframe as (Hq & He & Hk).
  exists (settles (axios_get E (requests w) (statusUrl origin id))).
  exists (match settles (axios_get E (requests w) (statusUrl origin id)) with
          | None => 1%nat | Some _ => 0%nat end).
  split; [exact Hfst |]. split.
  - unfold spent. rewrite Hq, He, Hk, Hreq, Hnow.
    destruct (settles _); repeat split; lia.
  - destruct (settles _); lia.
Qed.

Lemma pollLoop_spends (cfg : Config) (E : Env) (origin : N) (id : Z) (remaining : nat) :
  forall (attempts : nat) (w : World),
    exists b r s,
      fst (pollLoop cfg E remaining attempts origin id w) = Normal b
      /\ spent cfg 0 0 r 0 s w (snd (pollLoop cfg E remaining attempts origin id w))
      /\ (r <= remaining)%nat /\ (s <= r)%nat.
Proof.
  induction remaining as [| n IH]; intros attempts w.
  - exists false, 0%nat, 0%nat. simpl.
    split; [reflexivity | split; [apply spent_console, spent_refl | lia]].
  - rewrite pollLoop_S.
    destruct (pollOnce_spends cfg E (S attempts) origin id w) as (outcome & s1 & H1 & Hs1 & Hle).
    destruct (pollOnce cfg E (S attempts) origin id w) as [c w1]. simpl in H1, Hs1. subst c.
    destruct outcome as [b |].
    + exists b, 1%nat, s1. simpl. repeat split; try apply Hs1; lia.
    + destruct (IH (S attempts) w1) as (b & r & s & Hb & Hsp & Hr & Hs).
      exists b, (1 + r)%nat, (s1 + s)%nat.
      split; [exact Hb |]. split; [| lia].
      apply (spent_trans cfg 0 0 1 0 s1 0 0 r 0 s w w1); assumption.
Qed.

Lemma pollIfNeeded_spends (cfg : Config) (E : Env) (operation : Operation) (result : Result)
  (w : World) :
  exists result' r s,
    fst (pollIfNeeded cfg E operation result w) = Normal result'
    /\ spent cfg 0 0 r 0 s w (snd (pollIfNeeded cfg E operation result w))
    /\ (r <= maxPollingAttempts (MONITORING cfg))%nat /\ (s <= r)%nat
    /\ (depositId result = None -> r = 0%nat).
Proof.
  unfold pollIfNeeded.
  destruct (depositId result) as [id |].
  - destruct (truthy_int id && negb (success result)).
    + unfold pollDepositStatus, bind.
      cbv beta iota delta [logWithTime].
      match goal with
      | |- context [pollLoop cfg E ?n ?a ?o ?i ?w1] =>
          destruct (pollLoop_spends cfg E o i n a w1) as (b & r & s & Hb & Hsp & Hr & Hs);
          destruct (pollLoop cfg E n a o i w1) as [c w2]
      end.
      simpl in Hb, Hsp. subst c.
      eexists _, r, s. split; [reflexivity |].
      split; [exact Hsp | split; [exact Hr | split; [exact Hs | discriminate]]].
    + exists result, 0%nat, 0%nat.
      split; [reflexivity | split; [apply spent_refl | repeat split; lia]].
  - exists result, 0%nat, 0%nat.
    split; [reflexivity | split; [apply spent_refl | repeat split; lia]].
Qed.

(** The execution driver returns; it has called the SDK once, unless the
    wallet client could not be built, and then its result has no deposit. *)
Lemma executeQuote_spends (cfg : Config) (E : Env) (quote : Quote) (operation : Operation)
  (w : World) :
  exists result e,
    fst (executeQuote cfg E quote operation w) = Normal result
    /\ spent cfg 0 e 0 0 0 w (snd (executeQuote cfg E quote operation w))
    /\ (e <= 1)%nat
    /\ (e = 0%nat -> depositId result = None).
Proof.
  unfold executeQuote, try_catch, bind, createWalletClient.
  cbv beta iota delta [logWithTime].
  destruct (CHAINS cfg !! pretty (originChainId operation)) as [chain |].
  - cbv beta iota delta [ret]. unfold client_executeQuote.
    set (w1 := push_console _ w).
    destruct (sdk_executeQuote E (executions w1) (deposit quote)) as [events outcome].
    destruct (deliver_normal cfg E operation events initialResult (count_execution w1))
      as [r' Hr'].
    pose proof (preserves_deliver cfg E (spent cfg 0 1 0 0 0 w)
                  (spent_console cfg w 0 1 0 0 0) operation events initialResult
                  (count_execution w1)) as Hd.
    assert (H1 : spent cfg 0 1 0 0 0 w (count_execution w1))
      by (apply spent_execution, spent_console, spent_refl).
    specialize (Hd H1).
    destruct (deliver cfg E operation events initialResult (count_execution w1))
      as [c w2].
    simpl in Hr', Hd. subst c.
    destruct outcome as [err |]; eexists _, 1%nat;
      (split; [reflexivity | split; [exact Hd | split; [lia | discriminate]]]).
  - eexists _, 0%nat. cbv beta iota delta [throw ret].
    split; [reflexivity |].
    split; [do 2 apply spent_console; apply spent_refl | split; [lia | reflexivity]].
Qed.

Lemma orderly_intro (cfg : Config) (count q e r k s : nat) (w w' : World) :
  spent cfg q e r k s w w' ->
  (q <= count)%nat -> (e <= q)%nat ->
  (r <= maxPollingAttempts (MONITORING cfg) * e)%nat ->
  (k <= count)%nat -> (s <= r)%nat ->
  orderly cfg count w w'.
Proof. intros. exists q, e, r, k, s. split; [assumption | repeat split; assumption]. Qed.

Lemma interrupted_intro (cfg : Config) (q e r s : nat) (w w' : World) :
  spent cfg q e r 0 s w w' ->
  (q <= 1)%nat -> (e <= q)%nat ->
  (r <= maxPollingAttempts (MONITORING cfg) * e)%nat -> (s <= r)%nat ->
  interrupted cfg w w'.
Proof. intros. exists q, e, r, s. split; [assumption | repeat split; assumption]. Qed.

(** The recorder, called last in a branch of the [try] block. *)
Lemma save_then_return (cfg : Config) (E : Env) (operation : Operation) (result : Result)
  (quote : option Quote) (q e r s : nat) (b : bool) (note : M unit) (w0 w : World) :
  spent cfg q e r 0 s w0 w ->
  (q <= 1)%nat -> (e <= q)%nat ->
  (r <= maxPollingAttempts (MONITORING cfg) * e)%nat -> (s <= r)%nat ->
  (forall k, preserves (spent cfg q e r k s w0) note) ->
  (forall w', exists u, fst (note w') = Normal u) ->
  match (saveTransactionToHistory cfg E operation result quote;; note;; ret b)%js w with
  | (Normal _, w') => orderly cfg 1 w0 w'
  | (Throw _, w') => interrupted cfg w0 w'
  end.
Proof.
  intros H Hq He Hr Hs Hnote Hret. unfold bind.
  pose proof (saveTransactionToHistory_spends cfg E w0 q e r s operation result quote w H)
    as Hsave.
  destruct (saveTransactionToHistory cfg E operation result quote w) as [[[] | err] w1].
  - assert (Hk : exists k, (k <= 1)%nat /\ spent cfg q e r k s w0 w1)
      by (destruct Hsave; [exists 0%nat | exists 1%nat]; split; auto).
    destruct Hk as (k & Hk & Hsp).
    specialize (Hnote k w1 Hsp). destruct (Hret w1) as [u Hu].
    destruct (note w1) as [c w2]. simpl in Hu, Hnote. subst c.
    apply (orderly_intro cfg 1 q e r k s); assumption.
  - apply (interrupted_intro cfg q e r s); assumption.
Qed.

(** Opens the first bind of a script applied to a world; [open_log] also
    runs the logging step that it starts with. *)
Ltac open_bind := unfold bind at 1; cbv beta iota.
Ltac open_log := open_bind; unfold logWithTime at 1; cbv beta iota.

Lemma executeBridgeOperation_try_spends (cfg : Config) (E : Env) (operation : Operation)
  (w : World) :
  match executeBridgeOperation_try cfg E operation w with
  | (Normal _, w') => orderly cfg 1 w w'
  | (Throw _, w') => interrupted cfg w w'
  end.
Proof.
  assert (Hlog : forall q e r k s msg,
             preserves (spent cfg q e r k s w) (logWithTime E msg))
    by (intros; apply spent_logWithTime).
  assert (Hwhen : forall q e r k s b msg,
             preserves (spent cfg q e r k s w) (when b (logWithTime E msg)))
    by (intros; apply preserves_when, Hlog).
  assert (Hwhen_ret : forall b msg w', exists u, fst (when b (logWithTime E msg) w') = Normal u)
    by (intros [] msg w'; eexists; reflexivity).
  unfold executeBridgeOperation_try.
  do 4 open_log.
  match goal with |- match _ ?w1 with _ => _ end => set (started := w1) end.
  assert (H0 : spent cfg 0 0 0 0 0 w started)
    by (do 4 apply spent_console; apply spent_refl).
  pose proof (getQuote_spends cfg E w operation started H0) as Hquote.
  open_bind.
  destruct (getQuote cfg E operation started) as [[quote | err] w1].
  2:{ destruct Hquote as [H | H];
        [apply (interrupted_intro cfg 0 0 0 0) | apply (interrupted_intro cfg 1 0 0 0)];
        try exact H; lia. }
  pose proof (preserves_quoteExceedsThresholds cfg E _ (spent_console cfg w 1 0 0 0 0)
                quote operation w1 Hquote) as Hcheck.
  open_bind.
  destruct (quoteExceedsThresholds cfg E quote operation w1) as [[accepted | err] w2];
    simpl in Hcheck.
  2:{ apply (interrupted_intro cfg 1 0 0 0); try exact Hcheck; lia. }
  destruct accepted;
    [change (negb true) with false | change (negb false) with true]; cbv beta iota.
  - destruct (autoExecute (OPTIONS cfg));
      [change (negb true) with false | change (negb false) with true]; cbv beta iota.
    + open_bind.
      pose proof (Hwhen 1%nat 0%nat 0%nat 0%nat 0%nat
                    (onExecutionStart (notifications (MONITORING cfg)))
                    ("Notification: Starting execution of operation " +:+ name operation)
                    w2 Hcheck) as H3.
      destruct (Hwhen_ret (onExecutionStart (notifications (MONITORING cfg)))
                  ("Notification: Starting execution of operation " +:+ name operation) w2)
        as [u Hu].
      destruct (when _ _ w2) as [c w3]. simpl in Hu, H3. subst c.
      open_bind.
      destruct (executeQuote_spends cfg E quote operation w3)
        as (executed & e & Hex & Hsp & He & Hnone).
      destruct (executeQuote cfg E quote operation w3) as [c w4]. simpl in Hex, Hsp. subst c.
      open_bind.
      destruct (pollIfNeeded_spends cfg E operation executed w4)
        as (result & r & s & Hres & Hsp' & Hr & Hs & Hzero).
      destruct (pollIfNeeded cfg E operation executed w4) as [c w5]. simpl in Hres, Hsp'.
      subst c.
      pose proof (spent_trans cfg _ _ _ _ _ _ _ _ _ _ _ _ _
                    (spent_trans cfg _ _ _ _ _ _ _ _ _ _ _ _ _ H3 Hsp) Hsp') as H5.
      simpl in H5. rewrite Nat.add_0_r in H5.
      assert (Hre : (r <= maxPollingAttempts (MONITORING cfg) * e)%nat).
      { destruct e as [| e]; [rewrite (Hzero (Hnone eq_refl)); lia |].
        assert (e = 0%nat) by lia. subst e. lia. }
      pose proof (save_then_return cfg E operation result (Some quote) 1 e r s (success result)
               (when (onExecutionComplete (notifications (MONITORING cfg)))
                  (logWithTime E ("Notification: Operation " +:+ name operation
                                  +:+ " completed with status: "
                                  +:+ (if success result then "Success" else "Failed"))))
               w w5 H5 ltac:(lia) ltac:(lia) Hre Hs) as Hfin.
      apply Hfin.
      * intros k. apply Hwhen.
      * apply Hwhen_ret.
    + do 3 open_log.
      match goal with
      | |- match bind ?save ?k ?w3 with _ => _ end =>
          change (bind save k) with (save;; ret tt;; ret false)%js
      end.
      apply (save_then_return cfg E operation _ (Some quote) 1 0 0 0 false (ret tt) w);
        try lia.
      * do 3 apply spent_console. exact Hcheck.
      * intros k. apply preserves_ret.
      * intros w'. exists tt. reflexivity.
  - open_log. open_bind.
    match goal with
    | |- context [when ?b ?m ?w3] =>
        pose proof (Hwhen 1%nat 0%nat 0%nat 0%nat 0%nat
                      (onThresholdFailure (notifications (MONITORING cfg)))
                      ("Notification: Thresholds not met for operation "
                       +:+ name operation)
                      w3 Hcheck) as H3;
        destruct (Hwhen_ret (onThresholdFailure (notifications (MONITORING cfg)))
                    ("Notification: Thresholds not met for operation " +:+ name operation)
                    w3) as [u Hu];
        destruct (when b m w3) as [c w4]
    end.
    simpl in Hu, H3. subst c.
    match goal with
    | |- match bind ?save ?k ?w3 with _ => _ end =>
        change (bind save k) with (save;; ret tt;; ret false)%js
    end.
    apply (save_then_return cfg E operation _ (Some quote) 1 0 0 0 false (ret tt) w);
      try lia.
    * exact H3.
    * intros k. apply preserves_ret.
    * intros w'. exists tt. reflexivity.
Qed.

Lemma orderly_console (cfg : Config) (count : nat) (w0 : World) (line : string) :
  stable (orderly cfg count w0) (push_console line).
Proof. intros w H. exact H. Qed.

Lemma orderly_refl (cfg : Config) (w : World) : orderly cfg 0 w w.
Proof. apply (orderly_intro cfg 0 0 0 0 0 0); [apply spent_refl | lia ..]. Qed.

Lemma orderly_trans (cfg : Config) (c1 c2 : nat) (w0 w1 w2 : World) :
  orderly cfg c1 w0 w1 -> orderly cfg c2 w1 w2 -> orderly cfg (c1 + c2) w0 w2.
Proof.
  intros (q & e & r & k & s & H & ? & ? & ? & ? & ?)
         (q' & e' & r' & k' & s' & H' & ? & ? & ? & ? & ?).
  apply (orderly_intro cfg _ _ _ _ _ _ _ _ (spent_trans cfg _ _ _ _ _ _ _ _ _ _ _ _ _ H H'));
    nia.
Qed.

Lemma executeBridgeOperation_spends (cfg : Config) (E : Env) (operation : Operation)
  (w : World) :
  orderly cfg 1 w (snd (executeBridgeOperation cfg E operation w)).
Proof.
  pose proof (executeBridgeOperation_try_spends cfg E operation w) as Htry.
  unfold executeBridgeOperation, try_catch.
  destruct (executeBridgeOperation_try cfg E operation w) as [[b | err] w1];
    [exact Htry |].
  destruct Htry as (q & e & r & s & H & Hq & He & Hr & Hs).
  unfold executeBridgeOperation_catch.
  open_log. open_bind.
  match goal with
  | |- context [when ?b ?m ?w2] =>
      assert (H2 : spent cfg q e r 0 s w (snd (when b m w2)))
        by (apply preserves_when;
            [apply spent_logWithTime | apply spent_console, H]);
      assert (Hu : exists u, fst (when b m w2) = Normal u)
        by (destruct b; eexists; reflexivity);
      destruct (when b m w2) as [c w3]
  end.
  destruct Hu as [u Hu]. simpl in Hu, H2. subst c.
  pose proof (save_then_return cfg E operation (failure (message err)) None q e r s false
                (ret tt) w w3 H2 Hq He Hr Hs
                (fun k => preserves_ret _ tt)
                (fun w' => ex_intro _ tt eq_refl)) as Hfin.
  match goal with
  | |- orderly _ _ _ (snd (bind ?save ?k ?w4)) =>
      change (bind save k) with (save;; ret tt;; ret false)%js
  end.
  destruct ((saveTransactionToHistory cfg E operation (failure (message err)) None;;
             ret tt;; ret false)%js w3) as [[b | err'] w4]; [exact Hfin |].
  destruct Hfin as (q' & e' & r' & s' & H' & ? & ? & ? & ?).
  apply (orderly_intro cfg 1 q' e' r' 0 s'); try assumption; lia.
Qed.

Lemma runOperations_spends (cfg : Config) (E : Env) (operations : list Operation) :
  forall w, orderly cfg (length operations) w (snd (runOperations cfg E operations w)).
Proof.
  induction operations as [| op rest IH]; intros w.
  - apply orderly_refl.
  - pose proof (executeBridgeOperation_spends cfg E op w) as Hop.
    simpl runOperations. unfold bind.
    destruct (executeBridgeOperation cfg E op w) as [[b | err] w1]; simpl in Hop.
    + apply (orderly_trans cfg 1 (length rest) w w1); [exact Hop | apply IH].
    + apply (orderly_trans cfg 1 (length rest) w w1 w1 Hop).
      destruct (orderly_refl cfg w1) as (q & e & r & k & s & H & ? & ? & ? & ? & ?).
      apply (orderly_intro cfg _ q e r k s); try assumption; lia.
Qed.

(** X7: a run of [main] is orderly: over its enabled operations it asks for
    one quote each at most, starts an execution only for a quote it has
    obtained, polls only after an execution and [maxPollingAttempts] times
    at most for each, sleeps only after a status request, and writes the
    history file once for each operation at most. *)
Theorem main_is_orderly (cfg : Config) (E : Env) (w : World) :
  orderly cfg (length (enabledOperations cfg)) w (snd (main cfg E w)).
Proof.
  assert (Hbody : orderly cfg (length (enabledOperations cfg)) w (snd (mainBody cfg E w))).
  { unfold mainBody. do 2 open_log.
    destruct (Nat.eqb (length (enabledOperations cfg)) 0).
    - unfold logWithTime. cbv beta iota. simpl snd.
      destruct (orderly_refl cfg w) as (q & e & r & k & s & H & ? & ? & ? & ? & ?).
      apply (orderly_intro cfg _ q e r k s); try assumption; lia.
    - open_log. open_bind.
      match goal with
      | |- context [listOperations cfg E 0 ?ops ?w1] =>
          pose proof (preserves_listOperations cfg E (orderly cfg 0 w)
                        (orderly_console cfg 0 w) 0 ops w1 (orderly_refl cfg w)) as Hlist;
          pose proof (listOperations_normal cfg E ops 0 w1) as Hn;
          destruct (listOperations cfg E 0 ops w1) as [c w2]
      end.
      simpl in Hlist, Hn. subst c.
      open_bind.
      pose proof (runOperations_spends cfg E (enabledOperations cfg) w2) as Hrun.
      pose proof (orderly_trans cfg _ _ _ _ _ Hlist Hrun) as Hall.
      destruct (runOperations cfg E (enabledOperations cfg) w2) as [[[] | err] w3];
        exact Hall. }
  unfold main.
  destruct (mainBody cfg E w) as [[[] | err] w1]; [exact Hbody |].
  simpl. destruct (truthy_string (errorStack E err)); exact Hbody.
Qed.

(** ** What is executed *)

Section Executed.
Context (cfg : Config) (E : Env) (operation : Operation) (w : World).

Let idle : World -> Prop := unexecuted w.

Lemma idle_catch (e : Error) : preserves idle (executeBridgeOperation_catch cfg E operation e).
Proof.
  apply preserves_executeBridgeOperation_catch; [stable_by_computation |].
  intros. apply preserves_saveTransactionToHistory; stable_by_computation.
Qed.

Lemma idle_save_return (result : Result) (quote : option Quote) (b : bool) :
  preserves idle (saveTransactionToHistory cfg E operation result quote;; ret b)%js.
Proof.
  apply preserves_bind; [| intros; apply preserves_ret].
  apply preserves_saveTransactionToHistory; stable_by_computation.
Qed.

(** An operation that ends in its handler, or in a branch of its [try]
    block that does not execute, has executed nothing. *)
Lemma idle_handled (rest : M bool) (w1 : World) :
  idle w1 -> preserves idle rest ->
  idle (snd (match rest w1 with
             | (Normal b, w') => (Normal b, w')
             | (Throw e, w') => executeBridgeOperation_catch cfg E operation e w'
             end)).
Proof.
  intros H1 Hrest. specialize (Hrest w1 H1).
  destruct (rest w1) as [[b | e] w2]; simpl in Hrest; [exact Hrest |].
  apply idle_catch, Hrest.
Qed.

Lemma executes_or_idle :
  (autoExecute (OPTIONS cfg) = true
   /\ exists quote parsed,
        fst (getQuote cfg E operation (started cfg E operation w)) = Normal quote
        /\ parseUnits E (inputAmount operation) (effectiveDecimals cfg operation)
           = Normal parsed
        /\ verdict cfg quote parsed = true)
  \/ idle (snd (executeBridgeOperation cfg E operation w)).
Proof.
  assert (Hlog : forall msg, preserves idle (logWithTime E msg))
    by (intros; apply preserves_logWithTime; stable_by_computation).
  assert (H0 : idle (started cfg E operation w)) by reflexivity.
  pose proof (preserves_getQuote cfg E idle ltac:(stable_by_computation)
                ltac:(stable_by_computation) operation _ H0) as Hquote.
  unfold executeBridgeOperation, try_catch, executeBridgeOperation_try.
  do 4 open_log.
  change (push_console _ (push_console _ (push_console _ (push_console _ w))))
    with (started cfg E operation w).
  open_bind.
  destruct (getQuote cfg E operation (started cfg E operation w)) as [[quote | err] w1];
    simpl in Hquote; [| right; apply idle_catch, Hquote].
  pose proof (preserves_quoteExceedsThresholds cfg E idle ltac:(stable_by_computation)
                quote operation w1 Hquote) as Hcheck.
  pose proof (quoteExceedsThresholds_result cfg E quote operation w1) as Hverdict.
  open_bind.
  destruct (quoteExceedsThresholds cfg E quote operation w1) as [[accepted | err] w2];
    simpl in Hcheck, Hverdict; [| right; apply idle_catch, Hcheck].
  destruct (parseUnits E (inputAmount operation) (effectiveDecimals cfg operation))
    as [parsed | err] eqn:Hparsed; [| discriminate].
  injection Hverdict as Hverdict.
  destruct accepted;
    [change (negb true) with false | change (negb false) with true]; cbv beta iota.
  - destruct (autoExecute (OPTIONS cfg));
      [change (negb true) with false | change (negb false) with true]; cbv beta iota.
    + left. split; [reflexivity |]. exists quote, parsed. auto.
    + right. apply idle_handled; [exact Hcheck |].
      do 3 (apply preserves_bind; [apply Hlog | intros _]). apply idle_save_return.
  - right. apply idle_handled; [exact Hcheck |].
    apply preserves_bind; [apply Hlog | intros _].
    apply preserves_bind; [apply preserves_when, Hlog | intros _].
    apply idle_save_return.
Qed.

(** X8: an execution is started only with auto-execution on, and only for
    a quote that was obtained and that the evaluator accepted. *)
Theorem executes_only_accepted_quotes :
  executions (snd (executeBridgeOperation cfg E operation w)) <> executions w ->
  autoExecute (OPTIONS cfg) = true
  /\ exists quote parsed,
       fst (getQuote cfg E operation (started cfg E operation w)) = Normal quote
       /\ parseUnits E (inputAmount operation) (effectiveDecimals cfg operation)
          = Normal parsed
       /\ verdict cfg quote parsed = true.
Proof.
  intros Hexecuted. destruct executes_or_idle as [H | H]; [exact H | contradiction].
Qed.

End Executed.

Lemma executes_only_accepted_quotes_witness :
  autoExecute (OPTIONS shipped_config) = true
  /\ exists quote parsed,
       fst (getQuote shipped_config
              (sample_env quote_995 execute_filled always_pending write_succeeds)
              first_operation
              (started shipped_config
                 (sample_env quote_995 execute_filled always_pending write_succeeds)
                 first_operation (blank_world Missing))) = Normal quote
       /\ sample_parseUnits "0.001" 18 = Normal parsed
       /\ verdict shipped_config quote parsed = true.
Proof.
  apply (executes_only_accepted_quotes shipped_config
           (sample_env quote_995 execute_filled always_pending write_succeeds)
           first_operation (blank_world Missing)).
  vm_compute. discriminate.
Defined.

(** ** What an execution reports *)

Lemma last_snoc_omap {A B : Type} (f : A -> option B) (l : list A) (x : A) :
  last (omap f (l ++ [x])%list)
  = match f x with Some y => Some y | None => last (omap f l) end.
Proof.
  rewrite omap_app. simpl. destruct (f x) as [y |].
  - apply last_snoc.
  - rewrite app_nil_r. reflexivity.
Qed.

Lemma existsb_snoc {A : Type} (f : A -> bool) (l : list A) (x : A) :
  existsb f (l ++ [x])%list = existsb f l || f x.
Proof. rewrite existsb_app. simpl. rewrite orb_false_r. reflexivity. Qed.

Lemma onProgress_reports (cfg : Config) (E : Env) (operation : Operation)
  (seen : list Progress) (p : Progress) (w : World) :
  fst (onProgress cfg E operation (reportOf seen) p w) = Normal (reportOf (seen ++ [p])%list).
Proof.
  unfold reportOf, depositsOf, receiptsOf.
  rewrite !last_snoc_omap, existsb_snoc.
  destruct p as [| tx | | id tx | | [tx |] ts |]; simpl;
    rewrite ?orb_false_r, ?orb_true_r;
    try destruct (fillTimestampText E ts); reflexivity.
Qed.

Lemma deliver_reports (cfg : Config) (E : Env) (operation : Operation)
  (events : list Progress) :
  forall (seen : list Progress) (w : World),
    fst (deliver cfg E operation events (reportOf seen) w)
    = Normal (reportOf (seen ++ events)%list).
Proof.
  induction events as [| p rest IH]; intros seen w; simpl.
  - rewrite app_nil_r. reflexivity.
  - unfold bind.
    pose proof (onProgress_reports cfg E operation seen p w) as Hp.
    destruct (onProgress cfg E operation (reportOf seen) p w) as [c w1].
    simpl in Hp. subst c.
    rewrite IH, <- app_assoc. reflexivity.
Qed.

(** X9: when the wallet client can be built, the execution driver calls the
    SDK once; if the call throws it returns the bare failure with the
    error's message, and otherwise the report of the events: successful
    exactly when a fill was reported, with the id and hash of the last
    deposit reported and the last fill receipt. *)
Theorem executeQuote_reports (cfg : Config) (E : Env) (quote : Quote)
  (operation : Operation) (w : World) :
  is_Some (CHAINS cfg !! pretty (originChainId operation)) ->
  fst (executeQuote cfg E quote operation w)
  = Normal match sdk_executeQuote E (executions w) (deposit quote) with
           | (events, None) => reportOf events
           | (_, Some e) => failure (message e)
           end
  /\ executions (snd (executeQuote cfg E quote operation w)) = S (executions w).
Proof.
  intros [chain Hchain].
  unfold executeQuote, try_catch, bind, createWalletClient.
  cbv beta iota delta [logWithTime]. rewrite Hchain.
  cbv beta iota delta [ret]. unfold client_executeQuote.
  set (w1 := push_console _ w).
  change (executions w1) with (executions w).
  destruct (sdk_executeQuote E (executions w) (deposit quote)) as [events outcome].
  pose proof (deliver_reports cfg E operation events [] (count_execution w1)) as Hd.
  pose proof (preserves_deliver cfg E (fun w' => executions w' = S (executions w))
                ltac:(stable_by_computation) operation events initialResult
                (count_execution w1) eq_refl) as He.
  change (reportOf []) with initialResult in Hd.
  destruct (deliver cfg E operation events initialResult (count_execution w1)) as [c w2].
  simpl in Hd, He. subst c.
  destruct outcome as [err |]; split; solve [reflexivity | exact He].
Qed.

Lemma executeQuote_reports_witness :
  fst (executeQuote shipped_config
         (sample_env quote_995 execute_filled always_pending write_succeeds)
         quote_of_example first_operation (blank_world Missing))
  = Normal {| success := true; depositId := Some 42; originTxHash := Some "0x5678";
              destinationTxHash := Some "0x9abc"; error := None |}.
Proof.
  apply (proj1 (executeQuote_reports shipped_config
                  (sample_env quote_995 execute_filled always_pending write_succeeds)
                  quote_of_example first_operation (blank_world Missing)
                  ltac:(vm_compute; eauto))).
Defined.

(** X10: without an entry of [CHAINS] for the origin chain the wallet client
    cannot be built: the driver returns a failure carrying the TypeError's
    message, and the SDK is not called. *)
Theorem executeQuote_unknown_origin (cfg : Config) (E : Env) (quote : Quote)
  (operation : Operation) (w : World) :
  CHAINS cfg !! pretty (originChainId operation) = None ->
  fst (executeQuote cfg E quote operation w)
  = Normal (failure "Cannot read properties of undefined (reading 'name')")
  /\ executions (snd (executeQuote cfg E quote operation w)) = executions w.
Proof.
  intros Hchain.
  unfold executeQuote, try_catch, bind, createWalletClient.
  cbv beta iota delta [logWithTime]. rewrite Hchain. split; reflexivity.
Qed.

Lemma executeQuote_unknown_origin_witness :
  fst (executeQuote shipped_config
         (sample_env quote_995 execute_filled always_pending write_succeeds)
         quote_of_example eth_from_linea (blank_world Missing))
  = Normal (failure "Cannot read properties of undefined (reading 'name')")
  /\ executions (snd (executeQuote shipped_config
                        (sample_env quote_995 execute_filled always_pending write_succeeds)
                        quote_of_example eth_from_linea (blank_world Missing))) = 0%nat.
Proof.
  apply (executeQuote_unknown_origin shipped_config
           (sample_env quote_995 execute_filled always_pending write_succeeds)
           quote_of_example eth_from_linea (blank_world Missing)).
  vm_compute. reflexivity.
Defined.

(** ** Quoting *)

(** A quote that [getQuote] returns is the SDK's answer to the route built
    from the registry and to the parsed amount. *)
Lemma getQuote_normal (cfg : Config) (E : Env) (operation : Operation) (w : World)
  (quote : Quote) :
  fst (getQuote cfg E operation w) = Normal quote ->
  exists route amount,
    parseUnits E (inputAmount operation) (effectiveDecimals cfg operation) = Normal amount
    /\ createRouteObject cfg (tokenSymbol operation) (originChainId operation)
         (destinationChainId operation)
         (match useNativeToken operation with Some b => b | None => false end)
       = Normal route
    /\ sdk_getQuote E (quotes w) route amount = Normal quote.
Proof.
  unfold getQuote, try_catch. cbv zeta. unfold bind at 1, lift at 1.
  destruct (parseUnits E (inputAmount operation) (effectiveDecimals cfg operation))
    as [amount | err]; [| discriminate].
  unfold bind at 1, lift at 1.
  destruct (createRouteObject cfg (tokenSymbol operation) (originChainId operation)
              (destinationChainId operation) _) as [route | err]; [| discriminate].
  intros H. exists route, amount. split; [reflexivity | split; [reflexivity |]].
  revert H. open_bind.
  assert (Hw : forall b msg, exists w1,
             when b (logWithTime E msg) w = (Normal tt, w1) /\ quotes w1 = quotes w)
    by (intros [] msg; eexists; split; reflexivity).
  destruct (Hw (verboseLogging (OPTIONS cfg))
              ("Getting quote for " +:+ describeBridgeOperation cfg E operation))
    as (w1 & -> & Hq).
  open_bind. unfold client_getQuote. rewrite Hq.
  destruct (sdk_getQuote E (quotes w) route amount) as [q | err]; [| discriminate].
  open_bind.
  destruct (when (showQuoteDetails (OPTIONS cfg)) _ (count_quote w1)) as [[[] | err] w2];
    simpl; congruence.
Qed.

(** X11: an operation on ETH that does not say [useNativeToken] is described
    as bridging native ETH, but the route that is quoted for it is not marked
    native. *)
Theorem eth_described_native_but_quoted_wrapped (cfg : Config) (E : Env)
  (operation : Operation) :
  tokenSymbol operation = "ETH" ->
  useNativeToken operation = None ->
  describeBridgeOperation cfg E operation
  = "Bridge " +:+ formatTokenAmount cfg E (inputAmount operation) "ETH"
    +:+ " from " +:+ getChainName cfg (originChainId operation)
    +:+ " to " +:+ getChainName cfg (destinationChainId operation)
    +:+ " using " +:+ "ETH (native)"
  /\ forall w quote,
       fst (getQuote cfg E operation w) = Normal quote ->
       exists route amount,
         createRouteObject cfg "ETH" (originChainId operation)
           (destinationChainId operation) false = Normal route
         /\ isNative route = false
         /\ sdk_getQuote E (quotes w) route amount = Normal quote.
Proof.
  intros Hsym Hflag. split.
  - unfold describeBridgeOperation. rewrite Hsym, Hflag. reflexivity.
  - intros w quote Hquote.
    destruct (getQuote_normal cfg E operation w quote Hquote)
      as (route & amount & _ & Hroute & Hsdk).
    rewrite Hsym, Hflag in Hroute.
    exists route, amount. split; [exact Hroute | split; [| exact Hsdk]].
    unfold createRouteObject in Hroute.
    destruct (getTokenAddress cfg "ETH" (originChainId operation) false); [| discriminate].
    destruct (getTokenAddress cfg "ETH" (destinationChainId operation) false);
      [| discriminate].
    injection Hroute as <-. reflexivity.
Qed.

Lemma eth_described_native_but_quoted_wrapped_witness :
  describeBridgeOperation shipped_config
    (sample_env quote_995 execute_filled always_pending write_succeeds) eth_by_default
  = "Bridge 0.01 ETH from Optimism to Base using ETH (native)"
  /\ forall w quote,
       fst (getQuote shipped_config
              (sample_env quote_995 execute_filled always_pending write_succeeds)
              eth_by_default w) = Normal quote ->
       exists route amount,
         createRouteObject shipped_config "ETH" 10 8453 false = Normal route
         /\ isNative route = false
         /\ quote_995 (quotes w) route amount = Normal quote.
Proof.
  exact (eth_described_native_but_quoted_wrapped shipped_config
           (sample_env quote_995 execute_filled always_pending write_succeeds)
           eth_by_default eq_refl eq_refl).
Defined.

(** X12: without its plain registry entry on the origin or the destination
    chain, a token is refused before the SDK is asked anything: [getQuote]
    logs and rethrows the not-supported error (or the error of
    [parseUnits], which comes first), and the operation asks for no quote,
    executes nothing and sends no status request. *)
Theorem unlisted_token_never_reaches_the_sdk (cfg : Config) (E : Env)
  (operation : Operation) (w : World) :
  let sym := tokenSymbol operation in
  let origin := tokenEntry cfg sym (pretty (originChainId operation)) in
  let missing := match origin with
                 | Some _ => destinationChainId operation
                 | None => originChainId operation
                 end in
  origin = None \/ tokenEntry cfg sym (pretty (destinationChainId operation)) = None ->
  (forall w', exists e,
      getQuote cfg E operation w'
      = (Throw e, snd (logWithTime E ("Error getting quote: " +:+ message e) w'))
      /\ (e = notSupported sym missing
          \/ parseUnits E (inputAmount operation) (effectiveDecimals cfg operation)
             = Throw e))
  /\ let after := snd (executeBridgeOperation cfg E operation w) in
     quotes after = quotes w /\ executions after = executions w
     /\ requests after = requests w.
Proof.
  cbv zeta. intros Hmissing.
  assert (Hquote : forall w', exists e,
             getQuote cfg E operation w'
             = (Throw e, snd (logWithTime E ("Error getting quote: " +:+ message e) w'))
             /\ (e = notSupported (tokenSymbol operation)
                       (match tokenEntry cfg (tokenSymbol operation)
                                (pretty (originChainId operation)) with
                        | Some _ => destinationChainId operation
                        | None => originChainId operation
                        end)
                 \/ parseUnits E (inputAmount operation) (effectiveDecimals cfg operation)
                    = Throw e)).
  { intros w'. unfold getQuote, try_catch. cbv zeta. unfold bind at 1, lift at 1.
    destruct (parseUnits E (inputAmount operation) (effectiveDecimals cfg operation))
      as [amount | err].
    - unfold bind at 1, lift at 1. unfold createRouteObject, getTokenAddress.
      cbv beta iota zeta. rewrite !andb_false_l. cbv iota.
      destruct (tokenEntry cfg (tokenSymbol operation) (pretty (originChainId operation)))
        as [input |].
      + destruct Hmissing as [H | H]; [discriminate | rewrite H].
        eexists. split; [reflexivity | left; reflexivity].
      + eexists. split; [reflexivity | left; reflexivity].
    - exists err. split; [reflexivity | right; reflexivity]. }
  split; [exact Hquote |].
  set (I := fun w' : World =>
              quotes w' = quotes w /\ executions w' = executions w
              /\ requests w' = requests w).
  assert (Hcatch : forall e, preserves I (executeBridgeOperation_catch cfg E operation e)).
  { intros e. apply preserves_executeBridgeOperation_catch; [stable_by_computation |].
    intros. apply preserves_saveTransactionToHistory; stable_by_computation. }
  change (I (snd (executeBridgeOperation cfg E operation w))).
  unfold executeBridgeOperation, try_catch, executeBridgeOperation_try.
  do 4 open_log. open_bind.
  match goal with
  | |- context [getQuote cfg E operation ?w1] =>
      destruct (Hquote w1) as (e & -> & _)
  end.
  cbv beta iota. apply (Hcatch e). repeat split.
Qed.

Lemma unlisted_token_never_reaches_the_sdk_witness :
  let after :=
    snd (executeBridgeOperation shipped_config
           (sample_env quote_995 execute_filled always_pending write_succeeds)
           usdt_to_base (blank_world Missing)) in
  quotes after = 0%nat /\ executions after = 0%nat /\ requests after = 0%nat.
Proof.
  apply (proj2 (unlisted_token_never_reaches_the_sdk shipped_config
                  (sample_env quote_995 execute_filled always_pending write_succeeds)
                  usdt_to_base (blank_world Missing)
                  ltac:(right; vm_compute; reflexivity))).
Defined.

(** ** Decimals *)

(** X13: the decimals used for an amount are never 0: a 0 set on the operation
    or in [TOKEN_DECIMALS] is passed over like an absent value, in favour
    of the table and then of the defaults; any other value set on the
    operation, and failing that in the table, is the one used. *)
Theorem decimals_are_never_zero (cfg : Config) (operation : Operation) (sym : string) :
  getTokenDecimals cfg sym <> 0%nat
  /\ effectiveDecimals cfg operation <> 0%nat
  /\ (TOKEN_DECIMALS cfg !! sym = Some 0%nat ->
      getTokenDecimals cfg sym = defaultDecimals sym)
  /\ (decimals operation = Some 0%nat ->
      effectiveDecimals cfg operation = getTokenDecimals cfg (tokenSymbol operation))
  /\ (forall d, TOKEN_DECIMALS cfg !! sym = Some (S d) -> getTokenDecimals cfg sym = S d)
  /\ (forall d, decimals operation = Some (S d) -> effectiveDecimals cfg operation = S d).
Proof.
  assert (Hdefault : forall s, defaultDecimals s <> 0%nat).
  { intros s. unfold defaultDecimals.
    repeat match goal with |- context [if ?b then _ else _] => destruct b end;
      discriminate. }
  assert (Htable : forall s, getTokenDecimals cfg s <> 0%nat).
  { intros s. unfold getTokenDecimals.
    destruct (TOKEN_DECIMALS cfg !! s) as [[| d] |]; simpl; auto. }
  split; [apply Htable |]. split.
  - unfold effectiveDecimals.
    destruct (decimals operation) as [[| d] |]; simpl; auto.
  - unfold getTokenDecimals, effectiveDecimals.
    repeat split; intros; repeat match goal with H : _ = Some _ |- _ => rewrite H end;
      reflexivity.
Qed.

(** ** A history file that holds JSON other than an array *)

Lemma push_not_an_array (j record : json) (w : World) :
  isArray j = false -> push j record w = (Throw (pushError j), w).
Proof. destruct j; try discriminate; reflexivity. Qed.

Section NotAnArray.
Context (cfg : Config) (E : Env) (j : json) (written : nat).
Hypothesis history_on : saveHistory (OPTIONS cfg) = true.
Hypothesis not_an_array : isArray j = false.

Let stuck : World -> Prop := holding j written.

Lemma stuck_save (operation : Operation) (result : Result) (quote : option Quote) :
  triple stuck (saveTransactionToHistory cfg E operation result quote)
    (fun _ _ => False) stuck.
Proof.
  intros w [Hdisk Hwrites].
  destruct (saveTransactionToHistory_steps cfg E operation result quote w history_on)
    as (history & w1 & extra & w2 & Hread & Hout & Hon & Heq).
  rewrite readHistory_spec, Hdisk in Hread. injection Hread as <- <-.
  rewrite Heq, push_not_an_array by exact not_an_array.
  destruct Hon as (Hd & Hw & _). split; congruence.
Qed.

Lemma stuck_keeps {A : Type} (m : M A) :
  preserves stuck m -> triple stuck m (fun _ => stuck) stuck.
Proof. intros Hm. apply triple_preserves; auto. Qed.

Lemma stuck_log (msg : string) : preserves stuck (logWithTime E msg).
Proof. apply preserves_logWithTime. stable_by_computation. Qed.

Lemma stuck_absurd {A : Type} (m : M A) : triple (fun _ => False) m (fun _ _ => False) stuck.
Proof. intros w []. Qed.

(** Whatever an operation does, it ends in the recorder, which throws. *)
Lemma stuck_operation (operation : Operation) :
  triple stuck (executeBridgeOperation cfg E operation) (fun _ _ => False) stuck.
Proof.
  assert (Hlog := stuck_log).
  assert (Hsave : forall result quote (b : bool),
             triple stuck (saveTransactionToHistory cfg E operation result quote;; ret b)%js
               (fun _ _ => False) stuck).
  { intros. eapply triple_bind; [apply stuck_save | intros ?; apply stuck_absurd]. }
  apply triple_try_catch with (Y := stuck).
  - unfold executeBridgeOperation_try.
    do 4 (eapply triple_bind; [apply stuck_keeps, Hlog | intros ?; cbv beta]).
    eapply triple_bind; [apply stuck_keeps | intros quote; cbv beta].
    { apply preserves_getQuote; stable_by_computation. }
    eapply triple_bind; [apply stuck_keeps | intros accepted; cbv beta].
    { apply preserves_quoteExceedsThresholds; stable_by_computation. }
    destruct accepted;
      [change (negb true) with false | change (negb false) with true]; cbv beta iota.
    + destruct (autoExecute (OPTIONS cfg));
        [change (negb true) with false | change (negb false) with true]; cbv beta iota.
      * eapply triple_bind; [apply stuck_keeps, preserves_when, Hlog | intros ?; cbv beta].
        eapply triple_bind; [apply stuck_keeps | intros executed; cbv beta].
        { apply preserves_executeQuote; stable_by_computation. }
        eapply triple_bind; [apply stuck_keeps | intros result; cbv beta].
        { apply preserves_pollIfNeeded.
          intros. apply preserves_pollDepositStatus; stable_by_computation. }
        eapply triple_bind; [apply stuck_save | intros ?; apply stuck_absurd].
      * do 3 (eapply triple_bind; [apply stuck_keeps, Hlog | intros ?; cbv beta]). apply Hsave.
    + eapply triple_bind; [apply stuck_keeps, Hlog | intros ?; cbv beta].
      eapply triple_bind; [apply stuck_keeps, preserves_when, Hlog | intros ?; cbv beta].
      apply Hsave.
  - intros e. unfold executeBridgeOperation_catch.
    eapply triple_bind; [apply stuck_keeps, Hlog | intros ?; cbv beta].
    eapply triple_bind; [apply stuck_keeps, preserves_when, Hlog | intros ?; cbv beta].
    apply Hsave.
Qed.

Lemma stuck_mainBody (w : World) :
  stuck w -> enabledOperations cfg <> [] ->
  exists e w1,
    mainBody cfg E w = (Throw e, w1) /\ stuck w1 /\ (quotes w1 <= quotes w + 1)%nat.
Proof.
  intros Hw Hsome.
  unfold mainBody. do 2 open_log.
  destruct (enabledOperations cfg) as [| op rest]; [congruence |].
  change (Nat.eqb (length (op :: rest)) 0) with false. cbv beta iota.
  open_log. open_bind.
  match goal with
  | |- context [listOperations cfg E 0 ?ops ?w1] =>
      pose proof (preserves_listOperations cfg E
                    (fun w' => stuck w' /\ quotes w' = quotes w)
                    ltac:(stable_by_computation) 0 ops w1 (conj Hw eq_refl)) as Hlist;
      pose proof (listOperations_normal cfg E ops 0 w1) as Hn;
      destruct (listOperations cfg E 0 ops w1) as [c w2]
  end.
  simpl in Hlist, Hn. subst c. destruct Hlist as (H2 & Hq).
  open_bind. simpl runOperations. open_bind.
  pose proof (stuck_operation op w2 H2) as Hop.
  pose proof (executeBridgeOperation_spends cfg E op w2)
    as (q & e & r & k & s & (Hq1 & _) & Hle & _).
  destruct (executeBridgeOperation cfg E op w2) as [[b | err] w3]; [contradiction |].
  exists err, w3. simpl in Hq1.
  split; [reflexivity | split; [exact Hop | lia]].
Qed.

End NotAnArray.

(** C3, where the code departs from it: an error raised by the history
    recorder is not contained.  With history saving on and a history file
    that holds JSON other than an array, [history.push] throws outside the
    recorder's own handlers; the operation's handler catches that error (or
    an earlier one), logs it and calls the recorder again, which throws
    again, so no operation returns.  [main] then exits with code 1 in its
    first enabled operation: the later operations are not run, one quote
    at most was asked for, and the file is as it was. *)
Theorem history_not_an_array_ends_the_run (cfg : Config) (E : Env) (j : json) (w : World) :
  saveHistory (OPTIONS cfg) = true ->
  disk w = Holds j ->
  isArray j = false ->
  (forall operation, exists e, fst (executeBridgeOperation cfg E operation w) = Throw e)
  /\ (enabledOperations cfg <> [] ->
      fst (main cfg E w) = ProcessExit 1
      /\ disk (snd (main cfg E w)) = Holds j
      /\ writes (snd (main cfg E w)) = writes w
      /\ (quotes (snd (main cfg E w)) <= quotes w + 1)%nat).
Proof.
  intros Hon Hdisk Hj.
  assert (Hw : holding j (writes w) w) by (split; [exact Hdisk | reflexivity]).
  split.
  - intros operation.
    pose proof (stuck_operation cfg E j (writes w) Hon Hj operation w Hw) as H.
    destruct (executeBridgeOperation cfg E operation w) as [[b | e] w1];
      [contradiction | eauto].
  - intros Hsome.
    destruct (stuck_mainBody cfg E j (writes w) Hon Hj w Hw Hsome)
      as (e & w1 & Hbody & [Hd Hwr] & Hq).
    unfold main. rewrite Hbody. simpl.
    destruct (truthy_string (errorStack E e)); repeat split; assumption.
Qed.

Lemma history_not_an_array_ends_the_run_witness :
  fst (main (with_operations [first_operation; operation_of_example] shipped_config)
         (sample_env quote_995 execute_filled always_pending write_succeeds)
         (blank_world (Holds (JObj [])))) = ProcessExit 1.
Proof.
  apply (proj2 (history_not_an_array_ends_the_run
                  (with_operations [first_operation; operation_of_example] shipped_config)
                  (sample_env quote_995 execute_filled always_pending write_succeeds)
                  (JObj []) (blank_world (Holds (JObj []))) eq_refl eq_refl eq_refl)).
  discriminate.
Defined.

(** ** The registry as it is written: own keys, [parseInt], listings *)

(** [parseInt] on chain ids, special keys, signs, the hexadecimal prefix
    and strings without digits. *)
Example parseInt_examples :
  parseInt "42161" = Number 42161
  /\ parseInt "10-bridged" = Number 10
  /\ parseInt "  -7" = Number (-7)
  /\ parseInt "0x1f" = Number 31
  /\ parseInt "-0" = S754_zero true
  /\ parseInt "mainnet" = S754_nan
  /\ parseInt "" = S754_nan.
Proof. repeat split; vm_compute; reflexivity. Qed.

(** [Object.keys]: array indices first, ascending; then the other keys in
    the order of their definition; a key defined twice has its last value. *)
Example ownKeys_examples :
  ownKeys [("b", 1); ("10", 2); ("a", 3); ("9", 4); ("b", 5); ("10-bridged", 6); ("01", 7)]
  = ["9"; "10"; "b"; "a"; "10-bridged"; "01"]
  /\ get [("b", 1); ("10", 2); ("b", 5)] "b" = Some 5.
Proof. split; vm_compute; reflexivity. Qed.

(** The registry as written denotes the shipped configuration. *)
Example shipped_registry_is_shipped_config :
  with_registry shipped_registry shipped_config = shipped_config.
Proof. vm_compute. reflexivity. Qed.

(** The listings on the shipped registry. *)
Example helper_examples :
  getSupportedChains shipped_registry
  = Number <$> [1; 10; 137; 324; 8453; 34443; 42161; 534352]
  /\ getSupportedTokensForChain shipped_registry 8453 = ["ETH"; "USDC"]
  /\ length (findAvailableRoutes shipped_registry "USDT") = 12%nat
  /\ isBridgeSupportedForToken shipped_registry 1 8453 "USDT" = false.
Proof. repeat split; vm_compute; reflexivity. Qed.

(** ** Object literals *)

Lemma get_app {V : Type} (o1 o2 : Literal V) (key : string) :
  get (o1 ++ o2)%list key = match get o2 key with Some v => Some v | None => get o1 key end.
Proof.
  induction o1 as [| [k v] o1 IH]; simpl.
  - destruct (get o2 key); reflexivity.
  - rewrite IH. destruct (get o2 key); reflexivity.
Qed.

Lemma object_lookup {V : Type} (obj : Literal V) (key : string) :
  object obj !! key = get obj key.
Proof.
  unfold object. induction obj as [| [k v] obj IH]; [reflexivity |].
  rewrite reverse_cons, list_to_map_app, lookup_union, IH.
  change (list_to_map [(k, v)]) with (<[k:=v]> (∅ : gmap string V)).
  cbn [get]. destruct (get obj key) as [v' |].
  - destruct (<[k:=v]> (∅ : gmap string V) !! key); reflexivity.
  - rewrite (left_id None _).
    destruct (String.eqb_spec k key) as [-> | Hne].
    + apply lookup_insert_eq.
    + rewrite lookup_insert_ne by exact Hne. apply lookup_empty.
Qed.

Lemma get_map {V W : Type} (f : V -> W) (obj : Literal V) (key : string) :
  get (map (fun '(k, v) => (k, f v)) obj) key = f <$> get obj key.
Proof.
  induction obj as [| [k v] obj IH]; [reflexivity |]. simpl. rewrite IH.
  destruct (get obj key); [reflexivity |]. destruct (String.eqb k key); reflexivity.
Qed.

Lemma get_is_Some {V : Type} (obj : Literal V) (key : string) :
  is_Some (get obj key) <-> key ∈ (fst <$> obj).
Proof.
  induction obj as [| [k v] obj IH]; simpl.
  - split; [intros [? H]; discriminate H | intros H; inversion H].
  - rewrite elem_of_cons, <- IH.
    destruct (get obj key) as [v' |]; [split; eauto |].
    destruct (String.eqb_spec k key) as [-> | Hne].
    + split; [intros _; left; reflexivity | intros _; eexists; reflexivity].
    + split; [intros [? H]; discriminate H |].
      intros [H | [? H]]; [congruence | discriminate H].
Qed.

Lemma arrayIndex_Some (key : string) (n : N) :
  arrayIndex key = Some n -> pretty n = key.
Proof.
  unfold arrayIndex. destruct (decimalValue key 0) as [m |]; [| discriminate].
  destruct (String.eqb_spec (pretty m) key) as [H | H]; simpl; [| discriminate].
  destruct (m <? 4294967295)%N; [| discriminate]. congruence.
Qed.

Lemma elem_of_firstOccurrences (keys : list string) (key : string) :
  key ∈ firstOccurrences keys <-> key ∈ keys.
Proof.
  unfold firstOccurrences.
  rewrite elem_of_reverse, elem_of_remove_dups, elem_of_reverse. reflexivity.
Qed.

Lemma NoDup_firstOccurrences (keys : list string) : NoDup (firstOccurrences keys).
Proof. unfold firstOccurrences. rewrite reverse_Permutation. apply NoDup_remove_dups. Qed.

(** The own keys of an object are the keys that its literal defines, each once. *)
Lemma elem_of_ownKeys {V : Type} (obj : Literal V) (key : string) :
  key ∈ ownKeys obj <-> key ∈ (fst <$> obj).
Proof.
  unfold ownKeys. cbv zeta.
  rewrite <- (elem_of_firstOccurrences ((fst <$> obj))).
  set (keys := firstOccurrences ((fst <$> obj))).
  rewrite elem_of_app, list_elem_of_fmap, list_elem_of_filter.
  split.
  - intros [(n & -> & Hn) | [_ H]]; [| exact H].
    rewrite merge_sort_Permutation in Hn.
    apply list_elem_of_omap in Hn as (k & Hk & Hidx).
    rewrite (arrayIndex_Some k n Hidx). exact Hk.
  - intros Hk. destruct (arrayIndex key) as [n |] eqn:Hidx.
    + left. exists n. split; [symmetry; apply arrayIndex_Some, Hidx |].
      rewrite merge_sort_Permutation. apply list_elem_of_omap. eauto.
    + right. split; [reflexivity | exact Hk].
Qed.

Lemma NoDup_ownKeys {V : Type} (obj : Literal V) : NoDup (ownKeys obj).
Proof.
  unfold ownKeys. cbv zeta.
  pose proof (NoDup_firstOccurrences ((fst <$> obj))) as Hkeys.
  set (keys := firstOccurrences ((fst <$> obj))) in *.
  apply NoDup_app. split; [| split].
  - apply NoDup_fmap; [apply _ |].
    rewrite merge_sort_Permutation.
    clear -Hkeys. induction Hkeys as [| k keys Hk Hkeys IH]; simpl; [constructor |].
    destruct (arrayIndex k) as [n |] eqn:Hidx; [| exact IH].
    constructor; [| exact IH].
    intros Hin. apply list_elem_of_omap in Hin as (k' & Hk' & Hidx').
    apply arrayIndex_Some in Hidx, Hidx'. congruence.
  - intros key Hin1 Hin2.
    apply list_elem_of_fmap in Hin1 as (n & -> & Hn).
    rewrite merge_sort_Permutation in Hn.
    apply list_elem_of_omap in Hn as (k & Hk & Hidx).
    apply list_elem_of_filter in Hin2 as [Hnot _].
    rewrite (arrayIndex_Some k n Hidx) in Hnot. congruence.
  - apply NoDup_filter, Hkeys.
Qed.

Lemma entries_spec {V : Type} (obj : Literal V) (key : string) (v : V) :
  (key, v) ∈ entries obj <-> get obj key = Some v.
Proof.
  unfold entries. rewrite list_elem_of_omap. split.
  - intros (k & _ & Hk). destruct (get obj k) eqn:Hget; simpl in Hk; congruence.
  - intros Hget. exists key. split; [| rewrite Hget; reflexivity].
    apply elem_of_ownKeys, get_is_Some. eauto.
Qed.

Lemma fst_entries {V : Type} (obj : Literal V) : fst <$> entries obj = ownKeys obj.
Proof.
  unfold entries.
  assert (H : forall keys : list string,
             (forall k, k ∈ keys -> is_Some (get obj k)) ->
             fst <$> omap (fun key => pair key <$> get obj key) keys = keys).
  { induction keys as [| k keys IH]; intros Hall; [reflexivity |].
    simpl. destruct (Hall k ltac:(left)) as [v Hv]. rewrite Hv. simpl.
    f_equal. apply IH. intros k' Hk'. apply Hall. right. exact Hk'. }
  apply H. intros k Hk. apply get_is_Some, elem_of_ownKeys, Hk.
Qed.

(** ** The registry as a configuration *)

Lemma tokenEntry_registry (reg : Registry) (cfg : Config) (sym key : string) :
  tokenEntry (with_registry reg cfg) sym key
  = match get (TOKENS_literal reg) sym with
    | Some chainMap =>
        match get chainMap key with
        | Some addr => if truthy_string addr then Some addr else None
        | None => None
        end
    | None => None
    end.
Proof.
  unfold tokenEntry, with_registry. simpl TOKENS.
  rewrite object_lookup, get_map.
  destruct (get (TOKENS_literal reg) sym) as [chainMap |]; [| reflexivity].
  simpl. rewrite object_lookup. reflexivity.
Qed.

Lemma listed_registry (reg : Registry) (cfg : Config) (sym : string) (chainMap : Literal string)
  (chainId : N) :
  get (TOKENS_literal reg) sym = Some chainMap ->
  listed chainMap chainId = true
  <-> exists a, getTokenAddress (with_registry reg cfg) sym chainId false = Normal a.
Proof.
  intros Hsym. unfold getTokenAddress, listed. cbv zeta. rewrite andb_false_l.
  rewrite tokenEntry_registry, Hsym.
  destruct (get chainMap (pretty chainId)) as [addr |].
  - destruct (truthy_string addr); split; eauto; try discriminate.
    intros [? H]; discriminate H.
  - split; [discriminate | intros [? H]; discriminate H].
Qed.

(** ** Numbers of safe integers *)

Lemma digits2_pos_iter (p k : positive) :
  digits2_pos (Pos.iter xO p k) = (digits2_pos p + k)%positive.
Proof.
  induction k as [| k IH] using Pos.peano_ind.
  - simpl. lia.
  - rewrite Pos.iter_succ. simpl. rewrite IH. lia.
Qed.

Lemma iter_xO_mul (p k : positive) : Pos.iter xO p k = (p * 2 ^ k)%positive.
Proof.
  induction k as [| k IH] using Pos.peano_ind.
  - simpl. lia.
  - rewrite Pos.iter_succ, IH, Pos.pow_succ_r. lia.
Qed.

(** A mantissa of 53 bits with an exponent in range is kept as it is. *)
Lemma binary_round_aux_exact (m : positive) (e : Z) :
  digits2_pos m = 53%positive -> -1074 <= e <= 971 ->
  binary_round_aux 53 1024 false (Z.pos m) e loc_Exact = S754_finite false m e.
Proof.
  intros Hm He.
  assert (Hshr : shr_fexp 53 1024 (Z.pos m) e loc_Exact
                 = ({| shr_m := Z.pos m; shr_r := false; shr_s := false |}, e)).
  { unfold shr_fexp, shr_record_of_loc, Zdigits2. rewrite Hm.
    replace (fexp 53 1024 (53 + e) - e) with 0
      by (unfold fexp, emin; lia).
    reflexivity. }
  unfold binary_round_aux. rewrite Hshr.
  cbv beta iota delta [shr_m loc_of_shr_record round_nearest_even].
  rewrite Hshr. cbv beta iota delta [shr_m].
  replace (e <=? 1024 - 53) with true by (symmetry; apply Z.leb_le; lia).
  reflexivity.
Qed.

(** The Number of a positive integer below 2^53: the integer itself,
    shifted to 53 bits. *)
Lemma Number_pos (p : positive) :
  (digits2_pos p <= 53)%positive ->
  exists m, Number (Z.pos p) = S754_finite false m (Z.pos (digits2_pos p) - 53)
            /\ digits2_pos m = 53%positive
            /\ Z.pos m = Z.pos p * 2 ^ (53 - Z.pos (digits2_pos p)).
Proof.
  intros Hd. unfold Number, binary_normalize, binary_round, shl_align.
  replace (fexp 53 1024 (Z.pos (digits2_pos p) + 0) - 0)
    with (Z.pos (digits2_pos p) - 53) by (unfold fexp, emin; lia).
  replace (fexp 53 1024 (Z.pos (digits2_pos p) + 0))
    with (Z.pos (digits2_pos p) - 53) by (unfold fexp, emin; lia).
  destruct (Z.pos (digits2_pos p) - 53) as [| k | k] eqn:Hk; [| lia |].
  - exists p. rewrite binary_round_aux_exact by lia.
    replace (Z.pos (digits2_pos p)) with 53 by lia.
    split; [reflexivity | split; [lia |]]. simpl. lia.
  - exists (Pos.iter xO p k).
    assert (Hdigits : digits2_pos (Pos.iter xO p k) = 53%positive)
      by (rewrite digits2_pos_iter; lia).
    rewrite binary_round_aux_exact by (exact Hdigits || lia).
    split; [reflexivity | split; [exact Hdigits |]].
    rewrite iter_xO_mul. replace (53 - Z.pos (digits2_pos p)) with (Z.pos k) by lia.
    rewrite Pos2Z.inj_mul, Pos2Z.inj_pow. reflexivity.
Qed.

Lemma digits2_pos_lower (p : positive) : 2 ^ (Z.pos (digits2_pos p) - 1) <= Z.pos p.
Proof.
  induction p as [q IH | q IH |]; simpl digits2_pos.
  - rewrite Pos2Z.inj_succ.
    replace (Z.succ (Z.pos (digits2_pos q)) - 1) with (Z.succ (Z.pos (digits2_pos q) - 1))
      by lia.
    rewrite Z.pow_succ_r by lia. lia.
  - rewrite Pos2Z.inj_succ.
    replace (Z.succ (Z.pos (digits2_pos q)) - 1) with (Z.succ (Z.pos (digits2_pos q) - 1))
      by lia.
    rewrite Z.pow_succ_r by lia. lia.
  - simpl. lia.
Qed.

Lemma digits2_pos_bound (p : positive) :
  Z.pos p < 2 ^ 53 -> (digits2_pos p <= 53)%positive.
Proof.
  intros Hp. pose proof (digits2_pos_lower p) as H.
  destruct (Pos.leb_spec (digits2_pos p) 53) as [Hle | Hgt]; [exact Hle |].
  exfalso.
  assert (2 ^ 53 <= 2 ^ (Z.pos (digits2_pos p) - 1)) by (apply Z.pow_le_mono_r; lia).
  lia.
Qed.


Lemma safe_bound (p : positive) : (N.pos p < 2 ^ 53)%N -> (digits2_pos p <= 53)%positive.
Proof.
  intros Hp. apply digits2_pos_bound.
  change (Z.of_N (N.pos p) < Z.of_N (2 ^ 53)%N). apply N2Z.inj_lt, Hp.
Qed.

(** On the integers from 0 to 2^53, [===] on Numbers is equality. *)
Lemma SFeqb_Number (a b : N) :
  (a < 2 ^ 53)%N -> (b < 2 ^ 53)%N ->
  SFeqb (Number (Z.of_N a)) (Number (Z.of_N b)) = (a =? b)%N.
Proof.
  intros Ha Hb.
  destruct a as [| p], b as [| q].
  - reflexivity.
  - change (Z.of_N (N.pos q)) with (Z.pos q).
    destruct (Number_pos q (safe_bound q Hb)) as (m & -> & _). reflexivity.
  - change (Z.of_N (N.pos p)) with (Z.pos p).
    destruct (Number_pos p (safe_bound p Ha)) as (m & -> & _). reflexivity.
  - change (Z.of_N (N.pos p)) with (Z.pos p). change (Z.of_N (N.pos q)) with (Z.pos q).
    destruct (Number_pos p (safe_bound p Ha)) as (m & -> & Hm & Hvm).
    destruct (Number_pos q (safe_bound q Hb)) as (n & -> & Hn & Hvn).
    unfold SFeqb, SFcompare.
    change (PosDef.Pos.compare_cont Eq m n) with (Pos.compare m n).
    assert (Hpow : 0 < 2 ^ (53 - Z.pos (digits2_pos q))).
    { apply Z.pow_pos_nonneg; [lia |]. pose proof (safe_bound q Hb). lia. }
    destruct (Z.compare_spec (Z.pos (digits2_pos p) - 53) (Z.pos (digits2_pos q) - 53))
      as [He | He | He].
    + assert (Hd : digits2_pos p = digits2_pos q) by lia.
      rewrite Hd in Hvm.
      destruct (Pos.compare_spec m n) as [Hmn | Hmn | Hmn].
      * subst n. symmetry. apply N.eqb_eq. f_equal.
        apply Pos2Z.inj. rewrite Hvm in Hvn.
        apply Z.mul_cancel_r in Hvn; [exact Hvn | lia].
      * symmetry. apply N.eqb_neq. intros Hpq. injection Hpq as ->. lia.
      * symmetry. apply N.eqb_neq. intros Hpq. injection Hpq as ->. lia.
    + symmetry. apply N.eqb_neq. intros Hpq. injection Hpq as ->. lia.
    + symmetry. apply N.eqb_neq. intros Hpq. injection Hpq as ->. lia.
Qed.

(** ** [parseInt] and array indices on decimal renderings *)

Lemma pretty_N_char_code (d : N) : (d < 10)%N -> N_of_ascii (pretty_N_char d) = (48 + d)%N.
Proof.
  intros Hd.
  assert (H : (d = 0 \/ d = 1 \/ d = 2 \/ d = 3 \/ d = 4 \/ d = 5 \/ d = 6 \/ d = 7
               \/ d = 8 \/ d = 9)%N) by lia.
  repeat destruct H as [-> | H]; try subst d; reflexivity.
Qed.

Lemma digitOf_pretty_N_char (d : N) : (d < 10)%N -> digitOf 10 (pretty_N_char d) = Some d.
Proof.
  intros Hd. unfold digitOf. cbv zeta. rewrite (pretty_N_char_code d Hd).
  assert (Hin : ((48 <=? 48 + d) && (48 + d <=? 57))%N = true)
    by (apply andb_true_iff; split; apply N.leb_le; lia).
  rewrite Hin. replace (48 + d - 48)%N with d by lia.
  rewrite (proj2 (N.ltb_lt d 10) Hd). reflexivity.
Qed.

(** The digits that [pretty_N_go] puts before [s] are read back. *)
Lemma scanDigits_pretty_N_go (x : N) :
  (0 < x)%N ->
  exists k, forall s acc,
    scanDigits 10 (pretty_N_go x s) acc
    = scanDigits 10 s (Some (match acc with Some a => a | None => 0 end * 10 ^ k + x)%N).
Proof.
  induction (N.lt_wf_0 x) as [x _ IH]. intros Hx.
  assert (Hmod : (x `mod` 10 < 10)%N) by (apply N.mod_lt; lia).
  pose proof (N.div_mod x 10 ltac:(lia)) as Hdm.
  destruct (N.eq_dec (x `div` 10)%N 0%N) as [Hzero | Hpos].
  - exists 1%N. intros s acc. rewrite pretty_N_go_step by exact Hx.
    rewrite Hzero, pretty_N_go_0. simpl scanDigits.
    rewrite (digitOf_pretty_N_char _ Hmod). f_equal. f_equal.
    destruct acc; lia.
  - destruct (IH (x `div` 10)%N) as [k Hk].
    { apply N.div_lt; lia. }
    { lia. }
    exists (k + 1)%N. intros s acc. rewrite pretty_N_go_step by exact Hx.
    rewrite Hk. simpl scanDigits. rewrite (digitOf_pretty_N_char _ Hmod).
    f_equal. f_equal. rewrite N.pow_add_r. destruct acc; lia.
Qed.

Lemma decimalValue_pretty_N_go (x : N) :
  (0 < x)%N ->
  exists k, forall s acc,
    decimalValue (pretty_N_go x s) acc = decimalValue s (acc * 10 ^ k + x)%N.
Proof.
  induction (N.lt_wf_0 x) as [x _ IH]. intros Hx.
  assert (Hmod : (x `mod` 10 < 10)%N) by (apply N.mod_lt; lia).
  pose proof (N.div_mod x 10 ltac:(lia)) as Hdm.
  assert (Hstep : forall s acc,
             decimalValue (String (pretty_N_char (x `mod` 10)) s) acc
             = decimalValue s (acc * 10 + x `mod` 10)%N).
  { intros s acc. cbn [decimalValue]. cbv zeta. rewrite (pretty_N_char_code _ Hmod).
    assert (Hin : ((48 <=? 48 + x `mod` 10) && (48 + x `mod` 10 <=? 57))%N = true)
      by (apply andb_true_iff; split; apply N.leb_le;
          revert Hmod; generalize (x `mod` 10)%N; intros d Hd; lia).
    rewrite Hin. f_equal. generalize (x `mod` 10)%N. intros d. lia. }
  destruct (N.eq_dec (x `div` 10)%N 0%N) as [Hzero | Hpos].
  - exists 1%N. intros s acc. rewrite pretty_N_go_step by exact Hx.
    rewrite Hzero, pretty_N_go_0, Hstep. f_equal. lia.
  - destruct (IH (x `div` 10)%N) as [k Hk].
    { apply N.div_lt; lia. }
    { lia. }
    exists (k + 1)%N. intros s acc. rewrite pretty_N_go_step by exact Hx.
    rewrite Hk, Hstep. f_equal. rewrite N.pow_add_r. lia.
Qed.

Lemma decimalValue_pretty (n : N) : decimalValue (pretty n) 0 = Some n.
Proof.
  unfold pretty, pretty_N. destruct (decide (n = 0%N)) as [-> | Hn]; [reflexivity |].
  destruct (decimalValue_pretty_N_go n ltac:(lia)) as [k Hk]. rewrite Hk. reflexivity.
Qed.

(** The decimal rendering of an integer below 2^32 - 1 is an array index. *)
Lemma arrayIndex_pretty (n : N) :
  arrayIndex (pretty n) = if (n <? 4294967295)%N then Some n else None.
Proof.
  unfold arrayIndex. rewrite decimalValue_pretty.
  rewrite (proj2 (String.eqb_eq _ _) eq_refl). reflexivity.
Qed.

Lemma isDigit_pretty_N_char (d : N) : (d < 10)%N -> isDigit (pretty_N_char d) = true.
Proof.
  intros Hd. unfold isDigit. rewrite (pretty_N_char_code d Hd).
  apply andb_true_iff; split; apply N.leb_le; lia.
Qed.

(** [pretty_N_go] starts with a digit, and either that is all it adds or
    a digit follows. *)
Lemma pretty_N_go_head (x : N) :
  (0 < x)%N ->
  forall s, exists c rest,
    pretty_N_go x s = String c rest /\ isDigit c = true
    /\ (rest = s \/ exists c' rest', rest = String c' rest' /\ isDigit c' = true).
Proof.
  induction (N.lt_wf_0 x) as [x _ IH]. intros Hx s.
  assert (Hmod : (x `mod` 10 < 10)%N) by (apply N.mod_lt; lia).
  rewrite pretty_N_go_step by exact Hx.
  destruct (N.eq_dec (x `div` 10)%N 0%N) as [Hzero | Hpos].
  - rewrite Hzero, pretty_N_go_0. eexists _, _.
    split; [reflexivity | split; [apply isDigit_pretty_N_char, Hmod | left; reflexivity]].
  - assert (Hless : (x `div` 10 < x)%N) by (apply N.div_lt; lia).
    assert (Hquot : (0 < x `div` 10)%N) by (apply N.neq_0_lt_0; exact Hpos).
    destruct (IH (x `div` 10)%N Hless Hquot (String (pretty_N_char (x `mod` 10)) s))
      as (c & rest & Heq & Hc & Hrest).
    exists c, rest. split; [exact Heq | split; [exact Hc | right]].
    destruct Hrest as [-> | Hrest]; [| exact Hrest].
    eexists _, _. split; [reflexivity | apply isDigit_pretty_N_char, Hmod].
Qed.

Lemma digit_cases (c : ascii) :
  isDigit c = true ->
  c = "0"%char \/ c = "1"%char \/ c = "2"%char \/ c = "3"%char \/ c = "4"%char
  \/ c = "5"%char \/ c = "6"%char \/ c = "7"%char \/ c = "8"%char \/ c = "9"%char.
Proof.
  intros Hc.
  destruct c as [[] [] [] [] [] [] [] []]; vm_compute in Hc; try discriminate Hc;
    auto 10.
Qed.

Lemma trimStart_digit (c : ascii) (rest : string) :
  isDigit c = true -> trimStart (String c rest) = String c rest.
Proof.
  intros Hc.
  destruct (digit_cases c Hc) as [-> | [-> | [-> | [-> | [-> | [-> | [-> | [-> | [-> | ->]]]]]]]]];
    destruct rest as [| c2 [| c3 r3]]; reflexivity.
Qed.

(** On a string that starts with one or more decimal digits, [parseInt]
    reads the digits in radix 10. *)
Lemma parseInt_decimal (c : ascii) (rest : string) :
  isDigit c = true ->
  (rest = "" \/ exists c' rest', rest = String c' rest' /\ isDigit c' = true) ->
  parseInt (String c rest)
  = match scanDigits 10 (String c rest) None with
    | None => S754_nan
    | Some 0%N => S754_zero false
    | Some n => Number (Z.of_N n)
    end.
Proof.
  intros Hc Hrest. unfold parseInt. rewrite (trimStart_digit c rest Hc). cbv zeta.
  destruct (digit_cases c Hc) as [-> | [-> | [-> | [-> | [-> | [-> | [-> | [-> | [-> | ->]]]]]]]]];
    try reflexivity.
  destruct Hrest as [-> | (c' & rest' & -> & Hc')]; [reflexivity |].
  destruct (digit_cases c' Hc')
    as [-> | [-> | [-> | [-> | [-> | [-> | [-> | [-> | [-> | ->]]]]]]]]];
    reflexivity.
Qed.

(** [parseInt] reads back the decimal rendering of a natural number. *)
Lemma parseInt_pretty (n : N) : parseInt (pretty n) = Number (Z.of_N n).
Proof.
  unfold pretty, pretty_N. destruct (decide (n = 0%N)) as [-> | Hn]; [reflexivity |].
  assert (Hpos : (0 < n)%N) by lia.
  destruct (pretty_N_go_head n Hpos "") as (c & rest & Heq & Hc & Hrest).
  rewrite Heq, (parseInt_decimal c rest Hc).
  - rewrite <- Heq. destruct (scanDigits_pretty_N_go n Hpos) as [k Hk].
    rewrite Hk. cbn [scanDigits]. rewrite N.mul_0_l, N.add_0_l.
    destruct n as [| p]; [contradiction Hn; reflexivity | reflexivity].
  - destruct Hrest as [-> | Hrest]; [left; reflexivity | right; exact Hrest].
Qed.

Lemma includes_pretty_N_go (x : N) (s : string) :
  (0 < x)%N -> includes "-" s = false -> includes "-" (pretty_N_go x s) = false.
Proof.
  revert s. induction (N.lt_wf_0 x) as [x _ IH]. intros s Hx Hs.
  assert (Hmod : (x `mod` 10 < 10)%N) by (apply N.mod_lt; lia).
  assert (Hchar : includes "-" (String (pretty_N_char (x `mod` 10)) s) = false).
  { cbn [includes]. rewrite Hs, orb_false_r.
    destruct (digit_cases _ (isDigit_pretty_N_char _ Hmod))
      as [-> | [-> | [-> | [-> | [-> | [-> | [-> | [-> | [-> | ->]]]]]]]]]; reflexivity. }
  rewrite pretty_N_go_step by exact Hx.
  destruct (N.eq_dec (x `div` 10)%N 0%N) as [Hzero | Hquot].
  - rewrite Hzero, pretty_N_go_0. exact Hchar.
  - apply IH; [apply N.div_lt; lia | apply N.neq_0_lt_0, Hquot | exact Hchar].
Qed.

(** A decimal rendering has no hyphen: it is never one of the special
    keys such as [10-bridged]. *)
Lemma includes_pretty (n : N) : includes "-" (pretty n) = false.
Proof.
  unfold pretty, pretty_N. destruct (decide (n = 0%N)) as [-> | Hn]; [reflexivity |].
  apply includes_pretty_N_go; [lia | reflexivity].
Qed.

Lemma pretty_N_inj (a b : N) : pretty a = pretty b -> a = b.
Proof.
  intros H. pose proof (decimalValue_pretty a) as Ha. rewrite H, decimalValue_pretty in Ha.
  congruence.
Qed.

(** ** The listing helpers of [tools/helper.js] *)

Lemma get_elem_of {V : Type} (obj : Literal V) (key : string) (v : V) :
  get obj key = Some v -> (key, v) ∈ obj.
Proof.
  induction obj as [| [k v'] obj IH]; [discriminate |]. cbn [get].
  destruct (get obj key) as [v'' |].
  - intros [= ->]. right. apply IH. reflexivity.
  - destruct (String.eqb_spec k key) as [-> | _]; [| discriminate].
    intros [= ->]. left.
Qed.

Lemma listed_true (chainMap : Literal string) (chainId : N) :
  listed chainMap chainId = true
  <-> exists addr, get chainMap (pretty chainId) = Some addr /\ addr <> "".
Proof.
  unfold listed, truthy_string. destruct (get chainMap (pretty chainId)) as [addr |].
  - destruct (String.eqb_spec addr "") as [-> | Hne]; simpl; split.
    + discriminate.
    + intros (a & [= <-] & Ha). contradiction Ha. reflexivity.
    + intros _. eauto.
    + reflexivity.
  - split; [discriminate | intros (a & H & _); discriminate H].
Qed.

Lemma isBridgeSupportedForToken_true (reg : Registry) (o d : N) (sym : string) :
  isBridgeSupportedForToken reg o d sym = true
  <-> exists chainMap, get (TOKENS_literal reg) sym = Some chainMap
                       /\ listed chainMap o = true /\ listed chainMap d = true.
Proof.
  unfold isBridgeSupportedForToken.
  destruct (get (TOKENS_literal reg) sym) as [chainMap |].
  - destruct (listed chainMap o) eqn:Ho, (listed chainMap d) eqn:Hd; simpl; split;
      try discriminate; eauto;
      intros (chainMap' & Heq & Ho' & Hd'); injection Heq as <-; congruence.
  - split; [discriminate | intros (? & H & _); discriminate H].
Qed.

Lemma elem_of_pairs (chains : list spec_float) (sym : string) (route : Available.Route) :
  route ∈ flat_map
            (fun originChain =>
               flat_map
                 (fun destinationChain =>
                    if num_neq originChain destinationChain then
                      [ {| Available.originChainId := originChain;
                           Available.destinationChainId := destinationChain;
                           Available.tokenSymbol := sym |} ]
                    else [])
                 chains)
            chains
  <-> exists o d, o ∈ chains /\ d ∈ chains /\ num_neq o d = true
                  /\ route = {| Available.originChainId := o;
                                Available.destinationChainId := d;
                                Available.tokenSymbol := sym |}.
Proof.
  rewrite list_elem_of_In, in_flat_map. split.
  - intros (o & Ho & Hin). apply in_flat_map in Hin as (d & Hd & Hin).
    exists o, d. rewrite !list_elem_of_In.
    destruct (num_neq o d); [| destruct Hin].
    destruct Hin as [<- | []]. auto.
  - intros (o & d & Ho & Hd & Hneq & ->). exists o.
    split; [apply list_elem_of_In, Ho |]. apply in_flat_map. exists d.
    split; [apply list_elem_of_In, Hd |]. rewrite Hneq. left. reflexivity.
Qed.

(** The routes that [findAvailableRoutes] lists, by the keys they come from. *)
Lemma elem_of_findAvailableRoutes (reg : Registry) (sym : string) (chainMap : Literal string)
  (route : Available.Route) :
  get (TOKENS_literal reg) sym = Some chainMap ->
  route ∈ findAvailableRoutes reg sym
  <-> exists ko kd,
        (ko ∈ (fst <$> chainMap) /\ includes "-" ko = false)
        /\ (kd ∈ (fst <$> chainMap) /\ includes "-" kd = false)
        /\ num_neq (parseInt ko) (parseInt kd) = true
        /\ route = {| Available.originChainId := parseInt ko;
                      Available.destinationChainId := parseInt kd;
                      Available.tokenSymbol := sym |}.
Proof.
  intros Hsym. unfold findAvailableRoutes. rewrite Hsym. cbv zeta.
  rewrite elem_of_pairs. split.
  - intros (o & d & Ho & Hd & Hneq & ->).
    apply list_elem_of_fmap in Ho as (ko & -> & Ho), Hd as (kd & -> & Hd).
    apply list_elem_of_filter in Ho as [Ho1 Ho2], Hd as [Hd1 Hd2].
    apply elem_of_ownKeys in Ho2, Hd2. exists ko, kd. auto.
  - intros (ko & kd & [Ho1 Ho2] & [Hd1 Hd2] & Hneq & ->).
    exists (parseInt ko), (parseInt kd).
    repeat split; try assumption;
      apply list_elem_of_fmap_2, list_elem_of_filter; split; try assumption;
      apply elem_of_ownKeys; assumption.
Qed.

Lemma num_neq_Number (a b : N) :
  (a < 2 ^ 53)%N -> (b < 2 ^ 53)%N ->
  num_neq (Number (Z.of_N a)) (Number (Z.of_N b)) = negb (a =? b)%N.
Proof. intros Ha Hb. unfold num_neq. rewrite (SFeqb_Number a b Ha Hb). reflexivity. Qed.

(** X14: [isBridgeSupportedForToken] accepts a pair of chains for a token
    exactly when [createRouteObject] builds a route for it: the check
    answers [true] if and only if the token has a non-empty address on the
    origin and on the destination, which is when neither [getTokenAddress]
    call of [createRouteObject] throws. *)
Theorem isBridgeSupportedForToken_iff_route (reg : Registry) (cfg : Config)
  (originChainId destinationChainId : N) (tokenSymbol : string) (useNativeToken : bool) :
  isBridgeSupportedForToken reg originChainId destinationChainId tokenSymbol = true
  <-> exists route,
        createRouteObject (with_registry reg cfg) tokenSymbol originChainId
          destinationChainId useNativeToken = Normal route.
Proof.
  rewrite isBridgeSupportedForToken_true. unfold createRouteObject. split.
  - intros (chainMap & Hsym & Ho & Hd).
    apply (listed_registry reg cfg tokenSymbol chainMap _ Hsym) in Ho as [input Ho].
    apply (listed_registry reg cfg tokenSymbol chainMap _ Hsym) in Hd as [output Hd].
    rewrite Ho, Hd. eauto.
  - intros [route Hroute].
    destruct (get (TOKENS_literal reg) tokenSymbol) as [chainMap |] eqn:Hsym.
    + exists chainMap. split; [reflexivity |].
      rewrite !(listed_registry reg cfg tokenSymbol chainMap _ Hsym).
      destruct (getTokenAddress _ tokenSymbol originChainId false) as [input | e];
        try discriminate Hroute.
      destruct (getTokenAddress _ tokenSymbol destinationChainId false) as [output | e];
        try discriminate Hroute.
      eauto.
    + exfalso. revert Hroute. unfold getTokenAddress. cbv zeta. rewrite andb_false_l.
      rewrite tokenEntry_registry, Hsym. discriminate.
Qed.

(** X15: the tokens that [getSupportedTokensForChain] lists for a chain are
    exactly the tokens whose address [getTokenAddress] finds on that chain
    (without the bridged variant), and no token is listed twice, also when
    the configuration names a token twice. *)
Theorem getSupportedTokensForChain_spec (reg : Registry) (cfg : Config) (chainId : N) :
  (forall tokenSymbol,
      tokenSymbol ∈ getSupportedTokensForChain reg chainId
      <-> exists addr,
            getTokenAddress (with_registry reg cfg) tokenSymbol chainId false = Normal addr)
  /\ NoDup (getSupportedTokensForChain reg chainId).
Proof.
  unfold getSupportedTokensForChain. split.
  - intros sym. rewrite list_elem_of_fmap. split.
    + intros ([k chainMap] & -> & Hin). apply list_elem_of_filter in Hin as [Hlisted Hin].
      apply entries_spec in Hin. simpl in *.
      apply (listed_registry reg cfg k chainMap chainId Hin). exact Hlisted.
    + intros Haddr.
      destruct (get (TOKENS_literal reg) sym) as [chainMap |] eqn:Hsym.
      * exists (sym, chainMap). split; [reflexivity |].
        apply list_elem_of_filter. split; [| apply entries_spec, Hsym].
        simpl. apply (listed_registry reg cfg sym chainMap chainId Hsym). exact Haddr.
      * exfalso. destruct Haddr as [addr Haddr]. revert Haddr.
        unfold getTokenAddress. cbv zeta. rewrite andb_false_l.
        rewrite tokenEntry_registry, Hsym. discriminate.
  - eapply sublist_NoDup; [apply (NoDup_ownKeys (TOKENS_literal reg)) |].
    rewrite <- fst_entries. apply fmap_sublist, sublist_filter.
Qed.

(** X16: every pair of distinct chains that [isBridgeSupportedForToken]
    accepts for a token is among the routes that [findAvailableRoutes]
    lists for it (chain ids below 2^53, which Numbers hold exactly),
    whatever other keys the token's chain map has. *)
Theorem supported_pair_is_listed (reg : Registry) (o d : N) (sym : string) :
  (o < 2 ^ 53)%N -> (d < 2 ^ 53)%N -> o <> d ->
  isBridgeSupportedForToken reg o d sym = true ->
  {| Available.originChainId := Number (Z.of_N o);
     Available.destinationChainId := Number (Z.of_N d);
     Available.tokenSymbol := sym |} ∈ findAvailableRoutes reg sym.
Proof.
  intros Ho Hd Hne Hsupported.
  apply isBridgeSupportedForToken_true in Hsupported as (chainMap & Hsym & Hlo & Hld).
  apply listed_true in Hlo as (ao & Hao & _), Hld as (ad & Had & _).
  apply (elem_of_findAvailableRoutes reg sym chainMap _ Hsym).
  exists (pretty o), (pretty d). rewrite !parseInt_pretty, !includes_pretty.
  repeat split.
  - apply get_is_Some. eauto.
  - apply get_is_Some. eauto.
  - rewrite (num_neq_Number o d Ho Hd). apply negb_true_iff, N.eqb_neq, Hne.
Qed.

Lemma supported_pair_is_listed_witness :
  {| Available.originChainId := Number 1;
     Available.destinationChainId := Number 10;
     Available.tokenSymbol := "USDC" |} ∈ findAvailableRoutes shipped_registry "USDC".
Proof.
  apply (supported_pair_is_listed shipped_registry 1 10 "USDC");
    [reflexivity | reflexivity | discriminate | vm_compute; reflexivity].
Defined.

(** X17: when the chain map of a token is in order, every route that
    [findAvailableRoutes] lists for the token joins two different chains
    and is accepted by [isBridgeSupportedForToken]; the special keys such
    as [10-bridged] give no route. *)
Theorem listed_route_is_supported (reg : Registry) (sym : string)
  (chainMap : Literal string) (route : Available.Route) :
  get (TOKENS_literal reg) sym = Some chainMap ->
  chainMap_in_order chainMap ->
  route ∈ findAvailableRoutes reg sym ->
  exists o d : N,
    route = {| Available.originChainId := Number (Z.of_N o);
               Available.destinationChainId := Number (Z.of_N d);
               Available.tokenSymbol := sym |}
    /\ o <> d
    /\ isBridgeSupportedForToken reg o d sym = true.
Proof.
  intros Hsym Horder Hroute.
  apply (elem_of_findAvailableRoutes reg sym chainMap _ Hsym) in Hroute
    as (ko & kd & [Ho1 Ho2] & [Hd1 Hd2] & Hneq & ->).
  assert (Hkey : forall key, key ∈ (fst <$> chainMap) -> includes "-" key = false ->
                   exists n : N, (n < 2 ^ 53)%N /\ key = pretty n
                                 /\ listed chainMap n = true).
  { intros key Hkey Hplain. apply get_is_Some in Hkey as [addr Haddr].
    pose proof (get_elem_of chainMap key addr Haddr) as Hin.
    unfold chainMap_in_order in Horder. rewrite Forall_forall in Horder.
    destruct (Horder (key, addr) Hin Hplain) as (n & Hn & Heq & Hne).
    simpl in Heq, Hne. exists n. split; [exact Hn | split; [exact Heq |]].
    apply listed_true. exists addr. split; [rewrite <- Heq; exact Haddr | exact Hne]. }
  destruct (Hkey ko Ho1 Ho2) as (o & Ho & -> & Hlo).
  destruct (Hkey kd Hd1 Hd2) as (d & Hd & -> & Hld).
  rewrite !parseInt_pretty in *. exists o, d.
  split; [reflexivity | split].
  - rewrite (num_neq_Number o d Ho Hd) in Hneq.
    apply negb_true_iff, N.eqb_neq in Hneq. exact Hneq.
  - apply isBridgeSupportedForToken_true. eauto.
Qed.

(** Reads the chain id off a key, to name it in a proof. *)
Ltac chain_id_of_key :=
  match goal with
  | |- exists n : N, _ /\ ?key = pretty n /\ _ =>
      let id := eval vm_compute in (default 0%N (decimalValue key 0)) in exists id
  | |- exists n : N, _ /\ ?key = pretty n =>
      let id := eval vm_compute in (default 0%N (decimalValue key 0)) in exists id
  end.

Lemma listed_route_is_supported_witness :
  exists o d : N,
    {| Available.originChainId := Number 10;
       Available.destinationChainId := Number 1;
       Available.tokenSymbol := "USDT" |}
    = {| Available.originChainId := Number (Z.of_N o);
         Available.destinationChainId := Number (Z.of_N d);
         Available.tokenSymbol := "USDT" |}
    /\ o <> d
    /\ isBridgeSupportedForToken shipped_registry o d "USDT" = true.
Proof.
  destruct (get (TOKENS_literal shipped_registry) "USDT") as [chainMap |] eqn:Hsym;
    [| discriminate Hsym].
  apply (listed_route_is_supported shipped_registry "USDT" chainMap _ Hsym).
  - vm_compute in Hsym. injection Hsym as <-. unfold chainMap_in_order.
    repeat (apply Forall_cons; split;
            [ cbn [fst snd]; intros Hplain;
              first [ discriminate Hplain
                    | chain_id_of_key;
                      split; [reflexivity | split; [reflexivity | discriminate]] ]
            | ]).
    apply Forall_nil. exact I.
  - apply list_elem_of_In. vm_compute. auto 20.
Defined.

Lemma NoDup_omap_arrayIndex (keys : list string) :
  NoDup keys -> NoDup (omap arrayIndex keys).
Proof.
  induction 1 as [| k keys Hk Hkeys IH]; simpl; [constructor |].
  destruct (arrayIndex k) as [n |] eqn:Hidx; [| exact IH].
  constructor; [| exact IH].
  intros Hin. apply list_elem_of_omap in Hin as (k' & Hk' & Hidx').
  apply arrayIndex_Some in Hidx, Hidx'. congruence.
Qed.

Lemma StronglySorted_le_lt (ids : list N) :
  StronglySorted N.le ids -> NoDup ids -> StronglySorted N.lt ids.
Proof.
  induction 1 as [| n ids Hsorted IH Hall]; intros Hdup; [constructor |].
  apply NoDup_cons in Hdup as [Hn Hdup]. constructor; [apply IH, Hdup |].
  rewrite Forall_forall in Hall |- *. intros m Hm.
  apply N.le_neq. split; [apply Hall, Hm |]. intros ->. exact (Hn Hm).
Qed.

Lemma filter_none (keys : list string) :
  (forall key, key ∈ keys -> arrayIndex key <> None) ->
  filter (fun key => arrayIndex key = None) keys = [].
Proof.
  induction keys as [| k keys IH]; intros Hall; [reflexivity |].
  rewrite filter_cons. destruct (decide (arrayIndex k = None)) as [Hnone | _].
  - contradiction (Hall k ltac:(left) Hnone).
  - apply IH. intros key Hkey. apply Hall. right. exact Hkey.
Qed.

(** X18: when every key of [CHAINS] is the decimal rendering of a chain id
    below 2^32 - 1, [getSupportedChains] returns the chain ids in strictly
    ascending order, whatever the order in which the configuration
    defines them, each chain of the configuration once and nothing else. *)
Theorem getSupportedChains_ascending (reg : Registry) (cfg : Config) :
  Forall (fun entry : string * Chain =>
            exists n : N, (n < 4294967295)%N /\ fst entry = pretty n)
    (CHAINS_literal reg) ->
  exists ids : list N,
    getSupportedChains reg = (fun n => Number (Z.of_N n)) <$> ids
    /\ StronglySorted N.lt ids
    /\ (forall n, n ∈ ids <-> is_Some (CHAINS (with_registry reg cfg) !! pretty n)).
Proof.
  intros Hkeys. rewrite Forall_forall in Hkeys.
  set (keys := firstOccurrences (fst <$> CHAINS_literal reg)).
  assert (Hindex : forall key, key ∈ keys ->
                     exists n, (n < 4294967295)%N /\ key = pretty n
                               /\ arrayIndex key = Some n).
  { intros key Hkey. apply elem_of_firstOccurrences, list_elem_of_fmap in Hkey
      as ([k c] & -> & Hin).
    destruct (Hkeys (k, c) Hin) as (n & Hn & Heq). simpl in *. subst k.
    exists n. split; [exact Hn | split; [reflexivity |]].
    rewrite arrayIndex_pretty. apply N.ltb_lt in Hn. rewrite Hn. reflexivity. }
  exists (merge_sort N.le (omap arrayIndex keys)). split; [| split].
  - unfold getSupportedChains, ownKeys. cbv zeta. fold keys.
    rewrite filter_none, app_nil_r, <- list_fmap_compose.
    + apply list_fmap_ext. intros _ n _. apply parseInt_pretty.
    + intros key Hkey. destruct (Hindex key Hkey) as (n & _ & _ & ->). discriminate.
  - apply StronglySorted_le_lt; [apply StronglySorted_merge_sort; apply _ |].
    rewrite merge_sort_Permutation.
    apply NoDup_omap_arrayIndex, NoDup_firstOccurrences.
  - intros n. rewrite merge_sort_Permutation, list_elem_of_omap.
    simpl CHAINS. rewrite object_lookup, get_is_Some, <- elem_of_firstOccurrences.
    fold keys. split.
    + intros (key & Hkey & Hidx). rewrite (arrayIndex_Some key n Hidx). exact Hkey.
    + intros Hkey. exists (pretty n). split; [exact Hkey |].
      destruct (Hindex _ Hkey) as (m & _ & Heq & Hidx).
      apply pretty_N_inj in Heq. subst m. exact Hidx.
Qed.

Lemma getSupportedChains_ascending_witness :
  exists ids : list N,
    getSupportedChains shipped_registry = (fun n => Number (Z.of_N n)) <$> ids
    /\ StronglySorted N.lt ids
    /\ (forall n, n ∈ ids <-> is_Some (CHAINS (with_registry shipped_registry shipped_config)
                                         !! pretty n)).
Proof.
  apply (getSupportedChains_ascending shipped_registry shipped_config).
  repeat (apply Forall_cons; split;
          [ cbn [fst]; chain_id_of_key; split; reflexivity | ]).
  apply Forall_nil. exact I.
Defined.
